(** * Market data adapter: ingestion core

    A shallow embedding of [src/market_data_adapter/market_data_adapter.py]
    and [src/market_data_adapter/models.py].

    - Part 1 gives the event model ([models.py]) and the objects of the
      broker feed that the adapter reads.
    - Part 2 gives the three monitors: the polling quote monitor
      ([subscribe_top_of_book.monitor]), the cursor based tick monitor
      ([subscribe_tick_by_tick.monitor_ticks]) and the depth callback
      ([subscribe_order_book.on_depth_update]).
    - Part 3 gives the adapter itself: its state, the feed as an external
      collaborator, and every public operation as a state and exception
      passing function.
    - Part 4 states and proves the properties. *)

From Stdlib Require Import Ascii String.
From stdpp Require Import gmap strings list.

Open Scope Z_scope.

(* ===================================================================== *)
(** * Part 1: data model *)
(* ===================================================================== *)

(** Python exceptions that can travel through the adapter. [FeedError]
    stands for anything the broker library raises. *)
Inductive PyExc :=
| ValueError (msg : string)
| AttributeError (msg : string)
| ValidationError (msg : string)
| FeedError (msg : string).

Inductive LogRecord :=
| info (msg : string)
| warning (msg : string).

#[global] Instance PyExc_eq_dec : EqDecision PyExc.
Proof. solve_decision. Defined.
#[global] Instance LogRecord_eq_dec : EqDecision LogRecord.
Proof. solve_decision. Defined.

(** A call returns, raises, or is left parked on the full queue (what
    happens when it is woken is not followed). *)
Inductive Result (A : Type) :=
| Ok (a : A)
| Raise (e : PyExc)
| Parked.
Arguments Ok {A} a.
Arguments Raise {A} e.
Arguments Parked {A}.

(** [Stock(sym, exchange, currency)] *)
Record Contract := Stock {
  symbol : string;
  exchange : string;
  currency : string }.

#[global] Instance Contract_eq_dec : EqDecision Contract.
Proof. solve_decision. Defined.

(** The contracts of the sample runs. *)
Definition aapl : Contract := Stock "AAPL" "SMART" "USD".
Definition pltr : Contract := Stock "PLTR" "SMART" "USD".

(** An integer field that accepts a float only when it is a whole
    number, for floats counted in hundredths: 500 is 5.00 and is
    accepted as 5; 250 is 2.50 and is refused. *)
Definition whole (x : Z) : option Z :=
  if decide (x mod 100 = 0) then Some (x / 100) else None.

Section Model.

(** [Float] is the type of Python float values other than NaN, compared
    with Python's [==]; [DateTime] is the type of [datetime] values,
    compared the same way.
    [int_of_float] is the validation the message classes apply to a float
    handed to an [Optional[int]] field ([None] when it is refused). *)
Context {Float DateTime : Type}.
Context `{!EqDecision Float, !EqDecision DateTime}.
Variable int_of_float : Float → option Z.

(** A numeric attribute of a feed object as Python sees it: [None], the
    float NaN, or a number. *)
Inductive RawFloat :=
| RawNone
| RawNaN
| RawVal (x : Float).

(** One entry of [ticker.tickByTicks]. The feed has several kinds of
    tick objects and not every kind has every attribute: [tick_price] and
    [tick_size] are [None] when the object has no attribute [price] or
    [size] (reading it raises [AttributeError]), and else hold the
    attribute's value, Python's [None] or a float. The two attribute
    fields are present ([Some]) when [hasattr] finds them; their value is
    the [__dict__] of the attribute object. *)
Record Tick := {
  tick_time : option DateTime;
  tick_price : option (option Float);
  tick_size : option (option Float);
  tickAttribLast : option (list (string * bool));
  tickAttrib : option (list (string * bool)) }.

(** One level of [ticker.domBids] / [ticker.domAsks]: the feed gives
    the price and the size as floats. *)
Record DOMLevel := {
  level_price : Float;
  level_size : Float }.

(** The feed's [Ticker] object, as observed at one instant. *)
Record Ticker := {
  contract : option Contract;
  bid : RawFloat;
  ask : RawFloat;
  last : RawFloat;
  volume : RawFloat;
  time : option DateTime;
  tickByTicks : list Tick;
  domBids : list DOMLevel;
  domAsks : list DOMLevel }.

(** ** models.py *)

Record TopOfBookMessage := {
  tob_event_type : string;
  tob_symbol : string;
  tob_bid : option Float;
  tob_ask : option Float;
  tob_last : option Float;
  tob_volume : option Z;
  tob_timestamp : option DateTime }.

Record TickByTickMessage := {
  tbt_event_type : string;
  tbt_symbol : string;
  tbt_time : option DateTime;
  tbt_price : option Float;
  tbt_size : option Z;
  tbt_tickAttrib : option (list (string * bool)) }.

Record MarketDepthMessage := {
  md_event_type : string;
  md_symbol : string;
  md_position : nat;
  md_operation : Z;   (* 0=insert,1=update,2=delete *)
  md_side : Z;        (* 0=bid,1=ask *)
  md_price : Float;
  md_size : Z }.

Record HistoricalBar := {
  bar_date : DateTime;
  bar_open : Float;
  bar_high : Float;
  bar_low : Float;
  bar_close : Float;
  bar_volume : Z;
  barCount : option Z;
  average : option Float }.

Record HistoricalDataResponse := {
  hist_event_type : string;
  hist_symbol : string;
  hist_bars : list HistoricalBar }.

Record FundamentalDataResponse := {
  fund_event_type : string;
  fund_symbol : string;
  fund_report_type : string;
  fund_data : string }.

Record FundamentalRatiosResponse := {
  ratios_event_type : string;
  ratios_symbol : string;
  ratios_data : string }.

(** Everything that is put on [self.queue]. *)
Inductive Message :=
| MsgTopOfBook (m : TopOfBookMessage)
| MsgTickByTick (m : TickByTickMessage)
| MsgMarketDepth (m : MarketDepthMessage)
| MsgHistoricalData (m : HistoricalDataResponse)
| MsgFundamentalData (m : FundamentalDataResponse)
| MsgFundamentalRatios (m : FundamentalRatiosResponse).

#[global] Instance TopOfBookMessage_eq_dec : EqDecision TopOfBookMessage.
Proof. solve_decision. Defined.

(* ===================================================================== *)
(** * Part 2: the monitors *)
(* ===================================================================== *)

(** ** Quote monitor ([subscribe_top_of_book.monitor]) *)

(** [normalize_ticker.safe_float] *)
Definition safe_float (value : RawFloat) : option Float :=
  match value with
  | RawNone => None
  | RawNaN => None
  | RawVal x => Some x
  end.

(** The dict returned by [normalize_ticker]. *)
Record SnapshotDict := {
  d_event_type : string;
  d_symbol : option string;
  d_bid : option Float;
  d_ask : option Float;
  d_last : option Float;
  d_volume : option Float;
  d_timestamp : option DateTime }.

Definition normalize_ticker (ticker : Ticker) : SnapshotDict :=
  {| d_event_type := "top_of_book";
     d_symbol := match contract ticker with
                 | Some c => Some (symbol c)
                 | None => None
                 end;
     d_bid := safe_float (bid ticker);
     d_ask := safe_float (ask ticker);
     d_last := safe_float (last ticker);
     d_volume := safe_float (volume ticker);
     d_timestamp := time ticker |}.

(** Construction of a [TopOfBookMessage] from the dict (line 94): the
    class validates its fields.
    [symbol: str] refuses [None]; [volume: Optional[int]] receives the
    float made by [safe_float]. *)
Definition new_TopOfBookMessage (d : SnapshotDict) : PyExc + TopOfBookMessage :=
  match d_symbol d with
  | None => inl (ValidationError "symbol")
  | Some sym =>
      match d_volume d with
      | None =>
          inr {| tob_event_type := d_event_type d; tob_symbol := sym;
                 tob_bid := d_bid d; tob_ask := d_ask d; tob_last := d_last d;
                 tob_volume := None; tob_timestamp := d_timestamp d |}
      | Some v =>
          match int_of_float v with
          | None => inl (ValidationError "volume")
          | Some n =>
              inr {| tob_event_type := d_event_type d; tob_symbol := sym;
                     tob_bid := d_bid d; tob_ask := d_ask d;
                     tob_last := d_last d;
                     tob_volume := Some n; tob_timestamp := d_timestamp d |}
          end
      end
  end.

(** The snapshot one poll builds from the ticker it reads (lines 93-94). *)
Definition read_snapshot (ticker : Ticker) : PyExc + TopOfBookMessage :=
  new_TopOfBookMessage (normalize_ticker ticker).

(** Local state and output of the monitor: [prev_snapshot], the snapshots
    handed to [self.queue.put] in order, and the warnings logged. *)
Record MonitorState := {
  prev_snapshot : option TopOfBookMessage;
  emitted : list TopOfBookMessage;
  warnings : list LogRecord }.

(** Line 90: the state the task starts in. *)
Definition monitor_start : MonitorState :=
  {| prev_snapshot := None; emitted := []; warnings := [] |}.

(** One turn of the [while True] body (lines 92-100), for the ticker
    state read at that poll. *)
Definition monitor_iteration (st : MonitorState) (ticker : Ticker)
    : MonitorState :=
  match read_snapshot ticker with
  | inr snapshot =>
      if decide (Some snapshot ≠ prev_snapshot st) then
        {| prev_snapshot := Some snapshot;
           emitted := emitted st ++ [snapshot];
           warnings := warnings st |}
      else st
  | inl e =>
      {| prev_snapshot := prev_snapshot st;
         emitted := emitted st;
         warnings := warnings st ++ [warning "Error creating TopOfBookMessage"] |}
  end.

(** The monitor after the polls that read [reads], oldest first. *)
Definition monitor_from (st : MonitorState) (reads : list Ticker)
    : MonitorState :=
  foldl monitor_iteration st reads.

Definition monitor (reads : list Ticker) : MonitorState :=
  monitor_from monitor_start reads.

(** The snapshot most recently handed to the queue, if any. *)
Definition last_emitted (st : MonitorState) : option TopOfBookMessage :=
  list.last (emitted st).

(** The poll raises while building its snapshot (the [except] branch). *)
Definition read_fails (ticker : Ticker) : bool :=
  match read_snapshot ticker with
  | inl _ => true
  | inr _ => false
  end.

(** ** The bounded output queue ([asyncio.Queue]) *)

Record Queue := {
  maxsize : Z;
  items : list Message }.

Definition qsize (q : Queue) : Z := Z.of_nat (length (items q)).

(** [Queue.full]: a queue whose [maxsize] is not positive is never full. *)
Definition full (q : Queue) : bool :=
  if maxsize q <=? 0 then false else maxsize q <=? qsize q.

Definition put_nowait (q : Queue) (m : Message) : Queue :=
  {| maxsize := maxsize q; items := items q ++ [m] |}.

(** ** Tick monitor ([subscribe_tick_by_tick.monitor_ticks]) *)

(** The [tickAttrib] argument of line 137: [tickAttribLast] when the tick
    has it, else [tickAttrib] when the tick has it, else [None]. *)
Definition tick_attrib (tick : Tick) : option (list (string * bool)) :=
  match tickAttribLast tick with
  | Some d => Some d
  | None => tickAttrib tick
  end.

(** ASCII [str.lower]. *)
Definition lower_ascii (c : ascii) : ascii :=
  let n := nat_of_ascii c in
  if ((65 <=? n) && (n <=? 90))%nat then ascii_of_nat (n + 32) else c.

Fixpoint lower (s : string) : string :=
  match s with
  | EmptyString => EmptyString
  | String c s' => String (lower_ascii c) (lower s')
  end.

(** Construction of the message of a tick (lines 131-138). The
    arguments are read in order: [tick.price] and [tick.size] raise
    [AttributeError] on a tick object without them; the class then
    validates its fields, and [size: Optional[int]] receives the feed's
    float. *)
Definition tick_message (symbol tickType : string) (tick : Tick)
    : PyExc + TickByTickMessage :=
  match tick_price tick with
  | None => inl (AttributeError "price")
  | Some price =>
      match tick_size tick with
      | None => inl (AttributeError "size")
      | Some None =>
          inr {| tbt_event_type := "tick_by_tick_" +:+ lower tickType;
                 tbt_symbol := symbol;
                 tbt_time := tick_time tick;
                 tbt_price := price;
                 tbt_size := None;
                 tbt_tickAttrib := tick_attrib tick |}
      | Some (Some size) =>
          match int_of_float size with
          | None => inl (ValidationError "size")
          | Some n =>
              inr {| tbt_event_type := "tick_by_tick_" +:+ lower tickType;
                     tbt_symbol := symbol;
                     tbt_time := tick_time tick;
                     tbt_price := price;
                     tbt_size := Some n;
                     tbt_tickAttrib := tick_attrib tick |}
          end
      end
  end.

(** The monitor shares the event loop with the feed and with the queue's
    consumers. It gives up control only where it awaits: in
    [asyncio.sleep], and in [self.queue.put] when the queue is full. An
    [EnvTurn] is what the rest of the loop did during one such wait: the
    feed may have replaced [ticker.tickByTicks] by a new list
    ([feed_reset]), it appended [feed_appended] to it, and the queue holds
    [queue_after] when the monitor wakes. *)
Record EnvTurn := {
  feed_reset : option (list Tick);
  feed_appended : list Tick;
  queue_after : list Message }.

Definition feed_turn (turn : EnvTurn) (l : list Tick) : list Tick :=
  match feed_reset turn with
  | Some l' => l' ++ feed_appended turn
  | None => l ++ feed_appended turn
  end.

(** What the tick monitor owns and shares: [last_processed_count], the
    shared [ticker.tickByTicks] list, the shared queue, (for the
    properties) the messages it has put so far, oldest first, and the
    exception with which its task has ended, if it has: nothing in
    [monitor_ticks] catches an exception, so the first one raised leaves
    the coroutine and ends the task. *)
Record TickMonitor := {
  last_processed_count : nat;
  ticks : list Tick;
  out_queue : Queue;
  sent : list TickByTickMessage;
  ended : option PyExc }.

Definition wake (turn : EnvTurn) (st : TickMonitor) : TickMonitor :=
  {| last_processed_count := last_processed_count st;
     ticks := feed_turn turn (ticks st);
     out_queue := {| maxsize := maxsize (out_queue st);
                     items := queue_after turn |};
     sent := sent st;
     ended := ended st |}.

(** [await self.queue.put(message)] (line 139): while the queue is full
    the task is parked and the environment runs. [None] when the schedule
    [env] ends with the task still parked. *)
Fixpoint await_put (env : list EnvTurn) (st : TickMonitor)
    (message : TickByTickMessage) : option (TickMonitor * list EnvTurn) :=
  if full (out_queue st) then
    match env with
    | [] => None
    | turn :: env' => await_put env' (wake turn st) message
    end
  else
    Some ({| last_processed_count := last_processed_count st;
             ticks := ticks st;
             out_queue := put_nowait (out_queue st) (MsgTickByTick message);
             sent := sent st ++ [message];
             ended := ended st |}, env).

(** The task ends with the exception [e]. *)
Definition raised (e : PyExc) (st : TickMonitor) : TickMonitor :=
  {| last_processed_count := last_processed_count st;
     ticks := ticks st;
     out_queue := out_queue st;
     sent := sent st;
     ended := Some e |}.

(** The [for tick in new_ticks] loop (lines 130-139): each turn builds
    the message and awaits its [put]; a message that cannot be built ends
    the loop and the task. *)
Fixpoint put_new_ticks (symbol tickType : string) (new_ticks : list Tick)
    (env : list EnvTurn) (st : TickMonitor)
    : option (TickMonitor * list EnvTurn) :=
  match new_ticks with
  | [] => Some (st, env)
  | tick :: rest =>
      match tick_message symbol tickType tick with
      | inl e => Some (raised e st, env)
      | inr message =>
          match await_put env st message with
          | None => None
          | Some (st', env') => put_new_ticks symbol tickType rest env' st'
          end
      end
  end.

(** Truth value of a Python list. *)
Definition truthy {A} (l : list A) : bool :=
  match l with
  | [] => false
  | _ :: _ => true
  end.

(** One turn of the [while True] body after the sleep (lines 126-141):
    the guard and the slice read the list as it is at the poll; line 141
    reads its length again after the loop of awaited puts. *)
Definition monitor_ticks_cycle (symbol tickType : string)
    (env : list EnvTurn) (st : TickMonitor)
    : option (TickMonitor * list EnvTurn) :=
  if truthy (ticks st) &&
     bool_decide (last_processed_count st < length (ticks st))%nat then
    let new_ticks := drop (last_processed_count st) (ticks st) in
    match put_new_ticks symbol tickType new_ticks env st with
    | None => None
    | Some (st', env') =>
        match ended st' with
        | Some _ => Some (st', env')
        | None =>
            Some ({| last_processed_count := length (ticks st');
                     ticks := ticks st';
                     out_queue := out_queue st';
                     sent := sent st';
                     ended := None |}, env')
        end
    end
  else Some (st, env).

(** The monitor over the poll cycles [sleeps]: each is what happened
    during [await asyncio.sleep(0.01)] (line 123), followed by the body;
    [env] is the schedule for the parked puts. A task that has ended runs
    no further cycle. *)
Fixpoint monitor_ticks_from (symbol tickType : string) (sleeps : list EnvTurn)
    (env : list EnvTurn) (st : TickMonitor)
    : option (TickMonitor * list EnvTurn) :=
  match sleeps with
  | [] => Some (st, env)
  | s :: rest =>
      match ended st with
      | Some _ => Some (st, env)
      | None =>
          match monitor_ticks_cycle symbol tickType env (wake s st) with
          | None => None
          | Some (st', env') => monitor_ticks_from symbol tickType rest env' st'
          end
      end
  end.

(** Line 121: the cursor starts at 0. *)
Definition monitor_ticks_start (q : Queue) (l : list Tick) : TickMonitor :=
  {| last_processed_count := 0; ticks := l; out_queue := q; sent := [];
     ended := None |}.

(** What the constructor of lines 131-138 gives over a list of entries
    taken in order: the messages of the entries before the first one whose
    message cannot be built, and the exception of that one, if there is
    one. *)
Fixpoint tick_messages (symbol tickType : string) (l : list Tick)
    : list TickByTickMessage * option PyExc :=
  match l with
  | [] => ([], None)
  | tick :: rest =>
      match tick_message symbol tickType tick with
      | inl e => ([], Some e)
      | inr message =>
          let '(messages, r) := tick_messages symbol tickType rest in
          (message :: messages, r)
      end
  end.

(** ** Depth callback ([subscribe_order_book.on_depth_update]) *)

(** Construction of the message of one level (lines 164-171): the class
    validates its fields, and [size: int] receives the feed's float. *)
Definition depth_message (symbol : string) (side : Z) (i : nat)
    (level : DOMLevel) : PyExc + MarketDepthMessage :=
  match int_of_float (level_size level) with
  | None => inl (ValidationError "size")
  | Some n =>
      inr {| md_event_type := "market_depth";
             md_symbol := symbol;
             md_position := i;
             md_operation := 1;
             md_side := side;
             md_price := level_price level;
             md_size := n |}
  end.

(** One [for i, level in enumerate(...)] loop, from position [i] on: the
    messages for which a [queue.put] task was created, in the order of
    creation, and the exception that ended the loop, if one did. *)
Fixpoint depth_side (symbol : string) (side : Z) (i : nat)
    (levels : list DOMLevel) : list MarketDepthMessage * option PyExc :=
  match levels with
  | [] => ([], None)
  | level :: rest =>
      match depth_message symbol side i level with
      | inl e => ([], Some e)
      | inr message =>
          let '(created, r) := depth_side symbol side (S i) rest in
          (message :: created, r)
      end
  end.

(** The callback (lines 163-184): the bid loop, then the ask loop.
    Nothing in it catches an exception: the first message that cannot be
    built ends the call, with the tasks created so far left in place. *)
Definition on_depth_update (symbol : string) (ticker : Ticker)
    : list MarketDepthMessage * option PyExc :=
  let '(bids, r) := depth_side symbol 0 0 (domBids ticker) in
  match r with
  | Some e => (bids, Some e)
  | None =>
      let '(asks, r') := depth_side symbol 1 0 (domAsks ticker) in
      (bids ++ asks, r')
  end.

(** Lines 209-232: the same body. *)
Definition on_smart_depth_update (symbol : string) (ticker : Ticker)
    : list MarketDepthMessage * option PyExc :=
  let '(bids, r) := depth_side symbol 0 0 (domBids ticker) in
  match r with
  | Some e => (bids, Some e)
  | None =>
      let '(asks, r') := depth_side symbol 1 0 (domAsks ticker) in
      (bids ++ asks, r')
  end.

(* ===================================================================== *)
(** * Part 3: the adapter *)
(* ===================================================================== *)

(** ** The broker connection ([ib_insync.IB]), an external collaborator *)

(** The methods the adapter calls on [self.ib], with their arguments. *)
Inductive FeedCall :=
| connectAsync (host : string) (port : Z) (clientId : Z)
| reqMktData (c : Contract)
| reqTickByTickData (c : Contract) (tickType : string)
| reqMktDepth (c : Contract) (numRows : Z) (isSmartDepth : bool)
| cancelMktData (c : Contract)
| cancelMktDepth (c : Contract) (isSmartDepth : bool)
| reqHistoricalDataAsync (c : Contract)
    (durationStr barSizeSetting whatToShow : string) (useRTH : bool)
| reqFundamentalDataAsync (c : Contract) (reportType : string)
| ib_disconnect.

(** A bar as the feed returns it; [barCount] and [average] are read with
    [getattr(bar, ..., None)]. *)
Record BarData := {
  date : DateTime;
  open : Float;
  high : Float;
  low : Float;
  close : Float;
  bar_data_volume : Float;
  bar_data_barCount : option Z;
  bar_data_average : option Float }.

(** The feed's behaviour: what a call returns, or the exception it
    raises, given the calls made on the connection before it. Nothing is
    assumed about it. *)
Record Feed := {
  answer_none : list FeedCall → FeedCall → PyExc + unit;
  answer_ticker : list FeedCall → FeedCall → PyExc + Ticker;
  answer_bars : list FeedCall → FeedCall → PyExc + list BarData;
  answer_data : list FeedCall → FeedCall → PyExc + string }.

Variable feed : Feed.

(** The connection object: the calls made on it so far, oldest first. *)
Record IB := { calls : list FeedCall }.

(** ** State *)

Record MarketDataAdapter := {
  host : string;
  port : Z;
  client_id : Z;
  ib : option IB;
  contracts : gmap string Contract;
  queue : Queue;
  ticker_subs : list (string * Ticker);
  l2_depth_subs : list (string * Ticker) }.

(** [MarketDataAdapter.__init__] *)
Definition new_MarketDataAdapter (host : string) (port client_id : Z)
    (queue_maxsize : Z) : MarketDataAdapter :=
  {| host := host; port := port; client_id := client_id;
     ib := None;
     contracts := ∅;
     queue := {| maxsize := queue_maxsize; items := [] |};
     ticker_subs := [];
     l2_depth_subs := [] |}.

(** Tasks made with [asyncio.create_task] that run a monitor loop: the
    quote monitor of [subscribe_top_of_book] and the tick monitor of
    [subscribe_tick_by_tick], each with the ticker object it polls. *)
Inductive Task :=
| monitor_task (symbol : string) (ticker : Ticker)
| monitor_ticks_task (symbol tickType : string) (ticker : Ticker).

(** Callbacks added to a ticker's [updateEvent]. *)
Inductive Callback :=
| on_depth_update_for (symbol : string)
| on_smart_depth_update_for (symbol : string).

(** The adapter object together with what it acts on: the log, the
    monitor tasks of the event loop that are running (oldest first), and
    the callbacks registered on tickers. A task enters [tasks] with
    [create_task]. The adapter keeps no reference to a task and cancels
    none, so a task leaves [tasks] only when its coroutine ends: see
    [loop_step]. *)
Record World := {
  self : MarketDataAdapter;
  log : list LogRecord;
  tasks : list Task;
  updateEvent : list (Ticker * Callback) }.

Definition new_World (a : MarketDataAdapter) : World :=
  {| self := a; log := []; tasks := []; updateEvent := [] |}.

(** ** Python dicts that are iterated: insertion ordered, one entry per key *)

Fixpoint dict_set {V} (k : string) (v : V) (d : list (string * V))
    : list (string * V) :=
  match d with
  | [] => [(k, v)]
  | (k', v') :: d' =>
      if decide (k' = k) then (k, v) :: d' else (k', v') :: dict_set k v d'
  end.

Fixpoint dict_get {V} (k : string) (d : list (string * V)) : option V :=
  match d with
  | [] => None
  | (k', v') :: d' => if decide (k' = k) then Some v' else dict_get k d'
  end.

(** ** Statements: state passing, exceptions, suspension *)

Definition M (A : Type) : Type := World → Result A * World.

Definition ret {A} (a : A) : M A := λ w, (Ok a, w).

Definition bind {A B} (m : M A) (k : A → M B) : M B :=
  λ w, match m w with
       | (Ok a, w') => k a w'
       | (Raise e, w') => (Raise e, w')
       | (Parked, w') => (Parked, w')
       end.

Definition raise {A} (e : PyExc) : M A := λ w, (Raise e, w).

(** [try: body except Exception as e: handler] *)
Definition try_except {A} (body : M A) (handler : PyExc → M A) : M A :=
  λ w, match body w with
       | (Raise e, w') => handler e w'
       | r => r
       end.

Definition update (f : World → World) : M unit := λ w, (Ok (), f w).

Fixpoint for_each {A} (l : list A) (body : A → M unit) : M unit :=
  match l with
  | [] => ret ()
  | x :: l' => bind (body x) (λ _, for_each l' body)
  end.

Notation "'do' x <- m ; k" := (bind m (λ x, k))
  (at level 10, x name, m at level 100, k at level 200,
   format "'[v' 'do'  x  <-  m ; '/' k ']'").
Notation "m ;; k" := (bind m (λ _, k))
  (at level 100, k at level 200, right associativity).

Definition set_self (f : MarketDataAdapter → MarketDataAdapter) : M unit :=
  update (λ w, {| self := f (self w); log := log w; tasks := tasks w;
                  updateEvent := updateEvent w |}).

Definition logger_info (msg : string) : M unit :=
  update (λ w, {| self := self w; log := log w ++ [info msg];
                  tasks := tasks w; updateEvent := updateEvent w |}).

Definition logger_warning (msg : string) : M unit :=
  update (λ w, {| self := self w; log := log w ++ [warning msg];
                  tasks := tasks w; updateEvent := updateEvent w |}).

(** [asyncio.create_task(...)] for a monitor. *)
Definition create_task (t : Task) : M unit :=
  update (λ w, {| self := self w; log := log w; tasks := tasks w ++ [t];
                  updateEvent := updateEvent w |}).

(** [ticker.updateEvent += callback] *)
Definition add_callback (ticker : Ticker) (cb : Callback) : M unit :=
  update (λ w, {| self := self w; log := log w; tasks := tasks w;
                  updateEvent := updateEvent w ++ [(ticker, cb)] |}).

Definition set_ib (conn : option IB) (a : MarketDataAdapter)
    : MarketDataAdapter :=
  {| host := host a; port := port a; client_id := client_id a;
     ib := conn; contracts := contracts a; queue := queue a;
     ticker_subs := ticker_subs a; l2_depth_subs := l2_depth_subs a |}.

Definition set_contracts (m : gmap string Contract) (a : MarketDataAdapter)
    : MarketDataAdapter :=
  {| host := host a; port := port a; client_id := client_id a;
     ib := ib a; contracts := m; queue := queue a;
     ticker_subs := ticker_subs a; l2_depth_subs := l2_depth_subs a |}.

Definition set_queue (q : Queue) (a : MarketDataAdapter)
    : MarketDataAdapter :=
  {| host := host a; port := port a; client_id := client_id a;
     ib := ib a; contracts := contracts a; queue := q;
     ticker_subs := ticker_subs a; l2_depth_subs := l2_depth_subs a |}.

Definition set_ticker_subs (d : list (string * Ticker))
    (a : MarketDataAdapter) : MarketDataAdapter :=
  {| host := host a; port := port a; client_id := client_id a;
     ib := ib a; contracts := contracts a; queue := queue a;
     ticker_subs := d; l2_depth_subs := l2_depth_subs a |}.

Definition set_l2_depth_subs (d : list (string * Ticker))
    (a : MarketDataAdapter) : MarketDataAdapter :=
  {| host := host a; port := port a; client_id := client_id a;
     ib := ib a; contracts := contracts a; queue := queue a;
     ticker_subs := ticker_subs a; l2_depth_subs := d |}.

(** [self.ib.<method>(...)]: on [None] the attribute lookup raises; else
    the call is made (and recorded) and the feed answers. *)
Definition ib_call {A} (c : FeedCall)
    (answer : list FeedCall → FeedCall → PyExc + A) : M A :=
  λ w, match ib (self w) with
       | None =>
           (Raise (AttributeError "'NoneType' object has no such attribute"), w)
       | Some conn =>
           let w' := {| self := set_ib (Some {| calls := calls conn ++ [c] |})
                                  (self w);
                        log := log w; tasks := tasks w;
                        updateEvent := updateEvent w |} in
           match answer (calls conn) c with
           | inl e => (Raise e, w')
           | inr a => (Ok a, w')
           end
       end.

(** [await self.queue.put(item)] *)
Definition queue_put (item : Message) : M unit :=
  λ w, if full (queue (self w)) then (Parked, w)
       else (Ok (), {| self := set_queue (put_nowait (queue (self w)) item)
                                 (self w);
                       log := log w; tasks := tasks w;
                       updateEvent := updateEvent w |}).

(** ** Operations *)

Definition connect : M unit :=
  logger_info "Connecting to IBKR..." ;;
  set_self (set_ib (Some {| calls := [] |})) ;;
  (λ w, ib_call (connectAsync (host (self w)) (port (self w))
                   (client_id (self w))) (answer_none feed) w) ;;
  logger_info "Connected.".

(** The body of the first loop of [cleanup_subscriptions] (lines 49-54). *)
Definition cancel_ticker_sub (entry : string * Ticker) : M unit :=
  let '(symbol, ticker) := entry in
  try_except
    (match contract ticker with
     | Some c =>
         ib_call (cancelMktData c) (answer_none feed) ;;
         logger_info ("Cancelled market data subscription for " +:+ symbol)
     | None => ret ()
     end)
    (λ e, logger_warning
            ("Error cancelling market data subscription for " +:+ symbol)).

(** The body of the second loop (lines 58-63). *)
Definition cancel_depth_sub (entry : string * Ticker) : M unit :=
  let '(symbol, ticker) := entry in
  try_except
    (match contract ticker with
     | Some c =>
         ib_call (cancelMktDepth c false) (answer_none feed) ;;
         logger_info ("Cancelled market depth subscription for " +:+ symbol)
     | None => ret ()
     end)
    (λ e, logger_warning
            ("Error cancelling market depth subscription for " +:+ symbol)).

Definition cleanup_subscriptions : M unit :=
  (λ w, for_each (ticker_subs (self w)) cancel_ticker_sub w) ;;
  (λ w, for_each (l2_depth_subs (self w)) cancel_depth_sub w) ;;
  set_self (set_ticker_subs []) ;;
  set_self (set_l2_depth_subs []).

Definition disconnect : M unit :=
  λ w, match ib (self w) with
       | Some _ =>
           (cleanup_subscriptions ;;
            ib_call ib_disconnect (answer_none feed) ;;
            logger_info "Disconnected.") w
       | None => (Ok (), w)
       end.

Definition define_contracts (symbol_list : list string)
    (exchange currency : string) : M unit :=
  for_each symbol_list (λ sym,
    let contract := Stock sym exchange currency in
    set_self (λ a, set_contracts (<[sym := contract]> (contracts a)) a) ;;
    logger_info ("Defined contract for " +:+ sym)).

Definition subscribe_top_of_book (symbol : string) : M unit :=
  λ w, match contracts (self w) !! symbol with
       | None =>
           (Raise (ValueError ("Symbol " +:+ symbol +:+
                     " not defined. Call define_contracts first.")), w)
       | Some contract =>
           (do ticker <- ib_call (reqMktData contract) (answer_ticker feed);
            create_task (monitor_task symbol ticker) ;;
            set_self (λ a, set_ticker_subs
                             (dict_set symbol ticker (ticker_subs a)) a) ;;
            logger_info ("Subscribed to top-of-book for " +:+ symbol)) w
       end.

Definition subscribe_tick_by_tick (symbol tickType : string) : M unit :=
  λ w, match contracts (self w) !! symbol with
       | None => (Raise (ValueError ("Symbol " +:+ symbol +:+
                           " not defined.")), w)
       | Some contract =>
           (do ticker <- ib_call (reqTickByTickData contract tickType)
                           (answer_ticker feed);
            set_self (λ a, set_ticker_subs
                             (dict_set (symbol +:+ "_tick_" +:+ tickType)
                                ticker (ticker_subs a)) a) ;;
            create_task (monitor_ticks_task symbol tickType ticker) ;;
            logger_info ("Subscribed to tick-by-tick [" +:+ tickType +:+
                         "] for " +:+ symbol)) w
       end.

Definition subscribe_order_book (symbol : string) (numRows : Z) : M unit :=
  λ w, match contracts (self w) !! symbol with
       | None => (Raise (ValueError ("Symbol " +:+ symbol +:+
                           " not defined.")), w)
       | Some contract =>
           (do ticker <- ib_call (reqMktDepth contract numRows false)
                           (answer_ticker feed);
            set_self (λ a, set_l2_depth_subs
                             (dict_set symbol ticker (l2_depth_subs a)) a) ;;
            add_callback ticker (on_depth_update_for symbol) ;;
            logger_info ("Subscribed to market depth for " +:+ symbol +:+
                         " (v2)")) w
       end.

Definition subscribe_smart_depth (symbol : string) (numRows : Z) : M unit :=
  λ w, match contracts (self w) !! symbol with
       | None => (Raise (ValueError ("Symbol " +:+ symbol +:+
                           " not defined.")), w)
       | Some contract =>
           try_except
             (do ticker <- ib_call (reqMktDepth contract numRows true)
                             (answer_ticker feed);
              set_self (λ a, set_l2_depth_subs
                               (dict_set (symbol +:+ "_smart") ticker
                                  (l2_depth_subs a)) a) ;;
              add_callback ticker (on_smart_depth_update_for symbol) ;;
              logger_info ("Subscribed to smart (L3) market depth for " +:+
                           symbol))
             (λ e,
                logger_warning ("Smart depth not available for " +:+ symbol) ;;
                subscribe_order_book symbol numRows) w
       end.

(** Construction of one [HistoricalBar] (lines 285-294): the class
    validates its fields, and [volume: int] receives the feed's float. *)
Definition historical_bar (bar : BarData) : PyExc + HistoricalBar :=
  match int_of_float (bar_data_volume bar) with
  | None => inl (ValidationError "volume")
  | Some n =>
      inr {| bar_date := date bar; bar_open := open bar;
             bar_high := high bar; bar_low := low bar;
             bar_close := close bar;
             bar_volume := n;
             barCount := bar_data_barCount bar;
             average := bar_data_average bar |}
  end.

(** The loop of lines 282-295: the list of bars built, or the exception
    of the first bar that cannot be built. *)
Fixpoint historical_bars (bars : list BarData) : PyExc + list HistoricalBar :=
  match bars with
  | [] => inr []
  | bar :: rest =>
      match historical_bar bar with
      | inl e => inl e
      | inr b =>
          match historical_bars rest with
          | inl e => inl e
          | inr bs => inr (b :: bs)
          end
      end
  end.

Definition request_historical_data (symbol : string)
    (durationStr barSizeSetting whatToShow : string) (useRTH : bool)
    : M unit :=
  λ w, match contracts (self w) !! symbol with
       | None => (Raise (ValueError ("Symbol " +:+ symbol +:+
                           " not defined.")), w)
       | Some contract =>
           (do bars <- ib_call (reqHistoricalDataAsync contract durationStr
                                  barSizeSetting whatToShow useRTH)
                         (answer_bars feed);
            match historical_bars bars with
            | inl e => raise e
            | inr built_bars =>
                let response := {| hist_event_type := "historical_data";
                                   hist_symbol := symbol;
                                   hist_bars := built_bars |} in
                queue_put (MsgHistoricalData response)
            end) w
       end.

Definition request_fundamental_data (symbol reportType : string) : M unit :=
  λ w, match contracts (self w) !! symbol with
       | None => (Raise (ValueError ("Symbol " +:+ symbol +:+
                           " not defined.")), w)
       | Some contract =>
           (do data <- ib_call (reqFundamentalDataAsync contract reportType)
                         (answer_data feed);
            let response := {| fund_event_type := "fundamental_data";
                               fund_symbol := symbol;
                               fund_report_type := reportType;
                               fund_data := data |} in
            queue_put (MsgFundamentalData response)) w
       end.

Definition request_fundamental_ratios (symbol : string) : M unit :=
  λ w, match contracts (self w) !! symbol with
       | None => (Raise (ValueError ("Symbol " +:+ symbol +:+
                           " not defined.")), w)
       | Some contract =>
           (do data <- ib_call (reqFundamentalDataAsync contract "FinRatios")
                         (answer_data feed);
            let response := {| ratios_event_type := "fundamental_ratios";
                               ratios_symbol := symbol;
                               ratios_data := data |} in
            queue_put (MsgFundamentalRatios response)) w
       end.

Definition current_queue_size (w : World) : Z := qsize (queue (self w)).

(** ** Readings of the state used in the properties *)

(** The calls made so far on the adapter's connection. *)
Definition calls_of (w : World) : list FeedCall :=
  match ib (self w) with
  | Some conn => calls conn
  | None => []
  end.

(** The state after the calls [cs] were made on the connection (if there
    is one) and the records [lg] were logged. *)
Definition called (cs : list FeedCall) (lg : list LogRecord) (w : World)
    : World :=
  {| self := set_ib (match ib (self w) with
                     | Some conn => Some {| calls := calls conn ++ cs |}
                     | None => None
                     end) (self w);
     log := log w ++ lg;
     tasks := tasks w;
     updateEvent := updateEvent w |}.

(** The state with both registries emptied (lines 66-67). *)
Definition cleared (w : World) : World :=
  {| self := set_l2_depth_subs [] (set_ticker_subs [] (self w));
     log := log w; tasks := tasks w; updateEvent := updateEvent w |}.

(** The cancel request one turn of a sweep loop makes for an entry: none
    when the entry's ticker has no contract (the guard of lines 50, 59). *)
Definition cancel_request (cancel : Contract → FeedCall)
    (entry : string * Ticker) : list FeedCall :=
  match contract entry.2 with
  | Some c => [cancel c]
  | None => []
  end.

(** The cancel requests the sweep of [cleanup_subscriptions] makes for a
    state, in order: the quote and tick registry first, the depth
    registry second. *)
Definition sweep_calls (a : MarketDataAdapter) : list FeedCall :=
  (ticker_subs a ≫= cancel_request cancelMktData) ++
  (l2_depth_subs a ≫= cancel_request (λ c, cancelMktDepth c false)).

Definition is_quote_monitor (sym : string) (t : Task) : bool :=
  match t with
  | monitor_task sym' _ => bool_decide (sym' = sym)
  | monitor_ticks_task _ _ _ => false
  end.

(** The running quote monitors of a symbol. *)
Definition quote_monitors (sym : string) (ts : list Task) : list Task :=
  filter (λ t, is_quote_monitor sym t = true) ts.

(** The registry entries stored under a key. *)
Definition entries_for (k : string) (d : list (string * Ticker))
    : list (string * Ticker) :=
  filter (λ entry, entry.1 = k) d.

(** A turn in which the feed leaves [ticker.tickByTicks] alone, and one
    in which it only appends. *)
Definition quiet (turn : EnvTurn) : Prop :=
  feed_reset turn = None ∧ feed_appended turn = [].

Definition grows_only (turn : EnvTurn) : Prop :=
  feed_reset turn = None.

(** What a running monitor has sent is the list up to the cursor, one
    message per entry; what an ended monitor has sent is the list up to
    the entry whose message could not be built. *)
Definition sent_up_to_cursor (symbol tickType : string) (st : TickMonitor)
    : Prop :=
  (last_processed_count st ≤ length (ticks st))%nat ∧
  match ended st with
  | None =>
      tick_messages symbol tickType (take (last_processed_count st) (ticks st))
        = (sent st, None)
  | Some e => tick_messages symbol tickType (ticks st) = (sent st, Some e)
  end.

(** A statement that stops no task: the tasks running before it are
    still running after it, in the same order, whatever its outcome. *)
Definition keeps_tasks {A} (m : M A) : Prop :=
  ∀ w, tasks w `prefix_of` tasks (m w).2.

(** ** The statements of the specification that the code does not meet,
    as predicates on a state *)

(** After [disconnect] no registry entry and no monitor task is left, and
    the sweep's calls come before the connection's own [disconnect]. *)
Definition disconnect_stops_everything (w : World) : Prop :=
  let w' := (disconnect w).2 in
  ticker_subs (self w') = [] ∧
  l2_depth_subs (self w') = [] ∧
  tasks w' = [] ∧
  calls_of w' = calls_of w ++ sweep_calls (self w) ++ [ib_disconnect].

(** A poll that finds the list shorter than the cursor emits every entry
    of the list. *)
Definition shrink_resets_cursor (symbol tickType : string)
    (env : list EnvTurn) (st : TickMonitor) : Prop :=
  (length (ticks st) < last_processed_count st)%nat →
  ∃ st' env',
    monitor_ticks_cycle symbol tickType env st = Some (st', env') ∧
    inr <$> sent st' =
      (inr <$> sent st) ++ (tick_message symbol tickType <$> ticks st) ∧
    last_processed_count st' = length (ticks st').

(** One call of the depth callback returns normally with one message
    created per level of the ticker. *)
Definition depth_update_covers_ladder (symbol : string) (ticker : Ticker)
    : Prop :=
  (on_depth_update symbol ticker).2 = None ∧
  length (on_depth_update symbol ticker).1 =
    (length (domBids ticker) + length (domAsks ticker))%nat.

(** A rejected smart depth request never makes the call fail. *)
Definition smart_depth_never_fails (symbol : string) (numRows : Z)
    (w : World) : Prop :=
  ∀ c conn e,
    contracts (self w) !! symbol = Some c →
    ib (self w) = Some conn →
    answer_ticker feed (calls conn) (reqMktDepth c numRows true) = inl e →
    (subscribe_smart_depth symbol numRows w).1 = Ok ().

(** A second quote subscription leaves one registry entry and does not
    add a second running monitor. *)
Definition resubscribe_does_not_leak (symbol : string) (w : World) : Prop :=
  let w1 := (subscribe_top_of_book symbol w).2 in
  let w2 := (subscribe_top_of_book symbol w1).2 in
  length (entries_for symbol (ticker_subs (self w2))) = 1%nat ∧
  length (quote_monitors symbol (tasks w2)) =
    length (quote_monitors symbol (tasks w1)).

(** The sweep makes one cancel request per registry entry, returns, and
    empties both registries. *)
Definition sweep_attempts_every_entry (w : World) : Prop :=
  let '(r, w') := cleanup_subscriptions w in
  r = Ok () ∧
  ticker_subs (self w') = [] ∧
  l2_depth_subs (self w') = [] ∧
  length (calls_of w') =
    (length (calls_of w) + length (ticker_subs (self w)) +
     length (l2_depth_subs (self w)))%nat.

(** ** Sample objects *)

(** A ticker on which no price has arrived yet. *)
Definition quiet_ticker (c : option Contract) : Ticker :=
  {| contract := c; bid := RawNaN; ask := RawNaN; last := RawNaN;
     volume := RawNaN; time := None;
     tickByTicks := []; domBids := []; domAsks := [] |}.

(** The snapshot built from a quiet ticker: every field unknown. *)
Definition unknown_snapshot (sym : string) : TopOfBookMessage :=
  {| tob_event_type := "top_of_book"; tob_symbol := sym;
     tob_bid := None; tob_ask := None; tob_last := None;
     tob_volume := None; tob_timestamp := None |}.

(** A trade of the given size with no time, price or attributes set. *)
Definition trade (size : Float) : Tick :=
  {| tick_time := None; tick_price := Some None;
     tick_size := Some (Some size);
     tickAttribLast := None; tickAttrib := None |}.

(** The message of a trade of [n] shares. *)
Definition trade_message (symbol event_type : string) (n : Z)
    : TickByTickMessage :=
  {| tbt_event_type := event_type; tbt_symbol := symbol;
     tbt_time := None; tbt_price := None; tbt_size := Some n;
     tbt_tickAttrib := None |}.

(** A tick of the bid and ask kind: the object has no attribute [price]
    and no attribute [size]. *)
Definition bid_ask_tick : Tick :=
  {| tick_time := None; tick_price := None; tick_size := None;
     tickAttribLast := None; tickAttrib := None |}.

(** A feed that accepts every request and returns quiet tickers. *)
Definition plain_feed : Feed :=
  {| answer_none := λ _ _, inr ();
     answer_ticker := λ _ call,
       match call with
       | reqMktData c | reqTickByTickData c _ | reqMktDepth c _ _ =>
           inr (quiet_ticker (Some c))
       | _ => inr (quiet_ticker None)
       end;
     answer_bars := λ _ _, inr [];
     answer_data := λ _ _, inr "" |}.

(** A feed without market depth: every [reqMktDepth] is refused. *)
Definition feed_without_depth : Feed :=
  {| answer_none := λ _ _, inr ();
     answer_ticker := λ _ call,
       match call with
       | reqMktDepth _ _ _ => inl (FeedError "no market depth")
       | reqMktData c | reqTickByTickData c _ => inr (quiet_ticker (Some c))
       | _ => inr (quiet_ticker None)
       end;
     answer_bars := λ _ _, inr [];
     answer_data := λ _ _, inr "" |}.

(** A ticker with a bid and an ask. *)
Definition quoted_ticker (c : Contract) (b a : Float) : Ticker :=
  {| contract := Some c; bid := RawVal b; ask := RawVal a; last := RawNaN;
     volume := RawNaN; time := None;
     tickByTicks := []; domBids := []; domAsks := [] |}.

Definition quoted_snapshot (sym : string) (b a : Float) : TopOfBookMessage :=
  {| tob_event_type := "top_of_book"; tob_symbol := sym;
     tob_bid := Some b; tob_ask := Some a; tob_last := None;
     tob_volume := None; tob_timestamp := None |}.

(** A session as in [example_run.py]: connect and define one contract. *)
Definition sample_connected : World :=
  ((connect ;; define_contracts ["PLTR"] "SMART" "USD")
     (new_World (new_MarketDataAdapter "127.0.0.1" 7497 1 10000))).2.

(** The same session after [subscribe_top_of_book("PLTR")]. *)
Definition sample_subscribed : World :=
  (subscribe_top_of_book "PLTR" sample_connected).2.

(** A connected adapter whose registry holds a ticker without contract. *)
Definition sample_orphan_entry : World :=
  new_World
    (set_ticker_subs [("PLTR", quiet_ticker None)]
       (set_ib (Some {| calls := [] |})
          (new_MarketDataAdapter "127.0.0.1" 7497 1 10000))).

(** A tick monitor that has sent the entries [old] and whose list was
    then replaced by [now]. *)
Definition sample_after_reset (old now : list Tick) : TickMonitor :=
  {| last_processed_count := length old;
     ticks := now;
     out_queue := {| maxsize := 10000; items := [] |};
     sent := (tick_messages "PLTR" "Last" old).1;
     ended := None |}.

(** A queue of capacity 1 that is full. *)
Definition sample_full_queue : Queue :=
  {| maxsize := 1;
     items := [MsgTopOfBook (unknown_snapshot "PLTR")] |}.

(** Two polls of the tick monitor. During the first sleep the feed
    appends the tick [first] and the queue stays full; during the second
    nothing happens. *)
Definition sample_sleeps (first : Tick) : list EnvTurn :=
  [ {| feed_reset := None; feed_appended := [first];
       queue_after := items sample_full_queue |};
    {| feed_reset := None; feed_appended := [];
       queue_after :=
         MsgTickByTick <$> (tick_messages "PLTR" "Last" [first]).1 |} ].

(** While the monitor is parked in the [put] of the first tick, the feed
    appends the ticks [more] and a consumer takes the queued message. *)
Definition sample_parked (more : list Tick) : list EnvTurn :=
  [ {| feed_reset := None; feed_appended := more; queue_after := [] |} ].

(** ** Further readings of the monitors *)

(** The snapshots that the polls of [reads] managed to build, oldest
    first. *)
Definition built (reads : list Ticker) : list TopOfBookMessage :=
  omap (λ ticker, match read_snapshot ticker with
                  | inr snapshot => Some snapshot
                  | inl _ => None
                  end) reads.

(** A list with every run of equal neighbours collapsed to its first
    element; [prev] is the element before the list, if any. *)
Fixpoint without_repeats_from (prev : option TopOfBookMessage)
    (l : list TopOfBookMessage) : list TopOfBookMessage :=
  match l with
  | [] => []
  | snapshot :: l' =>
      if decide (Some snapshot = prev) then without_repeats_from prev l'
      else snapshot :: without_repeats_from (Some snapshot) l'
  end.

Definition without_repeats (l : list TopOfBookMessage)
    : list TopOfBookMessage :=
  without_repeats_from None l.

(** No two neighbours of the list are equal. *)
Fixpoint adjacent_distinct {A} (l : list A) : Prop :=
  match l with
  | x :: l' =>
      match l' with
      | y :: _ => x ≠ y ∧ adjacent_distinct l'
      | [] => True
      end
  | [] => True
  end.

(** The fields of a ticker that reach the snapshot. *)
Definition quote_fields (ticker : Ticker)
    : option string * option Float * option Float * option Float *
      option Float * option DateTime :=
  (symbol <$> contract ticker, safe_float (bid ticker),
   safe_float (ask ticker), safe_float (last ticker),
   safe_float (volume ticker), time ticker).

(** What the tick monitor has sent is a selection, in order, of the
    entries of the list below the cursor; for a monitor that has ended,
    of the entries of the list. *)
Definition sent_sublist (symbol tickType : string) (st : TickMonitor)
    : Prop :=
  ∃ kept,
    inr <$> sent st = tick_message symbol tickType <$> kept ∧
    kept `sublist_of` match ended st with
                      | None => take (last_processed_count st) (ticks st)
                      | Some _ => ticks st
                      end ∧
    (last_processed_count st ≤ length (ticks st))%nat.

(** ** Sessions *)

(** The public operations of the adapter, with their arguments. *)
Inductive Operation :=
| Connect
| CleanupSubscriptions
| Disconnect
| DefineContracts (symbol_list : list string) (exchange currency : string)
| SubscribeTopOfBook (symbol : string)
| SubscribeTickByTick (symbol tickType : string)
| SubscribeOrderBook (symbol : string) (numRows : Z)
| SubscribeSmartDepth (symbol : string) (numRows : Z)
| RequestHistoricalData (symbol durationStr barSizeSetting whatToShow : string)
    (useRTH : bool)
| RequestFundamentalData (symbol reportType : string)
| RequestFundamentalRatios (symbol : string).

Definition call (op : Operation) : M unit :=
  match op with
  | Connect => connect
  | CleanupSubscriptions => cleanup_subscriptions
  | Disconnect => disconnect
  | DefineContracts symbol_list exchange currency =>
      define_contracts symbol_list exchange currency
  | SubscribeTopOfBook symbol => subscribe_top_of_book symbol
  | SubscribeTickByTick symbol tickType =>
      subscribe_tick_by_tick symbol tickType
  | SubscribeOrderBook symbol numRows => subscribe_order_book symbol numRows
  | SubscribeSmartDepth symbol numRows => subscribe_smart_depth symbol numRows
  | RequestHistoricalData symbol durationStr barSizeSetting whatToShow useRTH =>
      request_historical_data symbol durationStr barSizeSetting whatToShow
        useRTH
  | RequestFundamentalData symbol reportType =>
      request_fundamental_data symbol reportType
  | RequestFundamentalRatios symbol => request_fundamental_ratios symbol
  end.

(** The state after a caller made the calls [ops] one after the other,
    whatever each of them returned or raised. *)
Definition session (ops : list Operation) (w : World) : World :=
  foldl (λ w op, (call op w).2) w ops.

(** The request operations, which put their response on the queue. *)
Definition is_request (op : Operation) : bool :=
  match op with
  | RequestHistoricalData _ _ _ _ _
  | RequestFundamentalData _ _
  | RequestFundamentalRatios _ => true
  | _ => false
  end.

(** A statement whose effect on the adapter object stays within [R]. *)
Definition frames {A} (R : MarketDataAdapter → MarketDataAdapter → Prop)
    (m : M A) : Prop :=
  ∀ w, R (self w) (self (m w).2).

(** The queue is the same object with the same contents. *)
Definition same_queue (a a' : MarketDataAdapter) : Prop :=
  queue a' = queue a.

(** A bounded queue holds no more than its capacity. *)
Definition within_capacity (q : Queue) : Prop :=
  0 < maxsize q → qsize q ≤ maxsize q.

(** The queue kept its capacity and every message it held, in order, and
    did not grow beyond its capacity. *)
Definition queue_only_grows (a a' : MarketDataAdapter) : Prop :=
  maxsize (queue a') = maxsize (queue a) ∧
  items (queue a) `prefix_of` items (queue a') ∧
  (within_capacity (queue a) → within_capacity (queue a')).

(** Neither registry holds two entries under one key. *)
Definition keys_unique (a : MarketDataAdapter) : Prop :=
  NoDup (ticker_subs a).*1 ∧ NoDup (l2_depth_subs a).*1.

Definition keeps_keys_unique (a a' : MarketDataAdapter) : Prop :=
  keys_unique a → keys_unique a'.

(** Every symbol that had a contract still has one. *)
Definition keeps_symbols (a a' : MarketDataAdapter) : Prop :=
  ∀ sym, is_Some (contracts a !! sym) → is_Some (contracts a' !! sym).

(** The contracts are the same. *)
Definition same_contracts (a a' : MarketDataAdapter) : Prop :=
  contracts a' = contracts a.

Definition is_define_contracts (op : Operation) : bool :=
  match op with
  | DefineContracts _ _ _ => true
  | _ => false
  end.

(** The calls a sweep may make: [cancelMktData], and [cancelMktDepth]
    with [isSmartDepth=False]. *)
Definition is_sweep_cancel (call : FeedCall) : bool :=
  match call with
  | cancelMktData _ => true
  | cancelMktDepth _ isSmartDepth => negb isSmartDepth
  | _ => false
  end.

(** ** The event loop's side of the tasks *)

(** The one way in which a monitor task ends. The event loop runs the
    tick monitor of a subscription for some poll cycles, [sleeps] and
    [env] being what the feed and the other tasks do meanwhile, and the
    monitor raises: the task is done and no longer runs, and the queue is
    as the monitor left it. The body of the quote monitor is inside
    [try] / [except Exception] (lines 91-99), so no exception leaves its
    loop, and a [put] that parks leaves a task running: there is no step
    for either. *)
Inductive loop_step : World → World → Prop :=
| tick_monitor_raises (w : World) (before after : list Task)
    (symbol tickType : string) (ticker : Ticker) (sleeps env : list EnvTurn)
    (st : TickMonitor) (env' : list EnvTurn) (e : PyExc) :
    tasks w = before ++ monitor_ticks_task symbol tickType ticker :: after →
    monitor_ticks_from symbol tickType sleeps env
      (monitor_ticks_start (queue (self w)) (tickByTicks ticker))
      = Some (st, env') →
    ended st = Some e →
    loop_step w {| self := set_queue (out_queue st) (self w);
                   log := log w;
                   tasks := before ++ after;
                   updateEvent := updateEvent w |}.

(** A program run: calls of the adapter's operations, whatever each of
    them returns or raises, interleaved with steps of the event loop. *)
Inductive evolves : World → World → Prop :=
| evolves_done (w : World) : evolves w w
| evolves_call (w : World) (op : Operation) (w' : World) :
    evolves (call op w).2 w' → evolves w w'
| evolves_loop (w w1 w' : World) :
    loop_step w w1 → evolves w1 w' → evolves w w'.

(** A feed that accepts every request and whose tickers already hold the
    ticks [l]. *)
Definition feed_with_ticks (l : list Tick) : Feed :=
  {| answer_none := λ _ _, inr ();
     answer_ticker := λ _ call,
       match call with
       | reqMktData c | reqTickByTickData c _ | reqMktDepth c _ _ =>
           inr {| contract := Some c; bid := RawNaN; ask := RawNaN;
                  last := RawNaN; volume := RawNaN; time := None;
                  tickByTicks := l; domBids := []; domAsks := [] |}
       | _ => inr (quiet_ticker None)
       end;
     answer_bars := λ _ _, inr [];
     answer_data := λ _ _, inr "" |}.

(** A feed that accepts every request and answers a request for
    historical data with the bars [bars]. *)
Definition feed_with_bars (bars : list BarData) : Feed :=
  {| answer_none := λ _ _, inr ();
     answer_ticker := λ _ call,
       match call with
       | reqMktData c | reqTickByTickData c _ | reqMktDepth c _ _ =>
           inr (quiet_ticker (Some c))
       | _ => inr (quiet_ticker None)
       end;
     answer_bars := λ _ _, inr bars;
     answer_data := λ _ _, inr "" |}.

(** A bar with one price and a volume. *)
Definition flat_bar (d : DateTime) (price volume : Float) : BarData :=
  {| date := d; open := price; high := price; low := price; close := price;
     bar_data_volume := volume;
     bar_data_barCount := None; bar_data_average := None |}.

(** A depth ticker with the given ladders. *)
Definition ladder (c : Contract) (bids asks : list DOMLevel) : Ticker :=
  {| contract := Some c; bid := RawNaN; ask := RawNaN; last := RawNaN;
     volume := RawNaN; time := None;
     tickByTicks := []; domBids := bids; domAsks := asks |}.

(* ===================================================================== *)
(** * Part 4: properties *)
(* ===================================================================== *)

(** ** Quote monitor *)

Lemma monitor_from_app st reads1 reads2 :
  monitor_from st (reads1 ++ reads2) =
  monitor_from (monitor_from st reads1) reads2.
Proof. unfold monitor_from. apply foldl_app. Qed.

Lemma monitor_snoc reads ticker :
  monitor (reads ++ [ticker]) = monitor_iteration (monitor reads) ticker.
Proof. unfold monitor. by rewrite monitor_from_app. Qed.

Lemma monitor_iteration_changed st ticker snapshot :
  read_snapshot ticker = inr snapshot →
  prev_snapshot st ≠ Some snapshot →
  monitor_iteration st ticker =
    {| prev_snapshot := Some snapshot;
       emitted := emitted st ++ [snapshot];
       warnings := warnings st |}.
Proof.
  intros Hread Hne. unfold monitor_iteration. rewrite Hread.
  case_decide; [done | ]. by destruct Hne.
Qed.

Lemma monitor_iteration_unchanged st ticker snapshot :
  read_snapshot ticker = inr snapshot →
  prev_snapshot st = Some snapshot →
  monitor_iteration st ticker = st.
Proof.
  intros Hread Heq. unfold monitor_iteration. rewrite Hread.
  case_decide as Hd; [ | done]. by destruct Hd.
Qed.

Lemma monitor_iteration_failed st ticker :
  read_fails ticker = true →
  prev_snapshot (monitor_iteration st ticker) = prev_snapshot st ∧
  emitted (monitor_iteration st ticker) = emitted st.
Proof.
  unfold read_fails, monitor_iteration.
  destruct (read_snapshot ticker); [done | discriminate].
Qed.

(** The cache always holds the last snapshot that was put on the queue. *)
Lemma prev_snapshot_is_last_emitted_from st reads :
  prev_snapshot st = last_emitted st →
  prev_snapshot (monitor_from st reads) = last_emitted (monitor_from st reads).
Proof.
  revert st. induction reads as [ | ticker reads IH]; intros st Hst; [done | ].
  simpl. apply IH. unfold monitor_iteration.
  destruct (read_snapshot ticker) as [e | snapshot]; [done | ].
  case_decide; [ | done].
  unfold last_emitted. simpl. by rewrite last_snoc.
Qed.

Lemma prev_snapshot_is_last_emitted reads :
  prev_snapshot (monitor reads) = last_emitted (monitor reads).
Proof. by apply prev_snapshot_is_last_emitted_from. Qed.

(** Once the cache holds [snapshot], polls that build [snapshot] again
    change nothing. *)
Lemma monitor_from_repeated st run snapshot :
  prev_snapshot st = Some snapshot →
  Forall (λ ticker, read_snapshot ticker = inr snapshot) run →
  monitor_from st run = st.
Proof.
  intros Hprev Hrun. induction Hrun as [ | ticker run Hread _ IH]; [done | ].
  simpl. by rewrite (monitor_iteration_unchanged _ _ _ Hread Hprev).
Qed.

Lemma monitor_from_failed st failed :
  Forall (λ ticker, read_fails ticker = true) failed →
  prev_snapshot (monitor_from st failed) = prev_snapshot st ∧
  emitted (monitor_from st failed) = emitted st.
Proof.
  intros Hfailed. revert st.
  induction Hfailed as [ | ticker failed Hf _ IH]; intros st; [done | ].
  simpl. destruct (IH (monitor_iteration st ticker)) as [-> ->].
  by apply monitor_iteration_failed.
Qed.

Lemma emitted_monitor_from_prefix st reads :
  ∃ more, emitted (monitor_from st reads) = emitted st ++ more.
Proof.
  revert st. induction reads as [ | ticker reads IH]; intros st.
  - exists []. by rewrite app_nil_r.
  - simpl. destruct (IH (monitor_iteration st ticker)) as [more ->].
    unfold monitor_iteration.
    destruct (read_snapshot ticker) as [e | snapshot]; simpl.
    + by exists more.
    + case_decide; simpl.
      * exists (snapshot :: more). by rewrite <- app_assoc.
      * by exists more.
Qed.

(** C4. In the polling quote monitor, the snapshot built by a poll is put
    on the output queue if and only if it differs from the last snapshot
    that was put (field by field, unknown fields included); in
    particular a run of polls that build equal snapshots, coming after a
    different last emitted snapshot or none, puts exactly one. *)
Theorem quote_monitor_emits_iff_changed
    (reads : list Ticker) (ticker : Ticker) (snapshot : TopOfBookMessage)
    (run : list Ticker) :
  read_snapshot ticker = inr snapshot →
  Forall (λ ticker', read_snapshot ticker' = inr snapshot) run →
  prev_snapshot (monitor reads) = last_emitted (monitor reads) ∧
  (emitted (monitor (reads ++ [ticker])) = emitted (monitor reads) ++ [snapshot]
     ↔ last_emitted (monitor reads) ≠ Some snapshot) ∧
  (emitted (monitor (reads ++ [ticker])) = emitted (monitor reads)
     ↔ last_emitted (monitor reads) = Some snapshot) ∧
  (last_emitted (monitor reads) ≠ Some snapshot →
   emitted (monitor (reads ++ ticker :: run)) =
     emitted (monitor reads) ++ [snapshot]).
Proof.
  intros Hread Hrun.
  pose proof (prev_snapshot_is_last_emitted reads) as Hprev.
  assert (Hchanged : last_emitted (monitor reads) ≠ Some snapshot →
            monitor (reads ++ [ticker]) =
              {| prev_snapshot := Some snapshot;
                 emitted := emitted (monitor reads) ++ [snapshot];
                 warnings := warnings (monitor reads) |}).
  { intros Hne. rewrite monitor_snoc.
    apply monitor_iteration_changed; [done | by rewrite Hprev]. }
  assert (Hsame : last_emitted (monitor reads) = Some snapshot →
            monitor (reads ++ [ticker]) = monitor reads).
  { intros Heq. rewrite monitor_snoc.
    apply (monitor_iteration_unchanged _ _ snapshot); [done | by rewrite Hprev]. }
  split; [done | ]. split; [ | split].
  - split.
    + intros Hout Heq. rewrite (Hsame Heq) in Hout.
      apply (f_equal length) in Hout. rewrite length_app in Hout.
      simpl in Hout. lia.
    + intros Hne. by rewrite (Hchanged Hne).
  - split.
    + intros Hout. destruct (decide (last_emitted (monitor reads) = Some snapshot))
        as [ | Hne]; [done | ].
      rewrite (Hchanged Hne) in Hout. simpl in Hout.
      apply (f_equal length) in Hout. rewrite length_app in Hout.
      simpl in Hout. lia.
    + intros Heq. by rewrite (Hsame Heq).
  - intros Hne.
    replace (reads ++ ticker :: run) with ((reads ++ [ticker]) ++ run)
      by (by rewrite <- app_assoc).
    unfold monitor at 1. rewrite monitor_from_app.
    fold (monitor (reads ++ [ticker])). rewrite (Hchanged Hne).
    by rewrite monitor_from_repeated with (snapshot := snapshot).
Qed.

(** C10. The first snapshot that a quote monitor manages to build after
    it starts is put on the queue whatever its fields hold, the snapshot
    with every price unknown included: the cache starts empty. *)
Theorem first_snapshot_always_emitted
    (failed : list Ticker) (ticker : Ticker) (rest : list Ticker)
    (snapshot : TopOfBookMessage) (c : Contract) :
  Forall (λ ticker', read_fails ticker' = true) failed →
  read_snapshot ticker = inr snapshot →
  prev_snapshot monitor_start = None ∧
  emitted (monitor (failed ++ [ticker])) = [snapshot] ∧
  (∃ more, emitted (monitor (failed ++ ticker :: rest)) = snapshot :: more) ∧
  emitted (monitor (failed ++ [quiet_ticker (Some c)])) =
    [unknown_snapshot (symbol c)].
Proof.
  intros Hfailed Hread.
  destruct (monitor_from_failed monitor_start failed Hfailed) as [Hprev Hout].
  assert (Hfirst : ∀ ticker' snapshot',
            read_snapshot ticker' = inr snapshot' →
            monitor (failed ++ [ticker']) =
              {| prev_snapshot := Some snapshot';
                 emitted := [snapshot'];
                 warnings := warnings (monitor failed) |}).
  { intros ticker' snapshot' Hread'. rewrite monitor_snoc.
    unfold monitor.
    rewrite (monitor_iteration_changed _ _ _ Hread');
      [by rewrite Hout | by rewrite Hprev]. }
  split; [done | ]. split; [ | split].
  - by rewrite (Hfirst _ _ Hread).
  - replace (failed ++ ticker :: rest) with ((failed ++ [ticker]) ++ rest)
      by (by rewrite <- app_assoc).
    unfold monitor at 1. rewrite monitor_from_app.
    fold (monitor (failed ++ [ticker])).
    destruct (emitted_monitor_from_prefix (monitor (failed ++ [ticker])) rest)
      as [more ->].
    rewrite (Hfirst _ _ Hread). simpl. by exists more.
  - by rewrite (Hfirst _ (unknown_snapshot (symbol c))).
Qed.

(** ** Depth callback *)

Lemma depth_side_accepted symbol side (levels : list DOMLevel)
    (sizes : list Z) (i : nat) :
  Forall2 (λ level n, int_of_float (level_size level) = Some n) levels sizes →
  ∃ out,
    depth_side symbol side i levels = (out, None) ∧
    length out = length levels ∧
    md_operation <$> out = replicate (length levels) 1 ∧
    md_side <$> out = replicate (length levels) side ∧
    md_position <$> out = seq i (length levels) ∧
    md_price <$> out = level_price <$> levels ∧
    md_size <$> out = sizes ∧
    md_symbol <$> out = replicate (length levels) symbol.
Proof.
  intros Hsizes. revert i.
  induction Hsizes as [ | level n levels sizes Hn _ IH]; intros i.
  - by exists [].
  - destruct (IH (S i))
      as (out & Hout & Hlen & Hop & Hside & Hpos & Hprice & Hsize & Hsym).
    cbn [depth_side]. unfold depth_message. rewrite Hn, Hout.
    eexists. split; [done | ]. rewrite !fmap_cons.
    cbn [length replicate seq].
    by rewrite Hlen, Hop, Hside, Hpos, Hprice, Hsize, Hsym.
Qed.


Lemma depth_side_refused symbol side (good : list DOMLevel) (sizes : list Z)
    (bad : DOMLevel) (rest : list DOMLevel) (i : nat) :
  Forall2 (λ level n, int_of_float (level_size level) = Some n) good sizes →
  int_of_float (level_size bad) = None →
  ∃ out,
    depth_side symbol side i (good ++ bad :: rest)
      = (out, Some (ValidationError "size")) ∧
    depth_side symbol side i good = (out, None).
Proof.
  intros Hsizes Hbad. revert i.
  induction Hsizes as [ | level n levels sizes Hn _ IH]; intros i.
  - exists []. cbn [app depth_side]. unfold depth_message. by rewrite Hbad.
  - destruct (IH (S i)) as (out & Hout & Hgood).
    cbn [app depth_side]. unfold depth_message. rewrite Hn, Hout, Hgood.
    by eexists.
Qed.


(** ** Tick monitor *)

(** C2 as amended. When a poll finds the list strictly shorter than the
    cursor, the cycle does nothing: no message is put, the cursor keeps
    its value (it is not reset to 0) and the entries in the list are not
    emitted. *)
Theorem shrunk_list_is_ignored
    (symbol tickType : string) (env : list EnvTurn) (st : TickMonitor) :
  (length (ticks st) < last_processed_count st)%nat →
  monitor_ticks_cycle symbol tickType env st = Some (st, env).
Proof.
  intros Hlt. unfold monitor_ticks_cycle.
  rewrite bool_decide_eq_false_2 by lia.
  by rewrite andb_false_r.
Qed.

(** *** What the constructor gives over a list *)

Lemma tick_messages_app symbol tickType (l1 l2 : list Tick) :
  tick_messages symbol tickType (l1 ++ l2) =
  match (tick_messages symbol tickType l1).2 with
  | Some e => ((tick_messages symbol tickType l1).1, Some e)
  | None =>
      ((tick_messages symbol tickType l1).1 ++
       (tick_messages symbol tickType l2).1,
       (tick_messages symbol tickType l2).2)
  end.
Proof.
  induction l1 as [ | tick l1 IH]; cbn [app tick_messages].
  - by destruct (tick_messages symbol tickType l2).
  - destruct (tick_message symbol tickType tick) as [e | message]; [done | ].
    rewrite IH.
    destruct (tick_messages symbol tickType l1) as [messages [e | ]]; simpl;
      done.
Qed.

Lemma tick_messages_built symbol tickType (l : list Tick) messages :
  tick_messages symbol tickType l = (messages, None) ↔
  inr <$> messages = tick_message symbol tickType <$> l.
Proof.
  revert messages. induction l as [ | tick l IH]; intros messages;
    cbn [tick_messages]; rewrite ?fmap_cons.
  - split.
    + by intros [= <-].
    + destruct messages; [done | discriminate].
  - destruct (tick_message symbol tickType tick) as [e | message].
    + split; [done | ]. destruct messages; discriminate.
    + destruct (tick_messages symbol tickType l) as [built r] eqn:Hrest.
      split.
      * intros [= <- ->]. rewrite fmap_cons. f_equal. by apply IH.
      * destruct messages as [ | message' messages]; [discriminate | ].
        rewrite fmap_cons. intros [= -> Hrest'].
        apply IH in Hrest'. by injection Hrest' as -> ->.
Qed.

Lemma tick_messages_prefix symbol tickType (l : list Tick) :
  ∃ kept,
    kept `prefix_of` l ∧
    inr <$> (tick_messages symbol tickType l).1 =
      tick_message symbol tickType <$> kept ∧
    ((tick_messages symbol tickType l).2 = None → kept = l).
Proof.
  induction l as [ | tick l (kept & Hpre & Hbuilt & Hall)];
    cbn [tick_messages].
  - by exists [].
  - destruct (tick_message symbol tickType tick) as [e | message] eqn:Htick.
    + exists []. split; [apply prefix_nil | done].
    + destruct (tick_messages symbol tickType l) as [built r].
      cbn [fst snd] in *.
      exists (tick :: kept). split; [by apply prefix_cons | ].
      split; [by rewrite !fmap_cons, Htick, Hbuilt | ].
      intros Hr. by rewrite (Hall Hr).
Qed.

Lemma tick_messages_raised symbol tickType (l : list Tick) e :
  (tick_messages symbol tickType l).2 = Some e →
  ∃ tick, tick ∈ l ∧ tick_message symbol tickType tick = inl e.
Proof.
  induction l as [ | tick l IH]; cbn [tick_messages]; [done | ].
  destruct (tick_message symbol tickType tick) as [e' | message] eqn:Htick.
  - intros [= <-]. exists tick. split; [by left | done].
  - destruct (tick_messages symbol tickType l) as [built r]. simpl in *.
    intros Hr. destruct (IH Hr) as (tick' & Hin & Htick').
    exists tick'. split; [by right | done].
Qed.

(** *** Cycles in which the feed is quiet while a put is parked *)

Lemma await_put_quiet env st message st' env' :
  Forall quiet env →
  await_put env st message = Some (st', env') →
  Forall quiet env' ∧
  ticks st' = ticks st ∧
  last_processed_count st' = last_processed_count st ∧
  sent st' = sent st ++ [message] ∧
  ended st' = ended st ∧
  maxsize (out_queue st') = maxsize (out_queue st).
Proof.
  intros Henv. revert st.
  induction Henv as [ | turn env [Hreset Happ] Henv IH]; intros st; simpl.
  - destruct (full (out_queue st)); [done | ].
    intros [= <- <-]. by repeat split.
  - destruct (full (out_queue st)).
    + intros Hput. destruct (IH _ Hput) as (? & Hticks & ? & ? & ? & ?).
      repeat split; try done.
      rewrite Hticks. simpl. unfold feed_turn.
      by rewrite Hreset, Happ, app_nil_r.
    + intros [= <- <-]. repeat split; try done. by constructor.
Qed.

Lemma put_new_ticks_quiet symbol tickType new_ticks env st st' env' :
  Forall quiet env →
  put_new_ticks symbol tickType new_ticks env st = Some (st', env') →
  Forall quiet env' ∧
  ticks st' = ticks st ∧
  last_processed_count st' = last_processed_count st ∧
  sent st' = sent st ++ (tick_messages symbol tickType new_ticks).1 ∧
  ended st' = match (tick_messages symbol tickType new_ticks).2 with
              | Some e => Some e
              | None => ended st
              end ∧
  maxsize (out_queue st') = maxsize (out_queue st).
Proof.
  revert env st. induction new_ticks as [ | tick rest IH]; intros env st Henv;
    cbn [put_new_ticks tick_messages].
  - intros [= <- <-]. by rewrite app_nil_r.
  - destruct (tick_message symbol tickType tick) as [e | message].
    + intros [= <- <-]. simpl. by rewrite app_nil_r.
    + destruct (await_put env st message) as [[st1 env1] | ] eqn:Hput;
        [ | done].
      intros Hrest.
      destruct (await_put_quiet _ _ _ _ _ Henv Hput)
        as (Henv1 & Hticks1 & Hcur1 & Hsent1 & Hend1 & Hmax1).
      destruct (IH _ _ Henv1 Hrest)
        as (Henv' & Hticks' & Hcur' & Hsent' & Hend' & Hmax').
      destruct (tick_messages symbol tickType rest) as [built r]. simpl in *.
      repeat split; try done; try congruence.
      * rewrite Hsent', Hsent1. by rewrite <- app_assoc.
      * by rewrite Hend', Hend1.
Qed.

Lemma wake_grows_only symbol tickType turn st :
  grows_only turn →
  ended st = None →
  sent_up_to_cursor symbol tickType st →
  sent_up_to_cursor symbol tickType (wake turn st).
Proof.
  unfold grows_only, sent_up_to_cursor, wake, feed_turn. simpl.
  intros -> -> [Hle Hsent]. rewrite length_app. split; [lia | ].
  by rewrite take_app_le.
Qed.

Lemma monitor_ticks_cycle_quiet symbol tickType env st st' env' :
  Forall quiet env →
  ended st = None →
  sent_up_to_cursor symbol tickType st →
  monitor_ticks_cycle symbol tickType env st = Some (st', env') →
  Forall quiet env' ∧
  ticks st' = ticks st ∧
  sent_up_to_cursor symbol tickType st' ∧
  (ended st' = None → last_processed_count st' = length (ticks st')).
Proof.
  intros Henv Hrun Hinv. pose proof Hinv as [Hle Hsent].
  rewrite Hrun in Hsent. unfold monitor_ticks_cycle.
  destruct (truthy (ticks st) &&
            bool_decide (last_processed_count st < length (ticks st))%nat)
    eqn:Hguard.
  - destruct (put_new_ticks symbol tickType
                (drop (last_processed_count st) (ticks st)) env st)
      as [[st1 env1] | ] eqn:Hput; [ | done].
    destruct (put_new_ticks_quiet _ _ _ _ _ _ _ Henv Hput)
      as (Henv1 & Hticks1 & Hcur1 & Hsent1 & Hend1 & _).
    pose proof (tick_messages_app symbol tickType
                  (take (last_processed_count st) (ticks st))
                  (drop (last_processed_count st) (ticks st))) as Happ.
    rewrite take_drop, Hsent in Happ. simpl in Happ.
    destruct (tick_messages symbol tickType
                (drop (last_processed_count st) (ticks st)))
      as [built [e | ]]; simpl in *.
    + rewrite Hend1. intros [= <- <-].
      split; [done | ]. split; [done | ]. split; [ | by rewrite Hend1].
      unfold sent_up_to_cursor. rewrite Hend1, Hticks1, Hcur1, Hsent1.
      by split.
    + rewrite Hend1, Hrun. intros [= <- <-].
      split; [done | ]. split; [done | ]. split; [ | done].
      unfold sent_up_to_cursor. simpl. split; [done | ].
      by rewrite firstn_all, Hticks1, Hsent1.
  - intros [= <- <-]. split; [done | ]. split; [done | ]. split; [done | ].
    intros _. apply andb_false_iff in Hguard as [Hempty | Hshort].
    + destruct (ticks st); [simpl in *; lia | done].
    + apply bool_decide_eq_false in Hshort. lia.
Qed.

Lemma monitor_ticks_from_ended symbol tickType sleeps env st e :
  ended st = Some e →
  monitor_ticks_from symbol tickType sleeps env st = Some (st, env).
Proof. intros Hend. destruct sleeps; simpl; by rewrite ?Hend. Qed.

(** No gap and no duplicate, under the condition that makes a cycle
    atomic: while the monitor is parked in a [put] the feed appends
    nothing. Over a list that only grows, when the run of poll cycles
    completes, the monitor has sent the messages of the entries of the
    list, one each and in list order, up to the first entry whose message
    cannot be built; when there is no such entry the cursor is the list
    length. *)
Lemma monitor_ticks_no_gap_when_puts_are_quiet
    symbol tickType sleeps env st st' env' :
  Forall grows_only sleeps →
  Forall quiet env →
  sent_up_to_cursor symbol tickType st →
  monitor_ticks_from symbol tickType sleeps env st = Some (st', env') →
  sent_up_to_cursor symbol tickType st' ∧
  (sleeps ≠ [] → ended st' = None →
   last_processed_count st' = length (ticks st') ∧
   inr <$> sent st' = tick_message symbol tickType <$> ticks st').
Proof.
  intros Hsleeps. revert env st.
  induction Hsleeps as [ | s sleeps Hs Hsleeps IH]; intros env st Henv Hinv.
  - simpl. intros [= <- <-]. by split.
  - cbn [monitor_ticks_from].
    destruct (ended st) as [e | ] eqn:Hrun.
    { intros [= <- <-]. split; [done | ]. intros _ Hnone. congruence. }
    destruct (monitor_ticks_cycle symbol tickType env (wake s st))
      as [[st1 env1] | ] eqn:Hcycle; [ | done].
    intros Hrest.
    pose proof (wake_grows_only _ _ _ _ Hs Hrun Hinv) as Hwoken.
    destruct (monitor_ticks_cycle_quiet symbol tickType env (wake s st)
                st1 env1 Henv Hrun Hwoken Hcycle)
      as (Henv1 & _ & Hinv1 & Hcur1).
    destruct (IH _ _ Henv1 Hinv1 Hrest) as [Hinv' Hfinal].
    split; [done | ]. intros _ Hnone.
    assert (Hcur : last_processed_count st' = length (ticks st')).
    { destruct sleeps as [ | s2 sleeps2].
      - simpl in Hrest. injection Hrest as <- <-. by apply Hcur1.
      - by apply Hfinal. }
    split; [done | ].
    destruct Hinv' as [_ Hsent']. rewrite Hnone, Hcur, firstn_all in Hsent'.
    by apply tick_messages_built.
Qed.

(** ** Adapter: unknown symbols *)

(** C6. For a symbol without a registered contract, each of the four
    subscribe operations and the three request operations raises
    [ValueError] (the adapter's unknown symbol error) as its first and
    only effect: the call returns the exception with the state (contracts,
    registries, queue, connection, tasks, log) exactly as it was. *)
Theorem unknown_symbol_fails_first (symbol : string) (w : World) :
  contracts (self w) !! symbol = None →
  subscribe_top_of_book symbol w =
    (Raise (ValueError ("Symbol " +:+ symbol +:+
              " not defined. Call define_contracts first.")), w) ∧
  (∀ tickType, subscribe_tick_by_tick symbol tickType w =
     (Raise (ValueError ("Symbol " +:+ symbol +:+ " not defined.")), w)) ∧
  (∀ numRows, subscribe_order_book symbol numRows w =
     (Raise (ValueError ("Symbol " +:+ symbol +:+ " not defined.")), w)) ∧
  (∀ numRows, subscribe_smart_depth symbol numRows w =
     (Raise (ValueError ("Symbol " +:+ symbol +:+ " not defined.")), w)) ∧
  (∀ durationStr barSizeSetting whatToShow useRTH,
     request_historical_data symbol durationStr barSizeSetting whatToShow
       useRTH w =
     (Raise (ValueError ("Symbol " +:+ symbol +:+ " not defined.")), w)) ∧
  (∀ reportType, request_fundamental_data symbol reportType w =
     (Raise (ValueError ("Symbol " +:+ symbol +:+ " not defined.")), w)) ∧
  request_fundamental_ratios symbol w =
    (Raise (ValueError ("Symbol " +:+ symbol +:+ " not defined.")), w).
Proof.
  intros Hnone.
  unfold subscribe_top_of_book, subscribe_tick_by_tick, subscribe_order_book,
    subscribe_smart_depth, request_historical_data, request_fundamental_data,
    request_fundamental_ratios.
  rewrite Hnone. by repeat split.
Qed.

(** ** Adapter: the cancellation sweep *)

Lemma called_nil w : called [] [] w = w.
Proof.
  destruct w as [a lg ts ev]. destruct a as [h p cid conn cs q subs depth].
  unfold called, set_ib. simpl.
  destruct conn as [[history] | ]; simpl; by rewrite !app_nil_r.
Qed.

Lemma called_called cs1 lg1 cs2 lg2 w :
  called cs2 lg2 (called cs1 lg1 w) = called (cs1 ++ cs2) (lg1 ++ lg2) w.
Proof.
  unfold called, set_ib. simpl.
  destruct (ib (self w)) as [conn | ]; simpl; by rewrite !app_assoc.
Qed.

(** One turn of a sweep loop returns normally whatever the feed answers;
    it makes the cancel request when the ticker has a contract. *)
Lemma cancel_ticker_sub_spec entry w :
  ∃ lg, cancel_ticker_sub entry w =
        (Ok (), called (cancel_request cancelMktData entry) lg w).
Proof.
  destruct entry as [sym ticker].
  unfold cancel_ticker_sub, try_except, cancel_request. simpl.
  destruct (contract ticker) as [c | ].
  - unfold bind, ib_call, logger_info, logger_warning, update, called.
    destruct w as [a lg ts ev]. simpl.
    destruct (ib a) as [conn | ] eqn:Hib; simpl.
    + destruct (answer_none feed (calls conn) (cancelMktData c)); simpl;
        rewrite ?Hib; by eexists.
    + eexists. do 2 f_equal. destruct a; simpl in *. by subst.
  - exists []. unfold ret. by rewrite called_nil.
Qed.

Lemma cancel_depth_sub_spec entry w :
  ∃ lg, cancel_depth_sub entry w =
        (Ok (), called (cancel_request (λ c, cancelMktDepth c false) entry)
                  lg w).
Proof.
  destruct entry as [sym ticker].
  unfold cancel_depth_sub, try_except, cancel_request. simpl.
  destruct (contract ticker) as [c | ].
  - unfold bind, ib_call, logger_info, logger_warning, update, called.
    destruct w as [a lg ts ev]. simpl.
    destruct (ib a) as [conn | ] eqn:Hib; simpl.
    + destruct (answer_none feed (calls conn) (cancelMktDepth c false)); simpl;
        rewrite ?Hib; by eexists.
    + eexists. do 2 f_equal. destruct a; simpl in *. by subst.
  - exists []. unfold ret. by rewrite called_nil.
Qed.

(** A loop whose every turn returns runs over the whole list. *)
Lemma for_each_called {A} (body : A → M unit) (request : A → list FeedCall)
    (l : list A) :
  (∀ x w, ∃ lg, body x w = (Ok (), called (request x) lg w)) →
  ∀ w, ∃ lg, for_each l body w = (Ok (), called (l ≫= request) lg w).
Proof.
  intros Hbody. induction l as [ | x l IH]; intros w.
  - exists []. simpl. unfold ret. by rewrite called_nil.
  - simpl. unfold bind at 1.
    destruct (Hbody x w) as [lg1 ->].
    destruct (IH (called (request x) lg1 w)) as [lg2 ->].
    exists (lg1 ++ lg2). by rewrite called_called.
Qed.

Lemma cleanup_subscriptions_spec w :
  ∃ lg, cleanup_subscriptions w =
        (Ok (), cleared (called (sweep_calls (self w)) lg w)).
Proof.
  unfold cleanup_subscriptions, sweep_calls.
  destruct (for_each_called cancel_ticker_sub (cancel_request cancelMktData)
              (ticker_subs (self w)) cancel_ticker_sub_spec w) as [lg1 H1].
  destruct (for_each_called cancel_depth_sub
              (cancel_request (λ c, cancelMktDepth c false))
              (l2_depth_subs (self w)) cancel_depth_sub_spec
              (called (ticker_subs (self w) ≫= cancel_request cancelMktData)
                 lg1 w)) as [lg2 H2].
  exists (lg1 ++ lg2).
  unfold bind at 1. rewrite H1.
  unfold bind at 1. simpl in *. rewrite H2.
  by rewrite called_called.
Qed.

(** C9 as amended. For every state and every behaviour of the feed, the
    sweep visits every entry of both registries, makes a cancel request
    for each entry whose ticker carries a contract (an entry without one
    is passed over by the guard), is not stopped by a request that
    raises, returns normally, and leaves both registries empty; the
    monitor tasks, the callbacks, the contracts and the queue are as
    before. *)
Theorem cleanup_sweeps_every_entry_with_contract (w : World) :
  let w' := (cleanup_subscriptions w).2 in
  (cleanup_subscriptions w).1 = Ok () ∧
  ticker_subs (self w') = [] ∧
  l2_depth_subs (self w') = [] ∧
  calls_of w' = match ib (self w) with
                | Some conn => calls conn ++ sweep_calls (self w)
                | None => []
                end ∧
  tasks w' = tasks w ∧
  updateEvent w' = updateEvent w ∧
  contracts (self w') = contracts (self w) ∧
  queue (self w') = queue (self w).
Proof.
  destruct (cleanup_subscriptions_spec w) as [lg ->]. simpl.
  unfold calls_of. simpl. by destruct (ib (self w)).
Qed.

Lemma disconnect_connected_spec w conn :
  ib (self w) = Some conn →
  ∃ lg,
    disconnect w =
      let w1 := called [ib_disconnect] []
                  (cleared (called (sweep_calls (self w)) lg w)) in
      match answer_none feed (calls conn ++ sweep_calls (self w))
              ib_disconnect with
      | inl e => (Raise e, w1)
      | inr _ => (Ok (), called [] [info "Disconnected."] w1)
      end.
Proof.
  intros Hib. unfold disconnect. rewrite Hib.
  destruct (cleanup_subscriptions_spec w) as [lg Hsweep]. exists lg.
  unfold bind at 1. rewrite Hsweep.
  unfold bind, ib_call, logger_info, update, called. simpl. rewrite Hib.
  simpl.
  destruct (answer_none feed (calls conn ++ sweep_calls (self w))
              ib_disconnect); simpl; by rewrite ?app_nil_r.
Qed.

(** C1 as amended. On a connected adapter [disconnect] first runs the
    sweep: it makes a cancel request for every registry entry whose
    ticker carries a contract and empties both registries, and all these
    requests come before the connection's own disconnect call, which is
    the last call made. The monitor tasks and the depth callbacks are not
    touched: they are the same after [disconnect] as before. On an adapter
    that never connected [disconnect] does nothing. *)
Theorem disconnect_sweeps_before_teardown (w : World) :
  let w' := (disconnect w).2 in
  match ib (self w) with
  | Some conn =>
      ticker_subs (self w') = [] ∧
      l2_depth_subs (self w') = [] ∧
      calls_of w' = calls conn ++ sweep_calls (self w) ++ [ib_disconnect] ∧
      tasks w' = tasks w ∧
      updateEvent w' = updateEvent w ∧
      (disconnect w).1 =
        match answer_none feed (calls conn ++ sweep_calls (self w))
                ib_disconnect with
        | inl e => Raise e
        | inr _ => Ok ()
        end
  | None => disconnect w = (Ok (), w)
  end.
Proof.
  destruct (ib (self w)) as [conn | ] eqn:Hib.
  - destruct (disconnect_connected_spec w conn Hib) as [lg ->].
    unfold calls_of.
    destruct (answer_none feed (calls conn ++ sweep_calls (self w))
                ib_disconnect); simpl; rewrite Hib; simpl;
      by rewrite <- !app_assoc.
  - unfold disconnect. by rewrite Hib.
Qed.

(** ** Adapter: smart depth *)

(** C7 as amended. For a symbol with a registered contract on a connected
    adapter, when the feed refuses the smart depth request,
    [subscribe_smart_depth] logs a warning and goes on as
    [subscribe_order_book] for the same symbol and number of rows. The
    caller sees success exactly when the feed accepts that standard depth
    request (the ticker is then registered under the symbol and the depth
    callback is attached); when the feed refuses it too, its exception
    reaches the caller. *)
Theorem smart_depth_falls_back_to_order_book
    (symbol : string) (numRows : Z) (w : World)
    (c : Contract) (conn : IB) (e : PyExc) :
  contracts (self w) !! symbol = Some c →
  ib (self w) = Some conn →
  answer_ticker feed (calls conn) (reqMktDepth c numRows true) = inl e →
  let w1 := called [reqMktDepth c numRows true]
              [warning ("Smart depth not available for " +:+ symbol)] w in
  let r := subscribe_smart_depth symbol numRows w in
  r = subscribe_order_book symbol numRows w1 ∧
  log w1 = log w ++ [warning ("Smart depth not available for " +:+ symbol)] ∧
  match answer_ticker feed (calls conn ++ [reqMktDepth c numRows true])
          (reqMktDepth c numRows false) with
  | inr ticker =>
      r.1 = Ok () ∧
      l2_depth_subs (self r.2) = dict_set symbol ticker (l2_depth_subs (self w)) ∧
      updateEvent r.2 = updateEvent w ++ [(ticker, on_depth_update_for symbol)] ∧
      calls_of r.2 =
        calls conn ++ [reqMktDepth c numRows true; reqMktDepth c numRows false]
  | inl e' =>
      r.1 = Raise e' ∧
      l2_depth_subs (self r.2) = l2_depth_subs (self w) ∧
      updateEvent r.2 = updateEvent w
  end.
Proof.
  intros Hc Hib Hsmart. simpl.
  assert (Hfall : subscribe_smart_depth symbol numRows w =
            subscribe_order_book symbol numRows
              (called [reqMktDepth c numRows true]
                 [warning ("Smart depth not available for " +:+ symbol)] w)).
  { unfold subscribe_smart_depth. rewrite Hc.
    unfold try_except, bind at 1, ib_call. rewrite Hib, Hsmart.
    unfold bind, logger_warning, update, called. simpl. by rewrite Hib. }
  split; [done | ]. split; [done | ].
  rewrite Hfall. unfold subscribe_order_book, called. simpl. rewrite Hc.
  unfold bind, ib_call, calls_of. simpl. rewrite Hib. simpl.
  destruct (answer_ticker feed (calls conn ++ [reqMktDepth c numRows true])
              (reqMktDepth c numRows false)) as [e' | ticker]; simpl.
  - done.
  - by rewrite <- app_assoc.
Qed.

(** ** Adapter: subscribing twice *)

Lemma dict_set_twice {V} k (v1 v2 : V) d :
  dict_set k v2 (dict_set k v1 d) = dict_set k v2 d.
Proof.
  induction d as [ | [k' v'] d IH]; simpl.
  - by rewrite decide_True.
  - destruct (decide (k' = k)) as [-> | Hne]; simpl.
    + by rewrite decide_True.
    + rewrite decide_False by done. by rewrite IH.
Qed.

Lemma entries_for_absent k (d : list (string * Ticker)) :
  k ∉ d.*1 → entries_for k d = [].
Proof.
  unfold entries_for. induction d as [ | [k' v'] d IH]; [done | ].
  simpl. intros Hnot. apply not_elem_of_cons in Hnot as [Hne Hnot].
  rewrite filter_cons_False by (simpl; congruence). by apply IH.
Qed.

Lemma entries_for_dict_set k v (d : list (string * Ticker)) :
  NoDup d.*1 → entries_for k (dict_set k v d) = [(k, v)].
Proof.
  unfold entries_for. induction d as [ | [k' v'] d IH]; simpl.
  - by rewrite filter_cons_True.
  - intros Hnodup. apply NoDup_cons in Hnodup as [Hnot Hnodup].
    destruct (decide (k' = k)) as [-> | Hne].
    + rewrite filter_cons_True by done. f_equal.
      by apply (entries_for_absent k d).
    + rewrite filter_cons_False by done. by apply IH.
Qed.

Lemma dict_set_keys_NoDup {V} k (v : V) d :
  NoDup d.*1 → NoDup (dict_set k v d).*1.
Proof.
  induction d as [ | [k' v'] d IH]; simpl.
  - intros _. apply NoDup_singleton.
  - intros Hnodup. apply NoDup_cons in Hnodup as [Hnot Hnodup].
    destruct (decide (k' = k)) as [-> | Hne]; simpl.
    + by apply NoDup_cons.
    + apply NoDup_cons. split; [ | by apply IH].
      intros Hin. apply Hnot. clear -Hin Hne.
      induction d as [ | [k2 v2] d IHd]; simpl in *.
      * apply list_elem_of_singleton in Hin. congruence.
      * destruct (decide (k2 = k)) as [-> | Hne2]; simpl in *.
        -- apply elem_of_cons in Hin as [ | Hin]; [congruence | ].
           by apply elem_of_cons; right.
        -- apply elem_of_cons in Hin as [-> | Hin]; [by left | ].
           apply elem_of_cons; right. by apply IHd.
Qed.

(** What one accepted quote subscription does to the state. *)
Lemma subscribe_top_of_book_accepted symbol w c conn ticker :
  contracts (self w) !! symbol = Some c →
  ib (self w) = Some conn →
  answer_ticker feed (calls conn) (reqMktData c) = inr ticker →
  subscribe_top_of_book symbol w =
    (Ok (),
     {| self := set_ticker_subs
                  (dict_set symbol ticker (ticker_subs (self w)))
                  (set_ib (Some {| calls := calls conn ++ [reqMktData c] |})
                     (self w));
        log := log w ++ [info ("Subscribed to top-of-book for " +:+ symbol)];
        tasks := tasks w ++ [monitor_task symbol ticker];
        updateEvent := updateEvent w |}).
Proof.
  intros Hc Hib Hans. unfold subscribe_top_of_book. rewrite Hc.
  unfold bind, ib_call. by rewrite Hib, Hans.
Qed.

(** C8 as amended. For a registered symbol on a connected adapter whose
    feed accepts both requests, subscribing to quotes twice leaves exactly
    one registry entry for the symbol, holding the ticker of the second
    call. The first subscription is not released: two requests and no
    cancel request were sent, and the monitor task of the first call is
    still running next to the one of the second. *)
Theorem resubscribe_overwrites_entry_keeps_first_monitor
    (symbol : string) (w : World) (c : Contract) (conn : IB)
    (ticker1 ticker2 : Ticker) :
  contracts (self w) !! symbol = Some c →
  ib (self w) = Some conn →
  answer_ticker feed (calls conn) (reqMktData c) = inr ticker1 →
  answer_ticker feed (calls conn ++ [reqMktData c]) (reqMktData c)
    = inr ticker2 →
  NoDup (ticker_subs (self w)).*1 →
  let w1 := (subscribe_top_of_book symbol w).2 in
  let r := subscribe_top_of_book symbol w1 in
  r.1 = Ok () ∧
  entries_for symbol (ticker_subs (self r.2)) = [(symbol, ticker2)] ∧
  tasks r.2 =
    tasks w ++ [monitor_task symbol ticker1; monitor_task symbol ticker2] ∧
  calls_of r.2 = calls conn ++ [reqMktData c; reqMktData c] ∧
  length (quote_monitors symbol (tasks r.2)) =
    S (length (quote_monitors symbol (tasks w1))).
Proof.
  intros Hc Hib Hans1 Hans2 Hnodup. simpl.
  rewrite (subscribe_top_of_book_accepted _ _ _ _ _ Hc Hib Hans1). simpl.
  erewrite subscribe_top_of_book_accepted; [ | done | done | done ].
  simpl. unfold calls_of. simpl.
  rewrite dict_set_twice, entries_for_dict_set by done.
  rewrite <- !app_assoc. simpl.
  repeat split; try done.
  unfold quote_monitors.
  replace (tasks w ++ [monitor_task symbol ticker1; monitor_task symbol ticker2])
    with ((tasks w ++ [monitor_task symbol ticker1]) ++
          [monitor_task symbol ticker2]) by (by rewrite <- app_assoc).
  rewrite (filter_app _ (tasks w ++ [monitor_task symbol ticker1])).
  rewrite length_app. simpl.
  rewrite filter_cons_True by (simpl; by rewrite bool_decide_eq_true_2).
  simpl. lia.
Qed.

(** ** Adapter: no operation stops a task *)

Lemma keeps_tasks_ret {A} (a : A) : keeps_tasks (ret a).
Proof. by intros w. Qed.

Lemma keeps_tasks_bind {A B} (m : M A) (k : A → M B) :
  keeps_tasks m → (∀ a, keeps_tasks (k a)) → keeps_tasks (bind m k).
Proof.
  intros Hm Hk w. unfold bind. specialize (Hm w).
  destruct (m w) as [[a | e | ] w1]; simpl in *; [ | done | done].
  etrans; [exact Hm | apply Hk].
Qed.

Lemma keeps_tasks_try_except {A} (body : M A) (handler : PyExc → M A) :
  keeps_tasks body → (∀ e, keeps_tasks (handler e)) →
  keeps_tasks (try_except body handler).
Proof.
  intros Hbody Hhandler w. unfold try_except. specialize (Hbody w).
  destruct (body w) as [[a | e | ] w1]; simpl in *; [done | | done].
  etrans; [exact Hbody | apply Hhandler].
Qed.

Lemma keeps_tasks_for_each {A} (l : list A) (body : A → M unit) :
  (∀ x, keeps_tasks (body x)) → keeps_tasks (for_each l body).
Proof.
  intros Hbody. induction l as [ | x l IH]; simpl.
  - apply keeps_tasks_ret.
  - by apply keeps_tasks_bind.
Qed.

Lemma keeps_tasks_reading {A} (m : World → M A) :
  (∀ w, keeps_tasks (m w)) → keeps_tasks (λ w, m w w).
Proof. intros Hm w. apply Hm. Qed.

Lemma keeps_tasks_set_self f : keeps_tasks (set_self f).
Proof. by intros w. Qed.

Lemma keeps_tasks_logger_info msg : keeps_tasks (logger_info msg).
Proof. by intros w. Qed.

Lemma keeps_tasks_logger_warning msg : keeps_tasks (logger_warning msg).
Proof. by intros w. Qed.

Lemma keeps_tasks_create_task t : keeps_tasks (create_task t).
Proof. intros w. simpl. by apply prefix_app_r. Qed.

Lemma keeps_tasks_add_callback ticker cb : keeps_tasks (add_callback ticker cb).
Proof. by intros w. Qed.

Lemma keeps_tasks_raise {A} e : keeps_tasks (raise (A := A) e).
Proof. by intros w. Qed.

Lemma keeps_tasks_ib_call {A} c (answer : list FeedCall → FeedCall → PyExc + A) :
  keeps_tasks (ib_call c answer).
Proof.
  intros w. unfold ib_call. destruct (ib (self w)) as [conn | ]; [ | done].
  by destruct (answer (calls conn) c).
Qed.

Lemma keeps_tasks_queue_put item : keeps_tasks (queue_put item).
Proof. intros w. unfold queue_put. by destruct (full (queue (self w))). Qed.

Create HintDb tasks discriminated.

#[local] Hint Resolve keeps_tasks_ret keeps_tasks_set_self
  keeps_tasks_logger_info keeps_tasks_logger_warning keeps_tasks_create_task
  keeps_tasks_add_callback keeps_tasks_raise keeps_tasks_ib_call
  keeps_tasks_queue_put : tasks.

(** Walks through a statement built from [bind], [try_except] and
    [for_each], closing the leaves with the lemmas above. *)
Ltac keeps_tasks_step :=
  cbv beta;
  lazymatch goal with
  | |- keeps_tasks (λ w, ?m w) => change (keeps_tasks m)
  | |- keeps_tasks (bind _ _) => apply keeps_tasks_bind; [ | intros ? ]
  | |- keeps_tasks (try_except _ _) =>
      apply keeps_tasks_try_except; [ | intros ? ]
  | |- keeps_tasks (for_each _ _) => apply keeps_tasks_for_each; intros ?
  | |- keeps_tasks (match ?r with inl _ => _ | inr _ => _ end) => destruct r
  | |- keeps_tasks _ => solve [auto with tasks]
  end.

Ltac keeps_tasks_walk := repeat keeps_tasks_step.

(** A statement that starts by looking up the symbol's contract. *)
Lemma keeps_tasks_with_contract {A} symbol (e : PyExc) (k : Contract → M A) :
  (∀ c, keeps_tasks (k c)) →
  keeps_tasks (λ w, match contracts (self w) !! symbol with
                    | None => (Raise e, w)
                    | Some c => k c w
                    end).
Proof.
  intros Hk w. destruct (contracts (self w) !! symbol) as [c | ]; [ | done].
  apply Hk.
Qed.

Lemma cleanup_subscriptions_keeps_tasks : keeps_tasks cleanup_subscriptions.
Proof.
  unfold cleanup_subscriptions.
  apply keeps_tasks_bind; [ | intros _; apply keeps_tasks_bind ];
    [ | | intros _; keeps_tasks_walk ].
  - apply (keeps_tasks_reading
             (λ w, for_each (ticker_subs (self w)) cancel_ticker_sub)).
    intros w. apply keeps_tasks_for_each. intros [sym ticker].
    unfold cancel_ticker_sub. destruct (contract ticker); keeps_tasks_walk.
  - apply (keeps_tasks_reading
             (λ w, for_each (l2_depth_subs (self w)) cancel_depth_sub)).
    intros w. apply keeps_tasks_for_each. intros [sym ticker].
    unfold cancel_depth_sub. destruct (contract ticker); keeps_tasks_walk.
Qed.

Lemma subscribe_order_book_keeps_tasks symbol numRows :
  keeps_tasks (subscribe_order_book symbol numRows).
Proof.
  unfold subscribe_order_book. apply keeps_tasks_with_contract.
  intros c. keeps_tasks_walk.
Qed.

(** No operation of the adapter stops a monitor task: the tasks running
    before a call are all still running after it. The adapter has no way
    to end a monitor. *)
Lemma no_operation_stops_a_task :
  keeps_tasks connect ∧
  keeps_tasks cleanup_subscriptions ∧
  keeps_tasks disconnect ∧
  (∀ symbol_list exchange currency,
     keeps_tasks (define_contracts symbol_list exchange currency)) ∧
  (∀ symbol, keeps_tasks (subscribe_top_of_book symbol)) ∧
  (∀ symbol tickType, keeps_tasks (subscribe_tick_by_tick symbol tickType)) ∧
  (∀ symbol numRows, keeps_tasks (subscribe_order_book symbol numRows)) ∧
  (∀ symbol numRows, keeps_tasks (subscribe_smart_depth symbol numRows)) ∧
  (∀ symbol durationStr barSizeSetting whatToShow useRTH,
     keeps_tasks (request_historical_data symbol durationStr barSizeSetting
                    whatToShow useRTH)) ∧
  (∀ symbol reportType,
     keeps_tasks (request_fundamental_data symbol reportType)) ∧
  (∀ symbol, keeps_tasks (request_fundamental_ratios symbol)).
Proof.
  split; [ | split; [ | split; [ | split; [ | split; [ | split; [ | split;
    [ | split; [ | split; [ | split ]]]]]]]]].
  - unfold connect.
    apply keeps_tasks_bind; [keeps_tasks_walk | intros _].
    apply keeps_tasks_bind; [keeps_tasks_walk | intros _].
    apply keeps_tasks_bind; [ | intros _; keeps_tasks_walk].
    apply (keeps_tasks_reading
             (λ w, ib_call (connectAsync (host (self w)) (port (self w))
                              (client_id (self w))) (answer_none feed))).
    intros w. keeps_tasks_walk.
  - apply cleanup_subscriptions_keeps_tasks.
  - intros w. unfold disconnect. destruct (ib (self w)); [ | done].
    apply keeps_tasks_bind; [apply cleanup_subscriptions_keeps_tasks | ].
    intros _. keeps_tasks_walk.
  - intros symbol_list exchange currency. unfold define_contracts.
    keeps_tasks_walk.
  - intros symbol. unfold subscribe_top_of_book.
    apply keeps_tasks_with_contract. intros c. keeps_tasks_walk.
  - intros symbol tickType. unfold subscribe_tick_by_tick.
    apply keeps_tasks_with_contract. intros c. keeps_tasks_walk.
  - apply subscribe_order_book_keeps_tasks.
  - intros symbol numRows. unfold subscribe_smart_depth.
    apply keeps_tasks_with_contract. intros c.
    apply keeps_tasks_try_except; [keeps_tasks_walk | intros e].
    apply keeps_tasks_bind; [keeps_tasks_walk | intros _].
    apply subscribe_order_book_keeps_tasks.
  - intros symbol durationStr barSizeSetting whatToShow useRTH.
    unfold request_historical_data.
    apply keeps_tasks_with_contract. intros c. keeps_tasks_walk.
  - intros symbol reportType. unfold request_fundamental_data.
    apply keeps_tasks_with_contract. intros c. keeps_tasks_walk.
  - intros symbol. unfold request_fundamental_ratios.
    apply keeps_tasks_with_contract. intros c. keeps_tasks_walk.
Qed.

(** ** Tick monitor on a queue that is never full *)

Lemma await_put_never_full env st message :
  maxsize (out_queue st) ≤ 0 →
  await_put env st message =
    Some ({| last_processed_count := last_processed_count st;
             ticks := ticks st;
             out_queue := put_nowait (out_queue st) (MsgTickByTick message);
             sent := sent st ++ [message];
             ended := ended st |}, env).
Proof.
  intros Hmax.
  assert (full (out_queue st) = false) as Hfull.
  { unfold full. by rewrite (proj2 (Z.leb_le _ _) Hmax). }
  destruct env; simpl; by rewrite Hfull.
Qed.

Lemma put_new_ticks_never_full symbol tickType new_ticks env st :
  maxsize (out_queue st) ≤ 0 →
  ∃ st', put_new_ticks symbol tickType new_ticks env st = Some (st', env) ∧
         put_new_ticks symbol tickType new_ticks [] st = Some (st', []) ∧
         maxsize (out_queue st') = maxsize (out_queue st).
Proof.
  revert st. induction new_ticks as [ | tick rest IH]; intros st Hmax;
    cbn [put_new_ticks].
  - by exists st.
  - destruct (tick_message symbol tickType tick) as [e | message].
    + by exists (raised e st).
    + rewrite !await_put_never_full by done.
      destruct (IH {| last_processed_count := last_processed_count st;
                      ticks := ticks st;
                      out_queue := put_nowait (out_queue st)
                                     (MsgTickByTick message);
                      sent := sent st ++ [message];
                      ended := ended st |})
        as (st' & H1 & H2 & H3); [done | ].
      exists st'. by rewrite H1, H2, H3.
Qed.

Lemma monitor_ticks_cycle_never_full symbol tickType env st :
  maxsize (out_queue st) ≤ 0 →
  ∃ st', monitor_ticks_cycle symbol tickType env st = Some (st', env) ∧
         monitor_ticks_cycle symbol tickType [] st = Some (st', []) ∧
         maxsize (out_queue st') = maxsize (out_queue st).
Proof.
  intros Hmax. unfold monitor_ticks_cycle.
  destruct (truthy (ticks st) &&
            bool_decide (last_processed_count st < length (ticks st))%nat).
  - destruct (put_new_ticks_never_full symbol tickType
                (drop (last_processed_count st) (ticks st)) env st Hmax)
      as (st' & -> & -> & Hmax').
    destruct (ended st'); by eexists.
  - by exists st.
Qed.

Lemma monitor_ticks_from_never_full symbol tickType sleeps env st :
  maxsize (out_queue st) ≤ 0 →
  ∃ st', monitor_ticks_from symbol tickType sleeps env st = Some (st', env) ∧
         monitor_ticks_from symbol tickType sleeps [] st = Some (st', []).
Proof.
  revert st. induction sleeps as [ | s sleeps IH]; intros st Hmax;
    cbn [monitor_ticks_from].
  - by exists st.
  - destruct (ended st); [by exists st | ].
    destruct (monitor_ticks_cycle_never_full symbol tickType env (wake s st))
      as (st1 & -> & -> & Hmax1); [done | ].
    apply IH. by rewrite Hmax1.
Qed.

(** No gap and no duplicate on an unbounded queue ([queue_maxsize <= 0]):
    no [put] ever parks, so for every run of poll cycles over a list that
    only grows the run completes, and the monitor has sent the messages
    of the entries of the list, one each and in list order, up to the
    first entry whose message cannot be built; when there is no such
    entry the cursor is the list length. *)
Lemma monitor_ticks_no_gap_on_unbounded_queue
    symbol tickType sleeps env q l :
  maxsize q ≤ 0 →
  Forall grows_only sleeps →
  sleeps ≠ [] →
  ∃ st',
    monitor_ticks_from symbol tickType sleeps env (monitor_ticks_start q l)
      = Some (st', env) ∧
    sent_up_to_cursor symbol tickType st' ∧
    (ended st' = None →
     last_processed_count st' = length (ticks st') ∧
     inr <$> sent st' = tick_message symbol tickType <$> ticks st').
Proof.
  intros Hmax Hsleeps Hne.
  destruct (monitor_ticks_from_never_full symbol tickType sleeps env
              (monitor_ticks_start q l) Hmax) as (st' & Hrun & Hrun0).
  exists st'. split; [done | ].
  destruct (monitor_ticks_no_gap_when_puts_are_quiet symbol tickType sleeps
              [] (monitor_ticks_start q l) st' [] Hsleeps) as [Hinv Hfinal];
    [constructor | | done | ].
  - split; simpl; [lia | done].
  - split; [done | ]. by apply Hfinal.
Qed.

(** ** Quote monitor: what reaches the queue *)

Lemma adjacent_distinct_snoc {A} (l : list A) (x : A) :
  adjacent_distinct l → list.last l ≠ Some x → adjacent_distinct (l ++ [x]).
Proof.
  induction l as [ | y l IH]; [done | ].
  destruct l as [ | z l].
  - simpl. intros _ Hne. split; [congruence | done].
  - intros [Hyz Hrest] Hlast. split; [done | ].
    apply IH; [done | ]. by rewrite last_cons_cons in Hlast.
Qed.

Lemma emitted_adjacent_distinct_from st reads :
  prev_snapshot st = last_emitted st →
  adjacent_distinct (emitted st) →
  adjacent_distinct (emitted (monitor_from st reads)).
Proof.
  revert st. induction reads as [ | ticker reads IH]; intros st Hprev Hdist;
    [done | ].
  simpl. unfold monitor_iteration.
  destruct (read_snapshot ticker) as [e | snapshot].
  - by apply IH.
  - case_decide as Hne; [ | by apply IH].
    apply IH; simpl.
    + unfold last_emitted. simpl. by rewrite last_snoc.
    + apply adjacent_distinct_snoc; [done | ].
      fold (last_emitted st). rewrite <- Hprev. congruence.
Qed.

(** X1. The quote monitor never puts the same snapshot twice in a row:
    in the sequence of messages it hands to the queue, any two
    neighbours differ. *)
Theorem quote_monitor_never_repeats (reads : list Ticker) :
  adjacent_distinct (emitted (monitor reads)).
Proof. by apply emitted_adjacent_distinct_from. Qed.

Lemma emitted_monitor_from_without_repeats st reads :
  emitted (monitor_from st reads) =
  emitted st ++ without_repeats_from (prev_snapshot st) (built reads).
Proof.
  revert st. induction reads as [ | ticker reads IH]; intros st.
  - simpl. by rewrite app_nil_r.
  - simpl. rewrite IH. unfold monitor_iteration, built. simpl.
    destruct (read_snapshot ticker) as [e | snapshot]; simpl; [done | ].
    destruct (decide (Some snapshot = prev_snapshot st)) as [Heq | Hne].
    + by rewrite decide_False by (by intros Hne; apply Hne).
    + rewrite decide_True by done. simpl. by rewrite <- app_assoc.
Qed.

(** X2. What the quote monitor puts on the queue is the sequence of the
    snapshots its polls built, with every run of equal consecutive
    snapshots collapsed to one; polls that failed to build a snapshot
    contribute nothing. *)
Theorem quote_monitor_emits_built_without_repeats (reads : list Ticker) :
  emitted (monitor reads) = without_repeats (built reads).
Proof. apply (emitted_monitor_from_without_repeats monitor_start). Qed.

Lemma built_cons ticker reads :
  built (ticker :: reads) =
  match read_snapshot ticker with
  | inr snapshot => snapshot :: built reads
  | inl _ => built reads
  end.
Proof. unfold built. simpl. by destruct (read_snapshot ticker). Qed.

Lemma built_skips_failed reads :
  built (filter (λ ticker, read_fails ticker = false) reads) = built reads.
Proof.
  induction reads as [ | ticker reads IH]; [done | ].
  destruct (read_fails ticker) eqn:Hfails.
  - rewrite filter_cons_False by (by rewrite Hfails). rewrite built_cons, IH.
    unfold read_fails in Hfails. by destruct (read_snapshot ticker).
  - rewrite filter_cons_True by done. by rewrite !built_cons, IH.
Qed.

Lemma warnings_monitor_from st reads :
  length (warnings (monitor_from st reads)) =
  (length (warnings st) +
   length (filter (λ ticker, read_fails ticker = true) reads))%nat.
Proof.
  revert st. induction reads as [ | ticker reads IH]; intros st.
  - simpl. lia.
  - simpl. rewrite IH. unfold monitor_iteration.
    destruct (read_snapshot ticker) as [e | snapshot] eqn:Hread.
    + rewrite filter_cons_True by (unfold read_fails; by rewrite Hread).
      simpl. rewrite length_app. simpl. lia.
    + rewrite filter_cons_False by (unfold read_fails; by rewrite Hread).
      by case_decide.
Qed.

(** X3. A poll that raises while building its snapshot does not end the
    quote monitor and leaves no trace in its output: the messages put are
    those of the same run with the failed polls removed, and exactly one
    warning is logged per failed poll. *)
Theorem quote_monitor_survives_failed_polls (reads : list Ticker) :
  emitted (monitor reads) =
    emitted (monitor (filter (λ ticker, read_fails ticker = false) reads)) ∧
  length (warnings (monitor reads)) =
    length (filter (λ ticker, read_fails ticker = true) reads).
Proof.
  split.
  - by rewrite !quote_monitor_emits_built_without_repeats, built_skips_failed.
  - apply (warnings_monitor_from monitor_start).
Qed.

(** X4. A poll fails exactly when the ticker has no contract (no symbol
    for the message) or its volume is a number that the integer field
    refuses; NaN or missing prices never make a poll fail. *)
Theorem read_fails_iff (ticker : Ticker) :
  read_fails ticker = true ↔
  contract ticker = None ∨
  ∃ v, volume ticker = RawVal v ∧ int_of_float v = None.
Proof.
  unfold read_fails, read_snapshot, new_TopOfBookMessage, normalize_ticker.
  simpl. destruct (contract ticker) as [c | ]; simpl.
  - destruct (volume ticker) as [ | | v]; simpl.
    + split; [done | ]. intros [ | (v & ? & _)]; done.
    + split; [done | ]. intros [ | (v & ? & _)]; done.
    + destruct (int_of_float v) eqn:Hint.
      * split; [done | ]. intros [ | (v' & [= <-] & ?)]; [done | congruence].
      * split; [ | done]. intros _. right. by exists v.
  - split; [ | done]. intros _. by left.
Qed.

Lemma read_snapshot_quote_fields ticker1 ticker2 :
  quote_fields ticker1 = quote_fields ticker2 →
  read_snapshot ticker1 = read_snapshot ticker2.
Proof.
  unfold quote_fields. intros [= Hsym Hbid Hask Hlast Hvol Htime].
  unfold read_snapshot, new_TopOfBookMessage, normalize_ticker. simpl.
  rewrite Hbid, Hask, Hlast, Hvol, Htime.
  destruct (contract ticker1), (contract ticker2); simpl in Hsym;
    try discriminate; [ | done].
  injection Hsym as Hsym. by rewrite Hsym.
Qed.

(** X5. Only the symbol, bid, ask, last, volume and time of the ticker
    reach the queue, with NaN and [None] both read as unknown: a poll
    whose ticker agrees with the previous poll's ticker on these fields
    puts nothing, whatever else changed on the ticker (its tick list, its
    depth ladders, the exchange or currency of its contract, a price
    going from [None] to NaN). *)
Theorem quote_monitor_ignores_other_fields
    (reads : list Ticker) (ticker ticker' : Ticker) :
  quote_fields ticker' = quote_fields ticker →
  emitted (monitor (reads ++ [ticker; ticker'])) =
  emitted (monitor (reads ++ [ticker])).
Proof.
  intros Hfields.
  apply read_snapshot_quote_fields in Hfields.
  replace (reads ++ [ticker; ticker']) with ((reads ++ [ticker]) ++ [ticker'])
    by (by rewrite <- app_assoc).
  rewrite (monitor_snoc (reads ++ [ticker])).
  rewrite monitor_snoc.
  destruct (read_snapshot ticker) as [e | snapshot] eqn:Hread.
  - unfold monitor_iteration. by rewrite Hfields, Hread.
  - rewrite (monitor_iteration_unchanged _ ticker' snapshot);
      [done | by rewrite Hfields | ].
    unfold monitor_iteration. rewrite Hread.
    case_decide as Hne; [done | ].
    destruct (decide (prev_snapshot (monitor reads) = Some snapshot));
      [done | ]. destruct Hne. congruence.
Qed.

Lemma elem_of_emitted_from st reads snapshot :
  snapshot ∈ emitted (monitor_from st reads) →
  snapshot ∈ emitted st ∨
  ∃ ticker, ticker ∈ reads ∧ read_snapshot ticker = inr snapshot.
Proof.
  revert st. induction reads as [ | ticker reads IH]; intros st; simpl.
  - by left.
  - intros Hin. destruct (IH _ Hin) as [Hst | (t & Ht & Hread)].
    + unfold monitor_iteration in Hst.
      destruct (read_snapshot ticker) as [e | s] eqn:Hread; [by left | ].
      case_decide; [ | by left]. simpl in Hst.
      apply elem_of_app in Hst as [ | Hs]; [by left | ].
      apply list_elem_of_singleton in Hs as ->.
      right. exists ticker. split; [by left | done].
    + right. exists t. split; [by right | done].
Qed.

(** X6. Every message the quote monitor puts was built from one of the
    ticker states it read: its event type is [top_of_book], its symbol is
    the symbol of that ticker's contract (not the argument of the
    subscribe call), its prices are the ticker's with NaN turned into
    unknown, and its timestamp is the ticker's time. *)
Theorem quote_monitor_emits_only_what_it_read
    (reads : list Ticker) (snapshot : TopOfBookMessage) :
  snapshot ∈ emitted (monitor reads) →
  ∃ ticker c,
    ticker ∈ reads ∧
    contract ticker = Some c ∧
    tob_event_type snapshot = "top_of_book" ∧
    tob_symbol snapshot = symbol c ∧
    tob_bid snapshot = safe_float (bid ticker) ∧
    tob_ask snapshot = safe_float (ask ticker) ∧
    tob_last snapshot = safe_float (last ticker) ∧
    tob_volume snapshot = safe_float (volume ticker) ≫= int_of_float ∧
    tob_timestamp snapshot = time ticker.
Proof.
  intros Hin.
  destruct (elem_of_emitted_from monitor_start reads snapshot Hin)
    as [Hnone | (ticker & Hticker & Hread)].
  - simpl in Hnone. by apply elem_of_nil in Hnone.
  - exists ticker.
    unfold read_snapshot, new_TopOfBookMessage, normalize_ticker in Hread.
    simpl in Hread.
    destruct (contract ticker) as [c | ]; [ | done]. exists c.
    destruct (safe_float (volume ticker)) as [v | ]; simpl in *.
    + destruct (int_of_float v) eqn:Hint; [ | done].
      injection Hread as <-. by simpl.
    + injection Hread as <-. by simpl.
Qed.

(** ** Tick monitor: what a cycle sends *)

Lemma await_put_sent env st message st' env' :
  await_put env st message = Some (st', env') →
  sent st' = sent st ++ [message] ∧
  last_processed_count st' = last_processed_count st ∧
  ended st' = ended st ∧
  list.last (items (out_queue st')) = Some (MsgTickByTick message).
Proof.
  revert st. induction env as [ | turn env IH]; intros st; simpl.
  - destruct (full (out_queue st)); [done | ].
    intros [= <- <-]. simpl. by rewrite last_snoc.
  - destruct (full (out_queue st)).
    + intros Hput. by destruct (IH _ Hput) as (-> & -> & -> & ->).
    + intros [= <- <-]. simpl. by rewrite last_snoc.
Qed.

Lemma put_new_ticks_sent symbol tickType new_ticks env st st' env' :
  put_new_ticks symbol tickType new_ticks env st = Some (st', env') →
  sent st' = sent st ++ (tick_messages symbol tickType new_ticks).1 ∧
  last_processed_count st' = last_processed_count st ∧
  ended st' = match (tick_messages symbol tickType new_ticks).2 with
              | Some e => Some e
              | None => ended st
              end.
Proof.
  revert env st. induction new_ticks as [ | tick rest IH]; intros env st;
    cbn [put_new_ticks tick_messages].
  - intros [= <- <-]. by rewrite app_nil_r.
  - destruct (tick_message symbol tickType tick) as [e | message].
    + intros [= <- <-]. simpl. by rewrite app_nil_r.
    + destruct (await_put env st message) as [[st1 env1] | ] eqn:Hput;
        [ | done].
      intros Hrest.
      destruct (await_put_sent _ _ _ _ _ Hput) as (Hsent1 & Hcur1 & Hend1 & _).
      destruct (IH _ _ Hrest) as (-> & -> & ->).
      destruct (tick_messages symbol tickType rest) as [built r].
      rewrite Hsent1, Hcur1, Hend1. cbn [fst snd].
      by rewrite <- app_assoc.
Qed.

Lemma monitor_ticks_cycle_effect symbol tickType env st st' env' :
  monitor_ticks_cycle symbol tickType env st = Some (st', env') →
  let new_ticks := drop (last_processed_count st) (ticks st) in
  sent st' = sent st ++ (tick_messages symbol tickType new_ticks).1 ∧
  ended st' = match (tick_messages symbol tickType new_ticks).2 with
              | Some e => Some e
              | None => ended st
              end ∧
  last_processed_count st' =
    match ended st' with
    | None =>
        if bool_decide (last_processed_count st < length (ticks st))%nat
        then length (ticks st') else last_processed_count st
    | Some _ => last_processed_count st
    end.
Proof.
  intros Hcycle new_ticks. subst new_ticks.
  unfold monitor_ticks_cycle in Hcycle.
  destruct (bool_decide (last_processed_count st < length (ticks st))%nat)
    eqn:Hlt.
  - apply bool_decide_eq_true in Hlt.
    assert (truthy (ticks st) = true) as Htruthy
      by (destruct (ticks st); [simpl in Hlt; lia | done]).
    rewrite Htruthy in Hcycle. cbn [andb] in Hcycle.
    destruct (put_new_ticks symbol tickType
                (drop (last_processed_count st) (ticks st)) env st)
      as [[st1 env1] | ] eqn:Hput; [ | done].
    destruct (put_new_ticks_sent _ _ _ _ _ _ _ Hput)
      as (Hsent1 & Hcur1 & Hend1).
    destruct (ended st1) as [e | ] eqn:Hended.
    + injection Hcycle as <- <-. by rewrite Hended.
    + injection Hcycle as <- <-. simpl. by rewrite <- Hend1.
  - rewrite andb_false_r in Hcycle. injection Hcycle as <- <-.
    apply bool_decide_eq_false in Hlt.
    rewrite drop_ge by lia. simpl. rewrite app_nil_r.
    by destruct (ended st).
Qed.

(** X7. Backpressure drops nothing: whatever the rest of the event loop
    does while the tick monitor is parked on a full queue, a cycle that
    completes has put one message for every entry the list held at the
    poll from the cursor on, in list order, up to the first entry whose
    message cannot be built, and nothing else; such an entry ends the
    task with its exception. The cursor moves only in a cycle that found
    entries beyond it and built the message of every one. *)
Theorem monitor_ticks_cycle_sends_slice
    (symbol tickType : string) (env : list EnvTurn) (st : TickMonitor)
    (st' : TickMonitor) (env' : list EnvTurn) :
  monitor_ticks_cycle symbol tickType env st = Some (st', env') →
  let new_ticks := drop (last_processed_count st) (ticks st) in
  sent st' = sent st ++ (tick_messages symbol tickType new_ticks).1 ∧
  ended st' = match (tick_messages symbol tickType new_ticks).2 with
              | Some e => Some e
              | None => ended st
              end ∧
  last_processed_count st' =
    match ended st' with
    | None =>
        if bool_decide (last_processed_count st < length (ticks st))%nat
        then length (ticks st') else last_processed_count st
    | Some _ => last_processed_count st
    end ∧
  (ended st' = None →
   inr <$> sent st' =
     (inr <$> sent st) ++ (tick_message symbol tickType <$> new_ticks)).
Proof.
  intros Hcycle new_ticks.
  destruct (monitor_ticks_cycle_effect _ _ _ _ _ _ Hcycle)
    as (Hsent & Hend & Hcur).
  split; [done | ]. split; [done | ]. split; [done | ].
  intros Hnone. rewrite Hsent, fmap_app. f_equal.
  apply tick_messages_built. subst new_ticks.
  destruct (tick_messages symbol tickType
              (drop (last_processed_count st) (ticks st))) as [built [e | ]];
    simpl in Hend; [congruence | done].
Qed.

(** ** Tick monitor: no duplicate and no reordering *)

Lemma await_put_grows env st message st' env' :
  Forall grows_only env →
  await_put env st message = Some (st', env') →
  Forall grows_only env' ∧ ticks st `prefix_of` ticks st'.
Proof.
  intros Henv. revert st.
  induction Henv as [ | turn env Hturn Henv IH]; intros st; simpl.
  - destruct (full (out_queue st)); [done | ]. by intros [= <- <-].
  - destruct (full (out_queue st)).
    + intros Hput. destruct (IH _ Hput) as [Henv' Hpre].
      split; [done | ]. etrans; [ | exact Hpre].
      simpl. unfold feed_turn. rewrite Hturn. by apply prefix_app_r.
    + intros [= <- <-]. split; [by constructor | done].
Qed.

Lemma put_new_ticks_grows symbol tickType new_ticks env st st' env' :
  Forall grows_only env →
  put_new_ticks symbol tickType new_ticks env st = Some (st', env') →
  Forall grows_only env' ∧ ticks st `prefix_of` ticks st'.
Proof.
  revert env st. induction new_ticks as [ | tick rest IH]; intros env st Henv;
    cbn [put_new_ticks].
  - by intros [= <- <-].
  - destruct (tick_message symbol tickType tick) as [e | message].
    + by intros [= <- <-].
    + destruct (await_put env st message) as [[st1 env1] | ] eqn:Hput;
        [ | done].
      intros Hrest.
      destruct (await_put_grows _ _ _ _ _ Henv Hput) as [Henv1 Hpre1].
      destruct (IH _ _ Henv1 Hrest) as [Henv' Hpre'].
      split; [done | by etrans].
Qed.

Lemma sublist_of_prefix {A} (l1 l2 : list A) :
  l1 `prefix_of` l2 → l1 `sublist_of` l2.
Proof. intros [k ->]. by apply sublist_inserts_r. Qed.

Lemma wake_keeps_sent_sublist symbol tickType turn st :
  grows_only turn →
  ended st = None →
  sent_sublist symbol tickType st →
  sent_sublist symbol tickType (wake turn st) ∧
  ticks st `prefix_of` ticks (wake turn st).
Proof.
  unfold grows_only, sent_sublist, wake, feed_turn. simpl.
  intros -> -> (kept & Hsent & Hsub & Hle). split; [ | by apply prefix_app_r].
  exists kept. rewrite length_app. split; [done | ]. split; [ | lia].
  by rewrite take_app_le.
Qed.

Lemma monitor_ticks_cycle_keeps_sent_sublist symbol tickType env st st' env' :
  Forall grows_only env →
  ended st = None →
  sent_sublist symbol tickType st →
  monitor_ticks_cycle symbol tickType env st = Some (st', env') →
  Forall grows_only env' ∧
  sent_sublist symbol tickType st' ∧
  ticks st `prefix_of` ticks st'.
Proof.
  intros Henv Hrun (kept & Hsent & Hsub & Hle) Hcycle.
  rewrite Hrun in Hsub.
  destruct (monitor_ticks_cycle_effect _ _ _ _ _ _ Hcycle)
    as (Hsent' & Hend' & Hcur').
  destruct (tick_messages_prefix symbol tickType
              (drop (last_processed_count st) (ticks st)))
    as (new_kept & Hpre_new & Hbuilt & Hall).
  assert (Hkept : kept ++ new_kept `sublist_of` ticks st).
  { rewrite <- (take_drop (last_processed_count st) (ticks st)).
    apply sublist_app; [done | by apply sublist_of_prefix]. }
  unfold monitor_ticks_cycle in Hcycle.
  destruct (truthy (ticks st) &&
            bool_decide (last_processed_count st < length (ticks st))%nat)
    eqn:Hguard.
  - destruct (put_new_ticks symbol tickType
                (drop (last_processed_count st) (ticks st)) env st)
      as [[st1 env1] | ] eqn:Hput; [ | done].
    destruct (put_new_ticks_grows _ _ _ _ _ _ _ Henv Hput) as [Henv1 Hpre].
    destruct (put_new_ticks_sent _ _ _ _ _ _ _ Hput) as (_ & Hcur1 & _).
    assert (Hlen : (length (ticks st) ≤ length (ticks st1))%nat)
      by (by apply prefix_length).
    destruct (ended st1) as [e | ] eqn:Hended.
    + injection Hcycle as <- <-.
      split; [done | ]. split; [ | done].
      exists (kept ++ new_kept). rewrite Hended.
      split; [by rewrite Hsent', !fmap_app, Hsent, Hbuilt | ].
      split; [ | lia].
      etrans; [exact Hkept | by apply sublist_of_prefix].
    + injection Hcycle as <- <-. simpl in *.
      split; [done | ]. split; [ | done].
      exists (kept ++ new_kept). simpl.
      split; [by rewrite Hsent', !fmap_app, Hsent, Hbuilt | ].
      split; [ | lia].
      rewrite firstn_all.
      etrans; [exact Hkept | by apply sublist_of_prefix].
  - injection Hcycle as <- <-. split; [done | ]. split; [ | done].
    exists kept. by rewrite Hrun.
Qed.

(** X8. Over a list that only grows, also while the monitor is parked in
    a [put], the tick monitor never sends an entry twice and never out of
    order: the messages sent are those of a selection of the list's
    entries, each position used at most once, in list order. Entries can
    be missing from the selection, none is repeated. *)
Theorem monitor_ticks_never_duplicates
    (symbol tickType : string) (sleeps env : list EnvTurn)
    (q : Queue) (l : list Tick) (st' : TickMonitor) (env' : list EnvTurn) :
  Forall grows_only sleeps →
  Forall grows_only env →
  monitor_ticks_from symbol tickType sleeps env (monitor_ticks_start q l)
    = Some (st', env') →
  ∃ kept,
    inr <$> sent st' = tick_message symbol tickType <$> kept ∧
    kept `sublist_of` ticks st' ∧
    l `prefix_of` ticks st' ∧
    (last_processed_count st' ≤ length (ticks st'))%nat.
Proof.
  intros Hsleeps Henv Hrun.
  assert (Hgen : ∀ sleeps env st st' env',
            Forall grows_only sleeps → Forall grows_only env →
            sent_sublist symbol tickType st →
            monitor_ticks_from symbol tickType sleeps env st = Some (st', env') →
            sent_sublist symbol tickType st' ∧ ticks st `prefix_of` ticks st').
  { clear. intros sleeps. induction sleeps as [ | s sleeps IH];
      intros env st st' env' Hsleeps Henv Hinv; cbn [monitor_ticks_from].
    - by intros [= <- <-].
    - apply Forall_cons in Hsleeps as [Hs Hsleeps].
      destruct (ended st) as [e | ] eqn:Hended; [by intros [= <- <-] | ].
      destruct (monitor_ticks_cycle symbol tickType env (wake s st))
        as [[st1 env1] | ] eqn:Hcycle; [ | done].
      intros Hrest.
      destruct (wake_keeps_sent_sublist _ _ _ _ Hs Hended Hinv)
        as [Hwoken Hpre0].
      destruct (monitor_ticks_cycle_keeps_sent_sublist symbol tickType env
                  (wake s st) st1 env1 Henv Hended Hwoken Hcycle)
        as (Henv1 & Hinv1 & Hpre1).
      destruct (IH _ _ _ _ Hsleeps Henv1 Hinv1 Hrest) as [Hinv' Hpre'].
      split; [done | ]. etrans; [exact Hpre0 | ]. by etrans. }
  assert (Hstart : sent_sublist symbol tickType (monitor_ticks_start q l)).
  { exists []. simpl. split; [done | ]. split; [ | lia].
    rewrite take_0. constructor. }
  destruct (Hgen sleeps env (monitor_ticks_start q l) st' env'
              Hsleeps Henv Hstart Hrun)
    as [(kept & Hsent & Hsub & Hle) Hpre].
  exists kept. split; [done | ]. split; [ | done].
  etrans; [exact Hsub | ].
  destruct (ended st'); [done | ]. apply sublist_of_prefix, prefix_take.
Qed.

(** ** Adapter: what a statement leaves alone *)

Section Frames.

Context (R : MarketDataAdapter → MarketDataAdapter → Prop).
Context `{!PreOrder R}.
Hypothesis R_set_ib : ∀ a conn, R a (set_ib conn a).

Lemma frames_ret {A} (a : A) : frames R (ret a).
Proof. by intros w. Qed.

Lemma frames_raise {A} e : frames R (raise (A := A) e).
Proof. by intros w. Qed.

Lemma frames_bind {A B} (m : M A) (k : A → M B) :
  frames R m → (∀ a, frames R (k a)) → frames R (bind m k).
Proof.
  intros Hm Hk w. unfold bind. specialize (Hm w).
  destruct (m w) as [[a | e | ] w1]; simpl in *; [ | done | done].
  etrans; [exact Hm | apply Hk].
Qed.

Lemma frames_try_except {A} (body : M A) (handler : PyExc → M A) :
  frames R body → (∀ e, frames R (handler e)) →
  frames R (try_except body handler).
Proof.
  intros Hbody Hhandler w. unfold try_except. specialize (Hbody w).
  destruct (body w) as [[a | e | ] w1]; simpl in *; [done | | done].
  etrans; [exact Hbody | apply Hhandler].
Qed.

Lemma frames_for_each {A} (l : list A) (body : A → M unit) :
  (∀ x, frames R (body x)) → frames R (for_each l body).
Proof.
  intros Hbody. induction l as [ | x l IH]; simpl.
  - apply frames_ret.
  - by apply frames_bind.
Qed.

Lemma frames_reading {A} (m : World → M A) :
  (∀ w, frames R (m w)) → frames R (λ w, m w w).
Proof. intros Hm w. apply Hm. Qed.

Lemma frames_with_contract {A} symbol (e : PyExc) (k : Contract → M A) :
  (∀ c, frames R (k c)) →
  frames R (λ w, match contracts (self w) !! symbol with
                 | None => (Raise e, w)
                 | Some c => k c w
                 end).
Proof.
  intros Hk w. destruct (contracts (self w) !! symbol) as [c | ]; [ | done].
  apply Hk.
Qed.

Lemma frames_set_self f : (∀ a, R a (f a)) → frames R (set_self f).
Proof. intros Hf w. apply Hf. Qed.

Lemma frames_logger_info msg : frames R (logger_info msg).
Proof. by intros w. Qed.

Lemma frames_logger_warning msg : frames R (logger_warning msg).
Proof. by intros w. Qed.

Lemma frames_create_task t : frames R (create_task t).
Proof. by intros w. Qed.

Lemma frames_add_callback ticker cb : frames R (add_callback ticker cb).
Proof. by intros w. Qed.

Lemma frames_ib_call {A} c (answer : list FeedCall → FeedCall → PyExc + A) :
  frames R (ib_call c answer).
Proof.
  intros w. unfold ib_call. destruct (ib (self w)) as [conn | ]; [ | done].
  destruct (answer (calls conn) c); apply R_set_ib.
Qed.

Lemma frames_queue_put item :
  (∀ a, full (queue a) = false → R a (set_queue (put_nowait (queue a) item) a)) →
  frames R (queue_put item).
Proof.
  intros Hput w. unfold queue_put.
  destruct (full (queue (self w))) eqn:Hfull; [done | ]. by apply Hput.
Qed.

(** Walks through a statement built from the combinators, leaving the
    assignments to the adapter's attributes to [eauto]. *)
Ltac frames_step :=
  cbv beta;
  lazymatch goal with
  | |- frames _ (λ w, match contracts (self w) !! _ with _ => _ end) =>
      apply frames_with_contract; intros ?
  | |- frames _ (λ w, ?m w) => change (frames R m)
  | |- frames _ (λ w, @?m w w) => apply (frames_reading m); intros ?
  | |- frames _ (bind _ _) => apply frames_bind; [ | intros ? ]
  | |- frames _ (try_except _ _) => apply frames_try_except; [ | intros ? ]
  | |- frames _ (for_each _ _) => apply frames_for_each; intros ?
  | |- frames _ (match ?r with inl _ => _ | inr _ => _ end) => destruct r
  | |- frames _ (ret _) => apply frames_ret
  | |- frames _ (raise _) => apply frames_raise
  | |- frames _ (logger_info _) => apply frames_logger_info
  | |- frames _ (logger_warning _) => apply frames_logger_warning
  | |- frames _ (create_task _) => apply frames_create_task
  | |- frames _ (add_callback _ _) => apply frames_add_callback
  | |- frames _ (ib_call _ _) => apply frames_ib_call
  | |- frames _ (set_self _) => apply frames_set_self; intros ?; solve [eauto]
  | |- frames _ (queue_put _) => apply frames_queue_put; solve [eauto]
  end.

Ltac frames_walk := repeat frames_step.

Hypothesis R_clear_ticker_subs : ∀ a, R a (set_ticker_subs [] a).
Hypothesis R_clear_l2_depth_subs : ∀ a, R a (set_l2_depth_subs [] a).
Hypothesis R_set_ticker_sub :
  ∀ a k ticker, R a (set_ticker_subs (dict_set k ticker (ticker_subs a)) a).
Hypothesis R_set_l2_depth_sub :
  ∀ a k ticker,
    R a (set_l2_depth_subs (dict_set k ticker (l2_depth_subs a)) a).

Lemma frames_cancel_ticker_sub entry : frames R (cancel_ticker_sub entry).
Proof.
  destruct entry as [sym ticker]. unfold cancel_ticker_sub.
  destruct (contract ticker); frames_walk.
Qed.

Lemma frames_cancel_depth_sub entry : frames R (cancel_depth_sub entry).
Proof.
  destruct entry as [sym ticker]. unfold cancel_depth_sub.
  destruct (contract ticker); frames_walk.
Qed.

Lemma frames_cleanup_subscriptions : frames R cleanup_subscriptions.
Proof.
  unfold cleanup_subscriptions.
  apply frames_bind; [ | intros _; apply frames_bind ];
    [ | | intros _; frames_walk ].
  - apply (frames_reading
             (λ w, for_each (ticker_subs (self w)) cancel_ticker_sub)).
    intros w. apply frames_for_each, frames_cancel_ticker_sub.
  - apply (frames_reading
             (λ w, for_each (l2_depth_subs (self w)) cancel_depth_sub)).
    intros w. apply frames_for_each, frames_cancel_depth_sub.
Qed.

Lemma frames_disconnect : frames R disconnect.
Proof.
  intros w. unfold disconnect. destruct (ib (self w)); [ | done].
  apply frames_bind; [apply frames_cleanup_subscriptions | ].
  intros _. frames_walk.
Qed.

Lemma frames_connect : frames R connect.
Proof.
  unfold connect.
  apply frames_bind; [frames_walk | intros _].
  apply frames_bind; [frames_walk | intros _].
  apply frames_bind; [ | intros _; frames_walk].
  apply (frames_reading
           (λ w, ib_call (connectAsync (host (self w)) (port (self w))
                            (client_id (self w))) (answer_none feed))).
  intros w. frames_walk.
Qed.

Lemma frames_subscribe_top_of_book symbol :
  frames R (subscribe_top_of_book symbol).
Proof. unfold subscribe_top_of_book. frames_walk. Qed.

Lemma frames_subscribe_tick_by_tick symbol tickType :
  frames R (subscribe_tick_by_tick symbol tickType).
Proof. unfold subscribe_tick_by_tick. frames_walk. Qed.

Lemma frames_subscribe_order_book symbol numRows :
  frames R (subscribe_order_book symbol numRows).
Proof. unfold subscribe_order_book. frames_walk. Qed.

Lemma frames_subscribe_smart_depth symbol numRows :
  frames R (subscribe_smart_depth symbol numRows).
Proof.
  unfold subscribe_smart_depth.
  apply frames_with_contract. intros c.
  apply frames_try_except; [frames_walk | intros e].
  apply frames_bind; [frames_walk | intros _].
  apply frames_subscribe_order_book.
Qed.

Lemma frames_define_contracts symbol_list exchange currency :
  (∀ a sym c, R a (set_contracts (<[sym := c]> (contracts a)) a)) →
  frames R (define_contracts symbol_list exchange currency).
Proof. intros Hset. unfold define_contracts. frames_walk. Qed.

Lemma frames_requests op :
  (∀ a item, full (queue a) = false →
     R a (set_queue (put_nowait (queue a) item) a)) →
  is_request op = true →
  frames R (call op).
Proof.
  intros Hput Hop. destruct op; try discriminate Hop; simpl.
  - unfold request_historical_data. frames_walk.
  - unfold request_fundamental_data. frames_walk.
  - unfold request_fundamental_ratios. frames_walk.
Qed.

(** The effect of any operation stays within [R] as soon as the
    assignments it can make do. *)
Lemma frames_call op :
  (∀ symbol_list exchange currency,
     op = DefineContracts symbol_list exchange currency →
     ∀ a sym c, R a (set_contracts (<[sym := c]> (contracts a)) a)) →
  (is_request op = true →
   ∀ a item, full (queue a) = false →
     R a (set_queue (put_nowait (queue a) item) a)) →
  frames R (call op).
Proof.
  intros Hdefine Hput.
  destruct (is_request op) eqn:Hop; [by apply frames_requests; auto | ].
  destruct op; try discriminate Hop; simpl.
  - apply frames_connect.
  - apply frames_cleanup_subscriptions.
  - apply frames_disconnect.
  - apply frames_define_contracts. by eapply Hdefine.
  - apply frames_subscribe_top_of_book.
  - apply frames_subscribe_tick_by_tick.
  - apply frames_subscribe_order_book.
  - apply frames_subscribe_smart_depth.
Qed.

Lemma frames_session ops w :
  (∀ op, op ∈ ops → frames R (call op)) →
  R (self w) (self (session ops w)).
Proof.
  revert w. induction ops as [ | op ops IH]; intros w Hops; [done | ].
  simpl. etrans.
  - apply (Hops op). by left.
  - apply IH. intros op' Hin. apply Hops. by right.
Qed.

End Frames.

(** ** Adapter: the queue, the registries and the contracts over a session *)

#[local] Instance same_queue_preorder : PreOrder same_queue.
Proof.
  split; [by intros a | ]. unfold same_queue. intros a b c Hab Hbc. congruence.
Qed.

#[local] Instance queue_only_grows_preorder : PreOrder queue_only_grows.
Proof.
  split.
  - by intros a.
  - intros a b c (Hm1 & Hp1 & Hc1) (Hm2 & Hp2 & Hc2).
    split; [congruence | ]. split; [by etrans | auto].
Qed.

#[local] Instance keeps_keys_unique_preorder : PreOrder keeps_keys_unique.
Proof.
  split; [by intros a Ha | ]. unfold keeps_keys_unique. intros a b c. auto.
Qed.

#[local] Instance keeps_symbols_preorder : PreOrder keeps_symbols.
Proof.
  split; [by intros a sym Ha | ]. unfold keeps_symbols. intros a b c. auto.
Qed.

#[local] Instance same_contracts_preorder : PreOrder same_contracts.
Proof.
  split; [by intros a | ]. unfold same_contracts. intros a b c Hab Hbc.
  congruence.
Qed.

(** X9. Only the three request operations touch the output queue:
    [connect], [disconnect], [cleanup_subscriptions], [define_contracts]
    and the four subscribe operations return or raise with the queue
    exactly as it was, so [current_queue_size] is unchanged by them. *)
Theorem only_requests_touch_the_queue (op : Operation) (w : World) :
  is_request op = false →
  queue (self (call op w).2) = queue (self w) ∧
  current_queue_size (call op w).2 = current_queue_size w.
Proof.
  intros Hop.
  assert (Hq : queue (self (call op w).2) = queue (self w)).
  { apply (frames_call same_queue); try done. by rewrite Hop. }
  split; [done | ]. unfold current_queue_size. by rewrite Hq.
Qed.

Lemma put_nowait_within_capacity q item :
  full q = false → within_capacity q → within_capacity (put_nowait q item).
Proof.
  unfold full, within_capacity, put_nowait, qsize. simpl.
  intros Hfull _ Hpos. rewrite length_app. simpl.
  destruct (maxsize q <=? 0) eqn:Hle; [apply Z.leb_le in Hle; lia | ].
  apply Z.leb_gt in Hfull. lia.
Qed.

Lemma call_queue_only_grows op : frames queue_only_grows (call op).
Proof.
  apply frames_call; try apply _; try done.
  intros _ a item Hfull. split; [done | ]. split.
  - simpl. by apply prefix_app_r.
  - simpl. by apply put_nowait_within_capacity.
Qed.

(** X10. Over any sequence of operations the adapter only appends to the
    queue: the capacity is never changed, the messages already queued
    stay queued in their order (the adapter never consumes or drops one),
    and a bounded queue that was within its capacity stays within it. *)
Theorem session_only_appends_to_queue (ops : list Operation) (w : World) :
  within_capacity (queue (self w)) →
  maxsize (queue (self (session ops w))) = maxsize (queue (self w)) ∧
  items (queue (self w)) `prefix_of` items (queue (self (session ops w))) ∧
  within_capacity (queue (self (session ops w))).
Proof.
  intros Hcap.
  destruct (frames_session queue_only_grows ops w) as (Hmax & Hpre & Hcap').
  { intros op _. apply call_queue_only_grows. }
  auto.
Qed.

Lemma call_keeps_keys_unique op : frames keeps_keys_unique (call op).
Proof.
  apply frames_call; try apply _.
  - by intros a conn Ha.
  - intros a [H1 H2]. split; [constructor | done].
  - intros a [H1 H2]. split; [done | constructor].
  - intros a k ticker [H1 H2]. split; [ | done].
    by apply dict_set_keys_NoDup.
  - intros a k ticker [H1 H2]. split; [done | ].
    by apply dict_set_keys_NoDup.
  - by intros _ _ _ _ a sym c Ha.
  - by intros _ a item _ Ha.
Qed.

(** The lists that stand for the two registries stay dicts: starting
    from a new adapter, after any sequence of operations, whatever the
    feed answered, the keys of [ticker_subs] are pairwise distinct and so
    are the keys of [l2_depth_subs]. *)
Lemma registry_keys_stay_unique
    (ops : list Operation) (host : string) (port client_id queue_maxsize : Z) :
  keys_unique
    (self (session ops
             (new_World (new_MarketDataAdapter host port client_id
                           queue_maxsize)))).
Proof.
  apply (frames_session keeps_keys_unique ops).
  - intros op _. apply call_keeps_keys_unique.
  - split; constructor.
Qed.

Lemma call_keeps_symbols op : frames keeps_symbols (call op).
Proof.
  apply frames_call; try apply _.
  - by intros a conn sym Ha.
  - by intros a sym Ha.
  - by intros a sym Ha.
  - by intros a k ticker sym Ha.
  - by intros a k ticker sym Ha.
  - intros _ _ _ _ a sym c sym' Hsome. simpl.
    destruct (decide (sym = sym')) as [-> | Hne].
    + rewrite lookup_insert_eq. by eexists.
    + by rewrite lookup_insert_ne.
  - by intros _ a item _ sym Ha.
Qed.

Lemma call_same_contracts op :
  is_define_contracts op = false → frames same_contracts (call op).
Proof.
  intros Hop. apply frames_call; try apply _; try done.
  intros symbol_list exchange currency ->. discriminate Hop.
Qed.

(** X12. A registered symbol stays registered: no operation removes a
    contract, so after any sequence of operations a symbol that had a
    contract still has one; and only [define_contracts] changes the
    contract table at all. *)
Theorem contracts_are_never_removed
    (ops : list Operation) (w : World) (sym : string) :
  is_Some (contracts (self w) !! sym) →
  is_Some (contracts (self (session ops w)) !! sym) ∧
  (forallb (λ op, negb (is_define_contracts op)) ops = true →
   contracts (self (session ops w)) = contracts (self w)).
Proof.
  intros Hsome. split.
  - apply (frames_session keeps_symbols ops w); [ | done].
    intros op _. apply call_keeps_symbols.
  - intros Hops. apply (frames_session same_contracts ops w).
    intros op Hin. apply call_same_contracts.
    rewrite forallb_forall in Hops. apply list_elem_of_In in Hin.
    specialize (Hops op Hin). by destruct (is_define_contracts op).
Qed.

Lemma call_keeps_tasks op : keeps_tasks (call op).
Proof.
  destruct no_operation_stops_a_task
    as (H1 & H2 & H3 & H4 & H5 & H6 & H7 & H8 & H9 & H10 & H11).
  destruct op; simpl; auto.
Qed.

(** No sequence of operations ends a task: the tasks running before a
    session are a prefix of those running after it. *)
Lemma session_keeps_tasks (ops : list Operation) (w : World) :
  tasks w `prefix_of` tasks (session ops w).
Proof.
  revert w. induction ops as [ | op ops IH]; intros w; [done | ].
  simpl. etrans; [apply (call_keeps_tasks op) | apply IH].
Qed.

(** ** Event loop: the tasks that end *)

Lemma monitor_ticks_from_raised symbol tickType sleeps env st st' env' e :
  ended st = None →
  monitor_ticks_from symbol tickType sleeps env st = Some (st', env') →
  ended st' = Some e →
  ∃ tick, tick_message symbol tickType tick = inl e.
Proof.
  revert env st. induction sleeps as [ | s sleeps IH]; intros env st Hrun;
    cbn [monitor_ticks_from].
  - intros [= <- <-]. congruence.
  - rewrite Hrun.
    destruct (monitor_ticks_cycle symbol tickType env (wake s st))
      as [[st1 env1] | ] eqn:Hcycle; [ | done].
    destruct (monitor_ticks_cycle_effect _ _ _ _ _ _ Hcycle)
      as (_ & Hend1 & _).
    destruct (ended st1) as [e1 | ] eqn:Hended.
    + rewrite (monitor_ticks_from_ended _ _ _ _ _ e1 Hended).
      intros [= <- <-] He. rewrite Hended in He. injection He as <-.
      destruct (tick_messages_raised symbol tickType
                  (drop (last_processed_count (wake s st)) (ticks (wake s st)))
                  e1) as (tick & _ & Htick); [ | by exists tick].
      destruct (tick_messages symbol tickType _) as [built [e' | ]];
        simpl in *; congruence.
    + by apply IH.
Qed.

Lemma quote_monitors_prefix sym (ts ts' : list Task) :
  ts `prefix_of` ts' → quote_monitors sym ts `prefix_of` quote_monitors sym ts'.
Proof.
  intros [k ->]. unfold quote_monitors. rewrite filter_app.
  by apply prefix_app_r.
Qed.

Lemma loop_step_tasks w w' :
  loop_step w w' →
  ∃ before after symbol tickType ticker e tick,
    tasks w = before ++ monitor_ticks_task symbol tickType ticker :: after ∧
    tasks w' = before ++ after ∧
    tick_message symbol tickType tick = inl e.
Proof.
  intros [w0 before after symbol tickType ticker sleeps env st env' e
            Htasks Hrun Hend].
  destruct (monitor_ticks_from_raised symbol tickType sleeps env
              (monitor_ticks_start (queue (self w0)) (tickByTicks ticker))
              st env' e eq_refl Hrun Hend)
    as [tick Htick].
  by exists before, after, symbol, tickType, ticker, e, tick.
Qed.


(** ** Adapter: contracts *)

Lemma define_contracts_run symbol_list exchange currency w :
  define_contracts symbol_list exchange currency w =
    (Ok (),
     {| self := set_contracts
                  (foldl (λ m sym, <[sym := Stock sym exchange currency]> m)
                     (contracts (self w)) symbol_list)
                  (self w);
        log := log w ++
               ((λ sym, info ("Defined contract for " +:+ sym)) <$> symbol_list);
        tasks := tasks w;
        updateEvent := updateEvent w |}).
Proof.
  unfold define_contracts. revert w.
  induction symbol_list as [ | sym l IH]; intros w.
  - simpl. unfold ret. destruct w as [a lg ts ev]. simpl.
    rewrite app_nil_r. by destruct a.
  - cbn [for_each]. unfold bind at 1. unfold bind at 1.
    unfold set_self at 1, logger_info at 1, update. simpl.
    rewrite IH. simpl. by rewrite <- app_assoc.
Qed.

Lemma lookup_foldl_insert exchange currency (l : list string)
    (m : gmap string Contract) sym :
  foldl (λ m sym, <[sym := Stock sym exchange currency]> m) m l !! sym =
  if decide (sym ∈ l) then Some (Stock sym exchange currency) else m !! sym.
Proof.
  revert m. induction l as [ | x l IH]; intros m; cbn [foldl].
  - by rewrite decide_False by apply not_elem_of_nil.
  - rewrite IH. destruct (decide (sym ∈ l)) as [Hin | Hnot].
    + by rewrite decide_True by (by right).
    + destruct (decide (sym = x)) as [-> | Hne].
      * rewrite decide_True by (by left). by rewrite lookup_insert_eq.
      * rewrite decide_False by (by intros [ | ]%elem_of_cons).
        by rewrite lookup_insert_ne.
Qed.

(** X14. [define_contracts] always returns normally, needs no
    connection, and afterwards every symbol of the list is registered with
    the stock contract built from that symbol, the exchange and the
    currency (replacing an earlier contract of the symbol), while every
    other symbol keeps the contract it had or stays unknown. Nothing else
    of the adapter changes; one line is logged per symbol. *)
Theorem define_contracts_registers
    (symbol_list : list string) (exchange currency : string) (w : World) :
  let r := define_contracts symbol_list exchange currency w in
  r.1 = Ok () ∧
  (∀ sym, contracts (self r.2) !! sym =
          if decide (sym ∈ symbol_list)
          then Some (Stock sym exchange currency)
          else contracts (self w) !! sym) ∧
  ib (self r.2) = ib (self w) ∧
  queue (self r.2) = queue (self w) ∧
  ticker_subs (self r.2) = ticker_subs (self w) ∧
  l2_depth_subs (self r.2) = l2_depth_subs (self w) ∧
  tasks r.2 = tasks w ∧
  updateEvent r.2 = updateEvent w ∧
  length (log r.2) = (length (log w) + length symbol_list)%nat.
Proof.
  simpl. rewrite define_contracts_run. simpl.
  split; [done | ]. split; [intros sym; apply lookup_foldl_insert | ].
  repeat split; try done.
  by rewrite length_app, length_fmap.
Qed.

(** ** Adapter: connecting *)

(** X15. [connect] replaces the connection object by a new one on which
    [connectAsync(host, port, clientId)] is the only call, whether or not
    that call succeeds; when it raises, the exception reaches the caller
    and [Connected.] is not logged. The contracts, both registries, the
    queue and the running tasks are left as they were, so entries
    registered on an earlier connection stay in the registries. *)
Theorem connect_starts_a_new_connection (w : World) :
  let r := connect w in
  let request := connectAsync (host (self w)) (port (self w))
                   (client_id (self w)) in
  ib (self r.2) = Some {| calls := [request] |} ∧
  r.1 = match answer_none feed [] request with
        | inl e => Raise e
        | inr _ => Ok ()
        end ∧
  log r.2 = log w ++ info "Connecting to IBKR..." ::
              match answer_none feed [] request with
              | inl _ => []
              | inr _ => [info "Connected."]
              end ∧
  contracts (self r.2) = contracts (self w) ∧
  ticker_subs (self r.2) = ticker_subs (self w) ∧
  l2_depth_subs (self r.2) = l2_depth_subs (self w) ∧
  queue (self r.2) = queue (self w) ∧
  tasks r.2 = tasks w.
Proof.
  simpl. unfold connect, bind, logger_info, set_self, update, ib_call. simpl.
  destruct (answer_none feed []
              (connectAsync (host (self w)) (port (self w))
                 (client_id (self w)))) as [e | []]; simpl;
    repeat split; try done; by rewrite <- app_assoc.
Qed.

(** ** Adapter: calls that cannot reach the feed, and refused requests *)

(** X16. On an adapter that never connected, every subscribe and request
    operation for a registered symbol raises [AttributeError] (the
    connection is [None]). The state is untouched, except that
    [subscribe_smart_depth] first takes the error of its smart request
    for a missing capability: it logs its warning and then raises the
    [AttributeError] of the fallback. *)
Theorem unconnected_adapter_raises_attribute_error
    (symbol : string) (c : Contract) (w : World) :
  ib (self w) = None →
  contracts (self w) !! symbol = Some c →
  let e := AttributeError "'NoneType' object has no such attribute" in
  subscribe_top_of_book symbol w = (Raise e, w) ∧
  (∀ tickType, subscribe_tick_by_tick symbol tickType w = (Raise e, w)) ∧
  (∀ numRows, subscribe_order_book symbol numRows w = (Raise e, w)) ∧
  (∀ numRows,
     subscribe_smart_depth symbol numRows w =
       (Raise e,
        called [] [warning ("Smart depth not available for " +:+ symbol)] w)) ∧
  (∀ durationStr barSizeSetting whatToShow useRTH,
     request_historical_data symbol durationStr barSizeSetting whatToShow
       useRTH w = (Raise e, w)) ∧
  (∀ reportType, request_fundamental_data symbol reportType w = (Raise e, w)) ∧
  request_fundamental_ratios symbol w = (Raise e, w).
Proof.
  intros Hib Hc. simpl.
  unfold subscribe_top_of_book, subscribe_tick_by_tick, subscribe_order_book,
    subscribe_smart_depth, request_historical_data, request_fundamental_data,
    request_fundamental_ratios.
  rewrite Hc.
  unfold try_except, bind, ib_call, logger_warning, update, called. simpl.
  rewrite ?Hib, ?Hc. simpl. rewrite ?Hib, ?Hc. simpl. rewrite ?Hib.
  repeat split; try done.
  intros numRows. unfold subscribe_order_book, bind, ib_call. simpl.
  rewrite Hc, Hib. do 2 f_equal. destruct w as [a lg ts ev]. simpl in *.
  destruct a; simpl in *. by subst.
Qed.

(** X17. A subscription that the feed refuses leaves nothing behind: when
    the feed raises on the request of [subscribe_top_of_book],
    [subscribe_tick_by_tick] or [subscribe_order_book], the exception
    reaches the caller, and no registry entry, no monitor task, no
    callback and no log line was added; only the request itself was
    made. *)
Theorem refused_subscription_leaves_nothing
    (symbol : string) (c : Contract) (conn : IB) (w : World) :
  contracts (self w) !! symbol = Some c →
  ib (self w) = Some conn →
  (∀ e, answer_ticker feed (calls conn) (reqMktData c) = inl e →
        subscribe_top_of_book symbol w =
          (Raise e, called [reqMktData c] [] w)) ∧
  (∀ tickType e,
     answer_ticker feed (calls conn) (reqTickByTickData c tickType) = inl e →
     subscribe_tick_by_tick symbol tickType w =
       (Raise e, called [reqTickByTickData c tickType] [] w)) ∧
  (∀ numRows e,
     answer_ticker feed (calls conn) (reqMktDepth c numRows false) = inl e →
     subscribe_order_book symbol numRows w =
       (Raise e, called [reqMktDepth c numRows false] [] w)).
Proof.
  intros Hc Hib.
  unfold subscribe_top_of_book, subscribe_tick_by_tick, subscribe_order_book.
  rewrite Hc. unfold bind, ib_call, called. rewrite Hib.
  repeat split; intros; simplify_eq; rewrite ?H, ?H0;
    by rewrite app_nil_r.
Qed.

(** ** Adapter: the four subscriptions of one symbol *)

Lemma dict_get_set_eq {V} k (v : V) d : dict_get k (dict_set k v d) = Some v.
Proof.
  induction d as [ | [k' v'] d IH]; simpl.
  - by rewrite decide_True.
  - destruct (decide (k' = k)) as [-> | Hne]; simpl.
    + by rewrite decide_True.
    + by rewrite decide_False.
Qed.

Lemma dict_get_set_ne {V} k k' (v : V) d :
  k ≠ k' → dict_get k' (dict_set k v d) = dict_get k' d.
Proof.
  intros Hne. induction d as [ | [k2 v2] d IH]; simpl.
  - by rewrite decide_False.
  - destruct (decide (k2 = k)) as [-> | Hne2]; simpl.
    + by rewrite !decide_False.
    + destruct (decide (k2 = k')); [done | apply IH].
Qed.

Lemma append_suffix_ne (s suffix : string) :
  suffix ≠ "" → s +:+ suffix ≠ s.
Proof.
  intros Hne. induction s as [ | a s IH]; simpl.
  - done.
  - intros [= Heq]. by apply IH.
Qed.

Lemma subscribe_tick_by_tick_accepted symbol tickType w c conn ticker :
  contracts (self w) !! symbol = Some c →
  ib (self w) = Some conn →
  answer_ticker feed (calls conn) (reqTickByTickData c tickType) = inr ticker →
  subscribe_tick_by_tick symbol tickType w =
    (Ok (),
     {| self := set_ticker_subs
                  (dict_set (symbol +:+ "_tick_" +:+ tickType) ticker
                     (ticker_subs (self w)))
                  (set_ib (Some {| calls := calls conn ++
                                     [reqTickByTickData c tickType] |})
                     (self w));
        log := log w ++ [info ("Subscribed to tick-by-tick [" +:+ tickType +:+
                               "] for " +:+ symbol)];
        tasks := tasks w ++ [monitor_ticks_task symbol tickType ticker];
        updateEvent := updateEvent w |}).
Proof.
  intros Hc Hib Hans. unfold subscribe_tick_by_tick. rewrite Hc.
  unfold bind, ib_call. by rewrite Hib, Hans.
Qed.

Lemma subscribe_order_book_accepted symbol numRows w c conn ticker :
  contracts (self w) !! symbol = Some c →
  ib (self w) = Some conn →
  answer_ticker feed (calls conn) (reqMktDepth c numRows false) = inr ticker →
  subscribe_order_book symbol numRows w =
    (Ok (),
     {| self := set_l2_depth_subs
                  (dict_set symbol ticker (l2_depth_subs (self w)))
                  (set_ib (Some {| calls := calls conn ++
                                     [reqMktDepth c numRows false] |})
                     (self w));
        log := log w ++ [info ("Subscribed to market depth for " +:+ symbol +:+
                               " (v2)")];
        tasks := tasks w;
        updateEvent := updateEvent w ++ [(ticker, on_depth_update_for symbol)] |}).
Proof.
  intros Hc Hib Hans. unfold subscribe_order_book. rewrite Hc.
  unfold bind, ib_call. by rewrite Hib, Hans.
Qed.

Lemma subscribe_smart_depth_accepted symbol numRows w c conn ticker :
  contracts (self w) !! symbol = Some c →
  ib (self w) = Some conn →
  answer_ticker feed (calls conn) (reqMktDepth c numRows true) = inr ticker →
  subscribe_smart_depth symbol numRows w =
    (Ok (),
     {| self := set_l2_depth_subs
                  (dict_set (symbol +:+ "_smart") ticker
                     (l2_depth_subs (self w)))
                  (set_ib (Some {| calls := calls conn ++
                                     [reqMktDepth c numRows true] |})
                     (self w));
        log := log w ++ [info ("Subscribed to smart (L3) market depth for " +:+
                               symbol)];
        tasks := tasks w;
        updateEvent := updateEvent w ++
                       [(ticker, on_smart_depth_update_for symbol)] |}).
Proof.
  intros Hc Hib Hans. unfold subscribe_smart_depth. rewrite Hc.
  unfold try_except, bind, ib_call. by rewrite Hib, Hans.
Qed.

(** X18. The four subscriptions of one symbol do not overwrite each
    other. After the quote, tick, depth and smart depth subscriptions of
    the same symbol, each accepted by the feed (the sequence of
    [example_run.py]), the quote ticker is registered under the symbol and
    the tick ticker under [symbol_tick_tickType] in [ticker_subs], the
    depth ticker under the symbol and the smart depth ticker under
    [symbol_smart] in [l2_depth_subs]; two monitor tasks were started
    (quotes, ticks) and two callbacks attached (depth, smart depth). *)
Theorem subscriptions_of_one_symbol_coexist
    (symbol tickType : string) (numRows numRows' : Z) (w : World)
    (c : Contract) (conn : IB) (quotes trades depth smart : Ticker) :
  contracts (self w) !! symbol = Some c →
  ib (self w) = Some conn →
  answer_ticker feed (calls conn) (reqMktData c) = inr quotes →
  answer_ticker feed (calls conn ++ [reqMktData c])
    (reqTickByTickData c tickType) = inr trades →
  answer_ticker feed
    (calls conn ++ [reqMktData c; reqTickByTickData c tickType])
    (reqMktDepth c numRows false) = inr depth →
  answer_ticker feed
    (calls conn ++ [reqMktData c; reqTickByTickData c tickType;
                    reqMktDepth c numRows false])
    (reqMktDepth c numRows' true) = inr smart →
  let w' := session [SubscribeTopOfBook symbol;
                     SubscribeTickByTick symbol tickType;
                     SubscribeOrderBook symbol numRows;
                     SubscribeSmartDepth symbol numRows'] w in
  dict_get symbol (ticker_subs (self w')) = Some quotes ∧
  dict_get (symbol +:+ "_tick_" +:+ tickType) (ticker_subs (self w'))
    = Some trades ∧
  dict_get symbol (l2_depth_subs (self w')) = Some depth ∧
  dict_get (symbol +:+ "_smart") (l2_depth_subs (self w')) = Some smart ∧
  tasks w' = tasks w ++ [monitor_task symbol quotes;
                         monitor_ticks_task symbol tickType trades] ∧
  updateEvent w' = updateEvent w ++
                   [(depth, on_depth_update_for symbol);
                    (smart, on_smart_depth_update_for symbol)].
Proof.
  intros Hc Hib Hquotes Htrades Hdepth Hsmart. simpl.
  rewrite (subscribe_top_of_book_accepted _ _ _ _ _ Hc Hib Hquotes). simpl.
  erewrite subscribe_tick_by_tick_accepted; [ | done | done | done ]. simpl.
  erewrite subscribe_order_book_accepted;
    [ | done | done | by rewrite <- app_assoc ]. simpl.
  erewrite subscribe_smart_depth_accepted;
    [ | done | done | by rewrite <- !app_assoc ]. simpl.
  rewrite !dict_get_set_eq.
  rewrite dict_get_set_ne, dict_get_set_eq by (by apply append_suffix_ne).
  rewrite dict_get_set_ne, dict_get_set_eq by (by apply append_suffix_ne).
  by rewrite <- !app_assoc.
Qed.

(** ** Adapter: what the sweep sends and logs *)

Lemma cancel_ticker_sub_log entry w :
  ∃ lg, cancel_ticker_sub entry w =
        (Ok (), called (cancel_request cancelMktData entry) lg w) ∧
        length lg = length (cancel_request cancelMktData entry).
Proof.
  destruct entry as [sym ticker].
  unfold cancel_ticker_sub, try_except, cancel_request. simpl.
  destruct (contract ticker) as [c | ].
  - unfold bind, ib_call, logger_info, logger_warning, update, called.
    destruct w as [a lg ts ev]. simpl.
    destruct (ib a) as [conn | ] eqn:Hib; simpl.
    + destruct (answer_none feed (calls conn) (cancelMktData c)); simpl;
        rewrite ?Hib; by eexists.
    + exists [warning ("Error cancelling market data subscription for " +:+
                       sym)].
      split; [ | done]. do 2 f_equal. destruct a; simpl in *. by subst.
  - exists []. unfold ret. by rewrite called_nil.
Qed.

Lemma cancel_depth_sub_log entry w :
  ∃ lg, cancel_depth_sub entry w =
        (Ok (), called (cancel_request (λ c, cancelMktDepth c false) entry)
                  lg w) ∧
        length lg = length (cancel_request (λ c, cancelMktDepth c false) entry).
Proof.
  destruct entry as [sym ticker].
  unfold cancel_depth_sub, try_except, cancel_request. simpl.
  destruct (contract ticker) as [c | ].
  - unfold bind, ib_call, logger_info, logger_warning, update, called.
    destruct w as [a lg ts ev]. simpl.
    destruct (ib a) as [conn | ] eqn:Hib; simpl.
    + destruct (answer_none feed (calls conn) (cancelMktDepth c false)); simpl;
        rewrite ?Hib; by eexists.
    + exists [warning ("Error cancelling market depth subscription for " +:+
                       sym)].
      split; [ | done]. do 2 f_equal. destruct a; simpl in *. by subst.
  - exists []. unfold ret. by rewrite called_nil.
Qed.

Lemma for_each_called_log {A} (body : A → M unit) (request : A → list FeedCall)
    (l : list A) :
  (∀ x w, ∃ lg, body x w = (Ok (), called (request x) lg w) ∧
                length lg = length (request x)) →
  ∀ w, ∃ lg, for_each l body w = (Ok (), called (l ≫= request) lg w) ∧
             length lg = length (l ≫= request).
Proof.
  intros Hbody. induction l as [ | x l IH]; intros w.
  - exists []. simpl. unfold ret. by rewrite called_nil.
  - cbn [for_each]. rewrite bind_cons. unfold bind at 1.
    destruct (Hbody x w) as (lg1 & -> & Hlen1).
    destruct (IH (called (request x) lg1 w)) as (lg2 & -> & Hlen2).
    exists (lg1 ++ lg2). rewrite called_called. split; [done | ].
    rewrite !length_app. lia.
Qed.

Lemma cleanup_subscriptions_log w :
  ∃ lg, cleanup_subscriptions w =
        (Ok (), cleared (called (sweep_calls (self w)) lg w)) ∧
        length lg = length (sweep_calls (self w)).
Proof.
  unfold cleanup_subscriptions, sweep_calls.
  destruct (for_each_called_log cancel_ticker_sub
              (cancel_request cancelMktData)
              (ticker_subs (self w)) cancel_ticker_sub_log w)
    as (lg1 & H1 & Hlen1).
  destruct (for_each_called_log cancel_depth_sub
              (cancel_request (λ c, cancelMktDepth c false))
              (l2_depth_subs (self w)) cancel_depth_sub_log
              (called (ticker_subs (self w) ≫= cancel_request cancelMktData)
                 lg1 w)) as (lg2 & H2 & Hlen2).
  exists (lg1 ++ lg2).
  unfold bind at 1. rewrite H1.
  unfold bind at 1. simpl in *. rewrite H2.
  rewrite called_called. split; [done | ]. rewrite !length_app. lia.
Qed.

Lemma sweep_calls_are_cancels a : forallb is_sweep_cancel (sweep_calls a) = true.
Proof.
  unfold sweep_calls. rewrite forallb_app. apply andb_true_iff. split.
  - induction (ticker_subs a) as [ | [sym ticker] d IH]; [done | ].
    rewrite bind_cons, forallb_app, IH, andb_true_r.
    unfold cancel_request. simpl. by destruct (contract ticker).
  - induction (l2_depth_subs a) as [ | [sym ticker] d IH]; [done | ].
    rewrite bind_cons, forallb_app, IH, andb_true_r.
    unfold cancel_request. simpl. by destruct (contract ticker).
Qed.

(** X19. The sweep only cancels, and always in the same two ways: every
    call [cleanup_subscriptions] makes on the connection is
    [cancelMktData] (also for the tick-by-tick entries of [ticker_subs])
    or [cancelMktDepth] with [isSmartDepth=False] (also for the entries
    made by [subscribe_smart_depth]); it never cancels with
    [isSmartDepth=True]. It logs exactly one line per call it attempts,
    whether the call was accepted, raised, or could not be made for want
    of a connection. *)
Theorem cleanup_only_cancels (w : World) :
  let w' := (cleanup_subscriptions w).2 in
  ∃ added,
    calls_of w' = calls_of w ++ added ∧
    forallb is_sweep_cancel added = true ∧
    log w `prefix_of` log w' ∧
    length (log w') = (length (log w) + length (sweep_calls (self w)))%nat.
Proof.
  destruct (cleanup_subscriptions_log w) as (lg & -> & Hlen). simpl.
  exists (match ib (self w) with
          | Some _ => sweep_calls (self w)
          | None => []
          end).
  unfold calls_of. simpl.
  split; [by destruct (ib (self w)) | ].
  split; [destruct (ib (self w)); [apply sweep_calls_are_cancels | done] | ].
  split; [by apply prefix_app_r | ].
  rewrite length_app. lia.
Qed.

(** X20. [disconnect] does not forget the connection: after a first
    [disconnect] the adapter still holds the connection object, so a
    second [disconnect] runs again, finds both registries empty, makes no
    cancel request and calls the connection's [disconnect] a second
    time. *)
Theorem disconnect_twice_disconnects_twice (w : World) (conn : IB) :
  ib (self w) = Some conn →
  let w1 := (disconnect w).2 in
  let w2 := (disconnect w1).2 in
  ib (self w1) =
    Some {| calls := calls conn ++ sweep_calls (self w) ++ [ib_disconnect] |} ∧
  calls_of w2 =
    calls conn ++ sweep_calls (self w) ++ [ib_disconnect; ib_disconnect] ∧
  ticker_subs (self w2) = [] ∧
  l2_depth_subs (self w2) = [].
Proof.
  intros Hib. simpl.
  destruct (disconnect_connected_spec w conn Hib) as [lg Hfirst].
  assert (Hib1 : ib (self (disconnect w).2) =
                 Some {| calls := calls conn ++ sweep_calls (self w) ++
                                  [ib_disconnect] |}).
  { rewrite Hfirst.
    destruct (answer_none feed (calls conn ++ sweep_calls (self w))
                ib_disconnect); simpl; rewrite Hib; simpl;
      by rewrite <- !app_assoc. }
  assert (Hsubs1 : ticker_subs (self (disconnect w).2) = [] ∧
                   l2_depth_subs (self (disconnect w).2) = []).
  { rewrite Hfirst.
    by destruct (answer_none feed (calls conn ++ sweep_calls (self w))
                   ib_disconnect). }
  destruct Hsubs1 as [Hsubs1 Hdepth1].
  split; [done | ].
  remember (disconnect w).2 as w1 eqn:Hw1. clear Hfirst Hw1.
  destruct (disconnect_connected_spec _ _ Hib1) as [lg2 Hsecond].
  assert (Hsweep1 : sweep_calls (self w1) = [])
    by (unfold sweep_calls; by rewrite Hsubs1, Hdepth1).
  rewrite Hsweep1 in Hsecond. rewrite Hsecond. unfold calls_of.
  destruct (answer_none feed _ ib_disconnect); simpl; rewrite Hib1; simpl;
    rewrite ?app_nil_r, <- ?app_assoc; by simpl.
Qed.

(** ** Adapter: requests *)

Lemma historical_bars_built (bars : list BarData) built :
  historical_bars bars = inr built →
  Forall2 (λ bar b, historical_bar bar = inr b) bars built.
Proof.
  revert built. induction bars as [ | bar bars IH]; intros built;
    cbn [historical_bars].
  - intros [= <-]. constructor.
  - destruct (historical_bar bar) as [e | b] eqn:Hbar; [done | ].
    destruct (historical_bars bars) as [e | bs]; [done | ].
    intros [= <-]. constructor; [done | by apply IH].
Qed.

Lemma historical_bars_refused (bars : list BarData) e :
  historical_bars bars = inl e →
  e = ValidationError "volume" ∧
  ∃ bar, bar ∈ bars ∧ int_of_float (bar_data_volume bar) = None.
Proof.
  induction bars as [ | bar bars IH]; cbn [historical_bars]; [done | ].
  destruct (historical_bar bar) as [e' | b] eqn:Hbar.
  - intros [= <-]. unfold historical_bar in Hbar.
    destruct (int_of_float (bar_data_volume bar)) eqn:Hvolume; [done | ].
    injection Hbar as <-. split; [done | ]. exists bar.
    split; [by left | done].
  - destruct (historical_bars bars) as [e' | bs]; [ | done].
    intros [= <-]. destruct (IH eq_refl) as (He & bar' & Hin & Hvolume).
    split; [done | ]. exists bar'. split; [by right | done].
Qed.

(** X21. [request_historical_data] for a registered symbol on a connected
    adapter always makes its request first. If the feed raises, the
    exception reaches the caller and the queue is untouched. If the feed
    answers and the integer field [volume] refuses the volume of one of
    the bars, the call raises the validation error and the queue is
    untouched: the bars built before that one are lost with it. If every
    bar is built and the queue is full, the call is left parked in [put]
    with nothing queued. Otherwise it returns with exactly one message
    appended at the end of the queue: a [historical_data] response for
    the requested symbol holding one bar per bar of the answer, in the
    same order, each built from the bar at its rank. Registries, tasks
    and callbacks are never touched. *)
Theorem request_historical_data_outcomes
    (symbol durationStr barSizeSetting whatToShow : string) (useRTH : bool)
    (c : Contract) (conn : IB) (w : World) :
  contracts (self w) !! symbol = Some c →
  ib (self w) = Some conn →
  let request := reqHistoricalDataAsync c durationStr barSizeSetting
                   whatToShow useRTH in
  let r := request_historical_data symbol durationStr barSizeSetting
             whatToShow useRTH w in
  calls_of r.2 = calls conn ++ [request] ∧
  ticker_subs (self r.2) = ticker_subs (self w) ∧
  l2_depth_subs (self r.2) = l2_depth_subs (self w) ∧
  tasks r.2 = tasks w ∧
  updateEvent r.2 = updateEvent w ∧
  match answer_bars feed (calls conn) request with
  | inl e => r.1 = Raise e ∧ queue (self r.2) = queue (self w)
  | inr bars =>
      match historical_bars bars with
      | inl e =>
          r.1 = Raise (ValidationError "volume") ∧
          queue (self r.2) = queue (self w) ∧
          ∃ bar, bar ∈ bars ∧ int_of_float (bar_data_volume bar) = None
      | inr built_bars =>
          Forall2 (λ bar b, historical_bar bar = inr b) bars built_bars ∧
          if full (queue (self w))
          then r.1 = Parked ∧ queue (self r.2) = queue (self w)
          else r.1 = Ok () ∧
               maxsize (queue (self r.2)) = maxsize (queue (self w)) ∧
               items (queue (self r.2)) =
                 items (queue (self w)) ++
                 [MsgHistoricalData
                    {| hist_event_type := "historical_data";
                       hist_symbol := symbol;
                       hist_bars := built_bars |}]
      end
  end.
Proof.
  intros Hc Hib. simpl. unfold request_historical_data. rewrite Hc.
  unfold bind, ib_call, queue_put, calls_of. rewrite Hib.
  destruct (answer_bars feed (calls conn)
              (reqHistoricalDataAsync c durationStr barSizeSetting whatToShow
                 useRTH)) as [e | bars]; simpl.
  - by rewrite ?Hib.
  - destruct (historical_bars bars) as [e | built_bars] eqn:Hbars.
    + destruct (historical_bars_refused _ _ Hbars) as [-> Hbar].
      simpl. rewrite ?Hib. by repeat split.
    + pose proof (historical_bars_built _ _ Hbars) as Hbuilt. simpl.
      destruct (full (queue (self w))); simpl; rewrite ?Hib; simpl;
        by repeat split.
Qed.

(** X22. [request_fundamental_ratios] is [request_fundamental_data] with
    the report type [FinRatios]: both make the same request, have the same
    outcome (the feed's exception, parked on a full queue, or success),
    and on success each appends one message carrying the feed's answer
    unchanged; the messages differ only in their type, and the ratios
    message does not record a report type. *)
Theorem request_fundamental_ratios_is_finratios_report
    (symbol : string) (c : Contract) (conn : IB) (w : World) :
  contracts (self w) !! symbol = Some c →
  ib (self w) = Some conn →
  let request := reqFundamentalDataAsync c "FinRatios" in
  let r := request_fundamental_ratios symbol w in
  let r' := request_fundamental_data symbol "FinRatios" w in
  r.1 = r'.1 ∧
  calls_of r.2 = calls conn ++ [request] ∧
  calls_of r'.2 = calls conn ++ [request] ∧
  match answer_data feed (calls conn) request with
  | inl e => r.1 = Raise e ∧ queue (self r.2) = queue (self w)
  | inr data =>
      if full (queue (self w))
      then r.1 = Parked ∧ queue (self r.2) = queue (self w)
      else r.1 = Ok () ∧
           items (queue (self r.2)) =
             items (queue (self w)) ++
             [MsgFundamentalRatios
                {| ratios_event_type := "fundamental_ratios";
                   ratios_symbol := symbol;
                   ratios_data := data |}] ∧
           items (queue (self r'.2)) =
             items (queue (self w)) ++
             [MsgFundamentalData
                {| fund_event_type := "fundamental_data";
                   fund_symbol := symbol;
                   fund_report_type := "FinRatios";
                   fund_data := data |}]
  end.
Proof.
  intros Hc Hib. simpl.
  unfold request_fundamental_ratios, request_fundamental_data. rewrite Hc.
  unfold bind, ib_call, queue_put, calls_of. rewrite Hib.
  destruct (answer_data feed (calls conn)
              (reqFundamentalDataAsync c "FinRatios")) as [e | data]; simpl.
  - by rewrite ?Hib.
  - destruct (full (queue (self w))); simpl; rewrite ?Hib; simpl;
      by repeat split.
Qed.

(** ** Tick monitor: where every entry is sent exactly once *)

Lemma sent_up_to_cursor_all symbol tickType st :
  sent_up_to_cursor symbol tickType st →
  (ended st = None → last_processed_count st = length (ticks st)) →
  tick_messages symbol tickType (ticks st) = (sent st, ended st).
Proof.
  intros [_ Hsent] Hcur. destruct (ended st) as [e | ]; [done | ].
  by rewrite Hcur, firstn_all in Hsent.
Qed.

(** X23. On an unbounded queue ([queue_maxsize <= 0]) the tick monitor is
    never parked, and over a list that only grows it is exact up to the
    first entry whose message cannot be built: whatever the rest of the
    event loop does, after any positive number of poll cycles the
    messages sent are those of the entries of the list before that entry,
    one each and in list order, and the task has ended with the exception
    of that entry. When the message of every entry can be built the task
    is still running, the messages sent are the entries of the list, one
    each and in list order, and the cursor is the list length. *)
Theorem tick_monitor_exact_on_unbounded_queue
    (symbol tickType : string) (sleeps env : list EnvTurn)
    (q : Queue) (l : list Tick) :
  maxsize q ≤ 0 →
  Forall grows_only sleeps →
  sleeps ≠ [] →
  ∃ st',
    monitor_ticks_from symbol tickType sleeps env (monitor_ticks_start q l)
      = Some (st', env) ∧
    tick_messages symbol tickType (ticks st') = (sent st', ended st') ∧
    (∀ e, ended st' = Some e →
          ∃ tick, tick ∈ ticks st' ∧ tick_message symbol tickType tick = inl e) ∧
    (ended st' = None →
     last_processed_count st' = length (ticks st') ∧
     inr <$> sent st' = tick_message symbol tickType <$> ticks st').
Proof.
  intros Hmax Hsleeps Hne.
  destruct (monitor_ticks_no_gap_on_unbounded_queue symbol tickType sleeps env
              q l Hmax Hsleeps Hne) as (st' & Hrun & Hinv & Hfinal).
  exists st'. split; [done | ].
  assert (Hall : tick_messages symbol tickType (ticks st')
                 = (sent st', ended st')).
  { apply sent_up_to_cursor_all; [done | ]. intros Hnone.
    by apply Hfinal. }
  split; [done | ]. split; [ | done].
  intros e He. apply tick_messages_raised. by rewrite Hall.
Qed.

(** X24. On a bounded queue the tick monitor is exact, up to the first
    entry whose message cannot be built, as long as the feed appends
    nothing while the monitor is parked in a [put]: over a list that only
    grows during the sleeps, a run of poll cycles that completes has sent
    the messages of the entries of the list before that entry, one each
    and in list order, and has ended with the exception of that entry.
    When the message of every entry can be built the task is still
    running, every entry of the list has been sent exactly once, in list
    order, and the cursor is the list length. *)
Theorem tick_monitor_exact_when_parked_puts_are_quiet
    (symbol tickType : string) (sleeps env : list EnvTurn)
    (q : Queue) (l : list Tick) (st' : TickMonitor) (env' : list EnvTurn) :
  Forall grows_only sleeps →
  Forall quiet env →
  sleeps ≠ [] →
  monitor_ticks_from symbol tickType sleeps env (monitor_ticks_start q l)
    = Some (st', env') →
  tick_messages symbol tickType (ticks st') = (sent st', ended st') ∧
  (∀ e, ended st' = Some e →
        ∃ tick, tick ∈ ticks st' ∧ tick_message symbol tickType tick = inl e) ∧
  (ended st' = None →
   last_processed_count st' = length (ticks st') ∧
   inr <$> sent st' = tick_message symbol tickType <$> ticks st').
Proof.
  intros Hsleeps Henv Hne Hrun.
  destruct (monitor_ticks_no_gap_when_puts_are_quiet symbol tickType sleeps
              env (monitor_ticks_start q l) st' env' Hsleeps Henv)
    as [Hinv Hfinal]; [ | done | ].
  { split; simpl; [lia | done]. }
  assert (Hall : tick_messages symbol tickType (ticks st')
                 = (sent st', ended st')).
  { apply sent_up_to_cursor_all; [done | ]. intros Hnone.
    by apply Hfinal. }
  split; [done | ]. split; [ | by apply Hfinal].
  intros e He. apply tick_messages_raised. by rewrite Hall.
Qed.

End Model.

(* ===================================================================== *)
(** * Part 5: the properties on sample runs *)
(* ===================================================================== *)

(** In the runs below floats and datetimes are integers. Where the
    validation of a float by an integer field is [Some], floats are whole
    numbers and every one is accepted; where it is [whole], floats are
    counted in hundredths and only the whole ones are accepted. *)

Abbreviation quoted := (quoted_ticker (Float := Z) (DateTime := Z)) (only parsing).
Abbreviation silent c :=
  (quiet_ticker (Float := Z) (DateTime := Z) (Some c)) (only parsing).
Abbreviation no_ticker :=
  (quiet_ticker (Float := Z) (DateTime := Z) None) (only parsing).

(** The scenario of the specification: bid 150.25 / ask 150.26, then the
    same, then bid 150.30: two messages, the second with the new bid. *)
Example quote_scenario :
  emitted (monitor (Float := Z) (DateTime := Z) Some
             [quoted aapl 15025 15026;
              quoted aapl 15025 15026;
              quoted aapl 15030 15026]) =
  [quoted_snapshot "AAPL" 15025 15026; quoted_snapshot "AAPL" 15030 15026].
Proof. vm_compute. reflexivity. Qed.

(** The scenario of the specification: the list grows 0, 3, 3, 7 over
    three polls on a queue with room: seven messages, cursor 7. *)
Example tick_scenario :
  ∃ st,
    monitor_ticks_from (Float := Z) (DateTime := Z) Some "PLTR" "Last"
      [ {| feed_reset := None; feed_appended := trade <$> [1; 2; 3];
           queue_after := [] |};
        {| feed_reset := None; feed_appended := []; queue_after := [] |};
        {| feed_reset := None; feed_appended := trade <$> [4; 5; 6; 7];
           queue_after := [] |} ] []
      (monitor_ticks_start {| maxsize := 10000; items := [] |} [])
      = Some (st, []) ∧
    sent st = trade_message "PLTR" "tick_by_tick_last" <$> [1; 2; 3; 4; 5; 6; 7] ∧
    last_processed_count st = 7%nat ∧
    ended st = None ∧
    inr <$> sent st = tick_message Some "PLTR" "Last" <$> ticks st.
Proof.
  eexists. split; [vm_compute; reflexivity | ].
  vm_compute. by repeat split.
Qed.

(** A tick monitor of bid and ask ticks ends on the first tick it polls:
    that kind of tick has no attribute [price]. Nothing was sent, and no
    later poll runs. *)
Example tick_monitor_ends_on_bid_ask_tick :
  monitor_ticks_from (Float := Z) (DateTime := Z) Some "PLTR" "BidAsk"
    [ {| feed_reset := None; feed_appended := [bid_ask_tick];
         queue_after := [] |};
      {| feed_reset := None; feed_appended := [bid_ask_tick];
         queue_after := [] |} ] []
    (monitor_ticks_start {| maxsize := 10000; items := [] |} [])
  = Some ({| last_processed_count := 0;
             ticks := [bid_ask_tick];
             out_queue := {| maxsize := 10000; items := [] |};
             sent := [];
             ended := Some (AttributeError "price") |}, []).
Proof. vm_compute. reflexivity. Qed.

(** A tick monitor of trades ends on the first trade whose size is not a
    whole number: here 1 share, then 2.5 shares, then 3 shares. The first
    message was sent, the third trade is never processed. *)
Example tick_monitor_ends_on_fractional_size :
  monitor_ticks_from (Float := Z) (DateTime := Z) whole "PLTR" "Last"
    [ {| feed_reset := None; feed_appended := trade <$> [100; 250; 300];
         queue_after := [] |} ] []
    (monitor_ticks_start {| maxsize := 10000; items := [] |} [])
  = Some ({| last_processed_count := 0;
             ticks := trade <$> [100; 250; 300];
             out_queue :=
               {| maxsize := 10000;
                  items := [MsgTickByTick
                              (trade_message "PLTR" "tick_by_tick_last" 1)] |};
             sent := [trade_message "PLTR" "tick_by_tick_last" 1];
             ended := Some (ValidationError "size") |}, []).
Proof. vm_compute. reflexivity. Qed.

Lemma quote_monitor_emits_iff_changed_witness :
  read_snapshot (Float := Z) (DateTime := Z) Some
    (quoted aapl 15030 15026) = inr (quoted_snapshot "AAPL" 15030 15026) ∧
  Forall (λ ticker',
            read_snapshot (Float := Z) (DateTime := Z) Some ticker' =
              inr (quoted_snapshot "AAPL" 15030 15026))
    [quoted aapl 15030 15026; quoted aapl 15030 15026] ∧
  last_emitted (monitor Some [quoted aapl 15025 15026])
    ≠ Some (quoted_snapshot "AAPL" 15030 15026) ∧
  emitted (monitor Some
             ([quoted aapl 15025 15026] ++
              quoted aapl 15030 15026 ::
              [quoted aapl 15030 15026; quoted aapl 15030 15026])) =
    emitted (monitor Some [quoted aapl 15025 15026]) ++
    [quoted_snapshot "AAPL" 15030 15026].
Proof.
  assert (Hread : read_snapshot (Float := Z) (DateTime := Z) Some
                    (quoted aapl 15030 15026) =
                  inr (quoted_snapshot "AAPL" 15030 15026))
    by (vm_compute; reflexivity).
  assert (Hrun : Forall (λ ticker',
                    read_snapshot (Float := Z) (DateTime := Z) Some ticker' =
                      inr (quoted_snapshot "AAPL" 15030 15026))
                   [quoted aapl 15030 15026;
                    quoted aapl 15030 15026])
    by (repeat constructor; exact Hread).
  assert (Hne : last_emitted (Float := Z) (DateTime := Z)
                  (monitor Some [quoted aapl 15025 15026])
                ≠ Some (quoted_snapshot "AAPL" 15030 15026))
    by (vm_compute; discriminate).
  split; [exact Hread | ]. split; [exact Hrun | ]. split; [exact Hne | ].
  exact (proj2 (proj2 (proj2
           (quote_monitor_emits_iff_changed Some
              [quoted aapl 15025 15026]
              (quoted aapl 15030 15026)
              (quoted_snapshot "AAPL" 15030 15026)
              [quoted aapl 15030 15026; quoted aapl 15030 15026]
              Hread Hrun))) Hne).
Defined.

Lemma first_snapshot_always_emitted_witness :
  Forall (λ ticker', read_fails (Float := Z) (DateTime := Z) Some ticker' = true)
    [no_ticker] ∧
  read_snapshot (Float := Z) (DateTime := Z) Some ((silent pltr))
    = inr (unknown_snapshot "PLTR") ∧
  emitted (monitor Some ([no_ticker] ++ [(silent pltr)]))
    = [unknown_snapshot "PLTR"].
Proof.
  assert (Hfailed : Forall (λ ticker',
                       read_fails (Float := Z) (DateTime := Z) Some ticker' = true)
                      [no_ticker])
    by (repeat constructor).
  assert (Hread : read_snapshot (Float := Z) (DateTime := Z) Some
                    ((silent pltr)) = inr (unknown_snapshot "PLTR"))
    by (vm_compute; reflexivity).
  split; [exact Hfailed | ]. split; [exact Hread | ].
  exact (proj1 (proj2
           (first_snapshot_always_emitted Some [no_ticker]
              ((silent pltr)) [] (unknown_snapshot "PLTR") pltr
              Hfailed Hread))).
Defined.

(** C2, the statement of the specification, fails: the list was replaced
    by a one element list while the cursor was 3; the poll emits nothing,
    the entry is not processed. *)
Lemma shrink_resets_cursor_fails :
  ¬ shrink_resets_cursor (Float := Z) (DateTime := Z) Some "PLTR" "Last" []
      (sample_after_reset Some [trade 1; trade 2; trade 3] [trade 7]).
Proof.
  intros Hclaim.
  destruct Hclaim as (st' & env' & Hcycle & Hsent & _); [simpl; lia | ].
  vm_compute in Hcycle. injection Hcycle as <- <-.
  vm_compute in Hsent. discriminate Hsent.
Qed.

Abbreviation after_reset :=
  (sample_after_reset (Float := Z) (DateTime := Z) Some
     [trade 1; trade 2; trade 3] [trade 7]) (only parsing).

Lemma shrunk_list_is_ignored_witness :
  (length (ticks after_reset) < last_processed_count after_reset)%nat ∧
  monitor_ticks_cycle Some "PLTR" "Last" [] after_reset =
    Some (after_reset, []).
Proof.
  split; [simpl; lia | ].
  apply (shrunk_list_is_ignored Some "PLTR" "Last" [] after_reset).
  simpl. lia.
Defined.

(** C3, where the code departs from the specification. The queue is
    full; the poll finds one new trade and parks in [put]; the feed
    appends a second trade before a consumer makes room; line 141 then
    sets the cursor to the new length 2. The second trade is in the list,
    below the cursor, and was never sent, and no later poll sends it. The
    message of every trade can be built and the task is running
    throughout. *)
Theorem tick_appended_during_put_is_skipped :
  ∃ st,
    monitor_ticks_from (Float := Z) (DateTime := Z) Some "PLTR" "Last"
      (sample_sleeps Some (trade 1)) (sample_parked [trade 2])
      (monitor_ticks_start sample_full_queue [])
      = Some (st, []) ∧
    Forall grows_only (sample_sleeps (Float := Z) (DateTime := Z) Some (trade 1)) ∧
    ticks st = [trade 1; trade 2] ∧
    tick_message Some "PLTR" "Last" <$> ticks st =
      inr <$> (trade_message "PLTR" "tick_by_tick_last" <$> [1; 2]) ∧
    sent st = [trade_message "PLTR" "tick_by_tick_last" 1] ∧
    inr <$> sent st ≠ tick_message Some "PLTR" "Last" <$> ticks st ∧
    ended st = None ∧
    last_processed_count st = 2%nat ∧
    (∀ more env waiting,
       Forall quiet more →
       ∃ st', monitor_ticks_from Some "PLTR" "Last" more env
                {| last_processed_count := last_processed_count st;
                   ticks := ticks st;
                   out_queue := {| maxsize := 1; items := waiting |};
                   sent := sent st;
                   ended := ended st |} = Some (st', env) ∧
              sent st' = sent st ∧
              ended st' = None).
Proof.
  eexists. split; [by vm_compute | ]. simpl.
  split; [by repeat constructor | ].
  split; [done | ]. split; [done | ]. split; [done | ]. split; [done | ].
  split; [done | ]. split; [done | ].
  intros more. induction more as [ | turn more IH]; intros env waiting Hquiet.
  - by eexists.
  - apply Forall_cons in Hquiet as [[Hreset Happ] Hquiet].
    destruct turn as [rs ap qa]. simpl in Hreset, Happ. subst rs ap.
    cbn [monitor_ticks_from]. unfold wake, feed_turn. simpl.
    unfold monitor_ticks_cycle. simpl.
    apply (IH env qa Hquiet).
Qed.

(** ** Depth callback *)

(** A ladder of three bids and one ask whose second bid has a size of
    2.5, and the same ladder with a size of 2 there. *)
Abbreviation fractional_ladder :=
  (ladder (Float := Z) (DateTime := Z) pltr
     [ {| level_price := 15025; level_size := 500 |};
       {| level_price := 15024; level_size := 250 |};
       {| level_price := 15023; level_size := 300 |} ]
     [ {| level_price := 15026; level_size := 400 |} ]) (only parsing).
Abbreviation whole_ladder :=
  (ladder (Float := Z) (DateTime := Z) pltr
     [ {| level_price := 15025; level_size := 500 |};
       {| level_price := 15024; level_size := 200 |};
       {| level_price := 15023; level_size := 300 |} ]
     [ {| level_price := 15026; level_size := 400 |} ]) (only parsing).


Example depth_update_sample_run :
  on_depth_update whole "PLTR" fractional_ladder =
    ([ {| md_event_type := "market_depth"; md_symbol := "PLTR";
          md_position := 0; md_operation := 1; md_side := 0;
          md_price := 15025; md_size := 5 |} ],
     Some (ValidationError "size")) ∧
  on_smart_depth_update whole "PLTR" fractional_ladder =
    on_depth_update whole "PLTR" fractional_ladder.
Proof. vm_compute. by split. Qed.



Example depth_update_full_run :
  on_depth_update whole "PLTR" whole_ladder =
    ([ {| md_event_type := "market_depth"; md_symbol := "PLTR";
          md_position := 0; md_operation := 1; md_side := 0;
          md_price := 15025; md_size := 5 |};
       {| md_event_type := "market_depth"; md_symbol := "PLTR";
          md_position := 1; md_operation := 1; md_side := 0;
          md_price := 15024; md_size := 2 |};
       {| md_event_type := "market_depth"; md_symbol := "PLTR";
          md_position := 2; md_operation := 1; md_side := 0;
          md_price := 15023; md_size := 3 |};
       {| md_event_type := "market_depth"; md_symbol := "PLTR";
          md_position := 0; md_operation := 1; md_side := 1;
          md_price := 15026; md_size := 4 |} ],
     None).
Proof. vm_compute. reflexivity. Qed.

(** ** Adapter *)

Abbreviation plain := (plain_feed (Float := Z) (DateTime := Z)) (only parsing).
Abbreviation depthless :=
  (feed_without_depth (Float := Z) (DateTime := Z)) (only parsing).

(** C1, the statement of the specification, fails: after connect, one
    contract and one quote subscription, [disconnect] empties the
    registries and cancels before it disconnects, but the quote monitor
    task is still among the running tasks. *)
Lemma disconnect_leaves_monitor_running :
  ¬ disconnect_stops_everything plain (sample_subscribed plain).
Proof.
  unfold disconnect_stops_everything.
  intros (_ & _ & Htasks & _).
  vm_compute in Htasks. discriminate Htasks.
Qed.

Example disconnect_sample_run :
  tasks (disconnect plain (sample_subscribed plain)).2 =
    [monitor_task "PLTR" (silent pltr)] ∧
  calls_of (disconnect plain (sample_subscribed plain)).2 =
    [connectAsync "127.0.0.1" 7497 1; reqMktData pltr; cancelMktData pltr;
     ib_disconnect] ∧
  ticker_subs (self (disconnect plain (sample_subscribed plain)).2) = [].
Proof. vm_compute. by repeat split. Qed.

Lemma unknown_symbol_fails_first_witness :
  contracts (self (sample_connected plain)) !! "AAPL" = None ∧
  subscribe_top_of_book plain "AAPL" (sample_connected plain) =
    (Raise (ValueError
              "Symbol AAPL not defined. Call define_contracts first."),
     sample_connected plain) ∧
  request_fundamental_ratios plain "AAPL" (sample_connected plain) =
    (Raise (ValueError "Symbol AAPL not defined."), sample_connected plain).
Proof.
  assert (Hnone : contracts (self (sample_connected plain)) !! "AAPL" = None)
    by (vm_compute; reflexivity).
  split; [exact Hnone | ]. split.
  - exact (proj1 (unknown_symbol_fails_first Some plain "AAPL"
                    (sample_connected plain) Hnone)).
  - exact (proj2 (proj2 (proj2 (proj2 (proj2 (proj2
             (unknown_symbol_fails_first Some plain "AAPL"
                (sample_connected plain) Hnone))))))).
Defined.

(** C7, the statement of the specification, fails: on a feed that has no
    market depth at all, the smart request is refused, the fallback
    request is refused as well, and the caller gets that exception. *)
Lemma smart_depth_fallback_can_fail :
  ¬ smart_depth_never_fails depthless "PLTR" 10 (sample_connected depthless).
Proof.
  intros Hclaim.
  specialize (Hclaim pltr {| calls := [connectAsync "127.0.0.1" 7497 1] |}
                (FeedError "no market depth")).
  assert (Hrun : (subscribe_smart_depth depthless "PLTR" 10
                    (sample_connected depthless)).1 =
                 Raise (FeedError "no market depth"))
    by (vm_compute; reflexivity).
  rewrite Hrun in Hclaim.
  assert (Hok : Raise (FeedError "no market depth") = Ok ()).
  { apply Hclaim; vm_compute; reflexivity. }
  discriminate Hok.
Qed.

Lemma smart_depth_falls_back_to_order_book_witness :
  contracts (self (sample_connected depthless)) !! "PLTR" = Some pltr ∧
  ib (self (sample_connected depthless)) =
    Some {| calls := [connectAsync "127.0.0.1" 7497 1] |} ∧
  answer_ticker depthless [connectAsync "127.0.0.1" 7497 1]
    (reqMktDepth pltr 10 true) = inl (FeedError "no market depth") ∧
  subscribe_smart_depth depthless "PLTR" 10 (sample_connected depthless) =
    subscribe_order_book depthless "PLTR" 10
      (called [reqMktDepth pltr 10 true]
         [warning "Smart depth not available for PLTR"]
         (sample_connected depthless)).
Proof.
  assert (Hc : contracts (self (sample_connected depthless)) !! "PLTR"
               = Some pltr) by (vm_compute; reflexivity).
  assert (Hib : ib (self (sample_connected depthless)) =
                Some {| calls := [connectAsync "127.0.0.1" 7497 1] |})
    by (vm_compute; reflexivity).
  assert (Hsmart : answer_ticker depthless
                     (calls {| calls := [connectAsync "127.0.0.1" 7497 1] |})
                     (reqMktDepth pltr 10 true)
                   = inl (FeedError "no market depth")) by reflexivity.
  split; [exact Hc | ]. split; [exact Hib | ]. split; [exact Hsmart | ].
  exact (proj1 (smart_depth_falls_back_to_order_book depthless "PLTR" 10
                  (sample_connected depthless) pltr
                  {| calls := [connectAsync "127.0.0.1" 7497 1] |}
                  (FeedError "no market depth") Hc Hib Hsmart)).
Defined.

(** C8, the statement of the specification, fails: the second
    subscription overwrites the registry entry and starts a second
    monitor, and the first monitor is still running. *)
Lemma resubscribe_leaks_first_monitor :
  ¬ resubscribe_does_not_leak plain "PLTR" (sample_connected plain).
Proof.
  unfold resubscribe_does_not_leak.
  intros (_ & Hmonitors).
  vm_compute in Hmonitors. discriminate Hmonitors.
Qed.

Lemma resubscribe_overwrites_entry_keeps_first_monitor_witness :
  contracts (self (sample_connected plain)) !! "PLTR" = Some pltr ∧
  NoDup (ticker_subs (self (sample_connected plain))).*1 ∧
  tasks (subscribe_top_of_book plain "PLTR"
           (subscribe_top_of_book plain "PLTR" (sample_connected plain)).2).2 =
    tasks (sample_connected plain) ++
    [monitor_task "PLTR" (silent pltr); monitor_task "PLTR" (silent pltr)].
Proof.
  assert (Hc : contracts (self (sample_connected plain)) !! "PLTR" = Some pltr)
    by (vm_compute; reflexivity).
  assert (Hib : ib (self (sample_connected plain)) =
                Some {| calls := [connectAsync "127.0.0.1" 7497 1] |})
    by (vm_compute; reflexivity).
  assert (Hnodup : NoDup (ticker_subs (self (sample_connected plain))).*1)
    by (vm_compute; constructor).
  split; [exact Hc | ]. split; [exact Hnodup | ].
  exact (proj1 (proj2 (proj2
           (resubscribe_overwrites_entry_keeps_first_monitor plain "PLTR"
              (sample_connected plain) pltr
              {| calls := [connectAsync "127.0.0.1" 7497 1] |}
              (silent pltr) (silent pltr)
              Hc Hib eq_refl eq_refl Hnodup)))).
Defined.

(** C9, the statement of the specification, fails: for a registry entry
    whose ticker has no contract the sweep makes no cancel request; the
    entry is only dropped. *)
Lemma sweep_skips_entry_without_contract :
  ¬ sweep_attempts_every_entry plain sample_orphan_entry.
Proof.
  unfold sweep_attempts_every_entry.
  destruct (cleanup_subscriptions plain sample_orphan_entry) as [r w'] eqn:Hrun.
  intros (_ & _ & _ & Hcalls).
  assert (Hw' : w' = (cleanup_subscriptions plain sample_orphan_entry).2)
    by (by rewrite Hrun).
  rewrite Hw' in Hcalls. vm_compute in Hcalls. discriminate Hcalls.
Qed.

(** ** Further sample runs *)

Abbreviation connected := (sample_connected plain) (only parsing).
Abbreviation first_call := (connectAsync "127.0.0.1" 7497 1) (only parsing).
Abbreviation aapl_snapshot :=
  (quoted_snapshot (Float := Z) (DateTime := Z) "AAPL" 15025 15026)
  (only parsing).

Lemma quote_monitor_ignores_other_fields_witness :
  quote_fields (Float := Z) (DateTime := Z)
    {| contract := Some (Stock "AAPL" "ISLAND" "USD");
       bid := RawVal 15025; ask := RawVal 15026; last := RawNone;
       volume := RawNone; time := None;
       tickByTicks := [trade 1]; domBids := []; domAsks := [] |} =
  quote_fields (quoted aapl 15025 15026) ∧
  emitted (monitor Some
             ([] ++ [quoted aapl 15025 15026;
                     {| contract := Some (Stock "AAPL" "ISLAND" "USD");
                        bid := RawVal 15025; ask := RawVal 15026;
                        last := RawNone; volume := RawNone; time := None;
                        tickByTicks := [trade 1]; domBids := [];
                        domAsks := [] |}])) =
  emitted (monitor Some ([] ++ [quoted aapl 15025 15026])).
Proof.
  split; [reflexivity | ].
  exact (quote_monitor_ignores_other_fields Some [] (quoted aapl 15025 15026)
           {| contract := Some (Stock "AAPL" "ISLAND" "USD");
              bid := RawVal 15025; ask := RawVal 15026; last := RawNone;
              volume := RawNone; time := None;
              tickByTicks := [trade 1]; domBids := []; domAsks := [] |}
           eq_refl).
Defined.

Lemma quote_monitor_emits_only_what_it_read_witness :
  aapl_snapshot
    ∈ emitted (monitor Some [quoted aapl 15025 15026]) ∧
  ∃ ticker c,
    ticker ∈ [quoted aapl 15025 15026] ∧
    contract ticker = Some c ∧
    tob_event_type (aapl_snapshot) = "top_of_book" ∧
    tob_symbol (aapl_snapshot) = symbol c ∧
    tob_bid (aapl_snapshot) = safe_float (bid ticker) ∧
    tob_ask (aapl_snapshot) = safe_float (ask ticker) ∧
    tob_last (aapl_snapshot) = safe_float (last ticker) ∧
    tob_volume (aapl_snapshot) =
      safe_float (volume ticker) ≫= Some ∧
    tob_timestamp (aapl_snapshot) = time ticker.
Proof.
  assert (Hin : aapl_snapshot
                  ∈ emitted (monitor Some [quoted aapl 15025 15026])).
  { replace (emitted (monitor Some [quoted aapl 15025 15026]))
      with [aapl_snapshot]
      by (vm_compute; reflexivity).
    apply list_elem_of_here. }
  split; [exact Hin | ].
  exact (quote_monitor_emits_only_what_it_read Some
           [quoted aapl 15025 15026] (aapl_snapshot) Hin).
Defined.

(** A cycle with backpressure: the queue is full, the poll finds one new
    trade and its [put] parks; while it is parked the feed appends a
    second trade and a consumer empties the queue. The cycle has put the
    message of the first trade, the one entry of its slice, and the
    cursor is the length the list has after the put. *)
Lemma monitor_ticks_cycle_sends_slice_witness :
  full (Float := Z) (DateTime := Z) sample_full_queue = true ∧
  monitor_ticks_cycle (Float := Z) (DateTime := Z) Some "PLTR" "Last"
    (sample_parked [trade 2])
    {| last_processed_count := 0;
       ticks := [trade 1];
       out_queue := sample_full_queue;
       sent := [];
       ended := None |} =
  Some ({| last_processed_count := 2;
           ticks := [trade 1; trade 2];
           out_queue :=
             {| maxsize := 1;
                items := [MsgTickByTick
                            (trade_message "PLTR" "tick_by_tick_last" 1)] |};
           sent := [trade_message "PLTR" "tick_by_tick_last" 1];
           ended := None |},
        []) ∧
  [trade_message "PLTR" "tick_by_tick_last" 1] =
    [] ++ (tick_messages (Float := Z) (DateTime := Z) Some "PLTR" "Last"
             (drop 0 [trade 1])).1.
Proof.
  assert (Hfull : full (Float := Z) (DateTime := Z) sample_full_queue = true)
    by (vm_compute; reflexivity).
  assert (Hcycle :
    monitor_ticks_cycle (Float := Z) (DateTime := Z) Some "PLTR" "Last"
      (sample_parked [trade 2])
      {| last_processed_count := 0;
         ticks := [trade 1];
         out_queue := sample_full_queue;
         sent := [];
         ended := None |} =
    Some ({| last_processed_count := 2;
             ticks := [trade 1; trade 2];
             out_queue :=
               {| maxsize := 1;
                  items := [MsgTickByTick
                              (trade_message "PLTR" "tick_by_tick_last" 1)] |};
             sent := [trade_message "PLTR" "tick_by_tick_last" 1];
             ended := None |},
          [])) by (vm_compute; reflexivity).
  split; [exact Hfull | ]. split; [exact Hcycle | ].
  exact (proj1 (monitor_ticks_cycle_sends_slice Some "PLTR" "Last"
                  (sample_parked [trade 2]) _ _ [] Hcycle)).
Defined.

Lemma monitor_ticks_never_duplicates_witness :
  Forall grows_only (sample_sleeps (Float := Z) (DateTime := Z) Some (trade 1)) ∧
  Forall grows_only (sample_parked (Float := Z) (DateTime := Z) [trade 2]) ∧
  monitor_ticks_from (Float := Z) (DateTime := Z) Some "PLTR" "Last"
    (sample_sleeps Some (trade 1)) (sample_parked [trade 2])
    (monitor_ticks_start sample_full_queue []) =
  Some ({| last_processed_count := 2;
           ticks := [trade 1; trade 2];
           out_queue :=
             {| maxsize := 1;
                items := [MsgTickByTick
                            (trade_message "PLTR" "tick_by_tick_last" 1)] |};
           sent := [trade_message "PLTR" "tick_by_tick_last" 1];
           ended := None |}, []) ∧
  ∃ kept : list (Tick (Float := Z) (DateTime := Z)),
    inr <$> [trade_message "PLTR" "tick_by_tick_last" 1] =
      tick_message Some "PLTR" "Last" <$> kept ∧
    kept `sublist_of` [trade 1; trade 2] ∧
    [] `prefix_of` [trade (Float := Z) (DateTime := Z) 1; trade 2] ∧
    (2 ≤ length [trade (Float := Z) (DateTime := Z) 1%Z; trade 2%Z])%nat.
Proof.
  assert (Hsleeps : Forall grows_only
                      (sample_sleeps (Float := Z) (DateTime := Z) Some (trade 1)))
    by (repeat constructor).
  assert (Hparked : Forall grows_only
                      (sample_parked (Float := Z) (DateTime := Z) [trade 2]))
    by (repeat constructor).
  assert (Hrun :
    monitor_ticks_from (Float := Z) (DateTime := Z) Some "PLTR" "Last"
      (sample_sleeps Some (trade 1)) (sample_parked [trade 2])
      (monitor_ticks_start sample_full_queue []) =
    Some ({| last_processed_count := 2;
             ticks := [trade 1; trade 2];
             out_queue :=
               {| maxsize := 1;
                  items := [MsgTickByTick
                              (trade_message "PLTR" "tick_by_tick_last" 1)] |};
             sent := [trade_message "PLTR" "tick_by_tick_last" 1];
             ended := None |}, []))
    by (vm_compute; reflexivity).
  split; [exact Hsleeps | ]. split; [exact Hparked | ]. split; [exact Hrun | ].
  exact (monitor_ticks_never_duplicates Some "PLTR" "Last"
           (sample_sleeps Some (trade 1)) (sample_parked [trade 2])
           sample_full_queue [] _ [] Hsleeps Hparked Hrun).
Defined.

(** A tick monitor of trades on an unbounded queue, with whole sizes
    required: the feed appends trades of 1, 2.5 and 3 shares. The run
    sends the first trade and ends on the second. *)
Lemma tick_monitor_exact_on_unbounded_queue_witness :
  maxsize (Float := Z) (DateTime := Z) {| maxsize := 0; items := [] |} ≤ 0 ∧
  Forall grows_only
    [ {| feed_reset := None;
         feed_appended := trade (Float := Z) (DateTime := Z) <$> [100; 250; 300];
         queue_after := [] |} ] ∧
  [ {| feed_reset := None;
       feed_appended := trade (Float := Z) (DateTime := Z) <$> [100; 250; 300];
       queue_after := [] |} ] ≠ [] ∧
  ∃ st',
    monitor_ticks_from (Float := Z) (DateTime := Z) whole "PLTR" "Last"
      [ {| feed_reset := None; feed_appended := trade <$> [100; 250; 300];
           queue_after := [] |} ] []
      (monitor_ticks_start {| maxsize := 0; items := [] |} [])
      = Some (st', []) ∧
    tick_messages whole "PLTR" "Last" (ticks st') = (sent st', ended st') ∧
    (∀ e, ended st' = Some e →
          ∃ tick, tick ∈ ticks st' ∧
                  tick_message whole "PLTR" "Last" tick = inl e) ∧
    (ended st' = None →
     last_processed_count st' = length (ticks st') ∧
     inr <$> sent st' = tick_message whole "PLTR" "Last" <$> ticks st').
Proof.
  assert (Hmax : maxsize (Float := Z) (DateTime := Z)
                   {| maxsize := 0; items := [] |} ≤ 0) by (simpl; lia).
  assert (Hsleeps :
    Forall grows_only
      [ {| feed_reset := None;
           feed_appended := trade (Float := Z) (DateTime := Z) <$> [100; 250; 300];
           queue_after := [] |} ])
    by (repeat constructor).
  assert (Hne :
    [ {| feed_reset := None;
         feed_appended := trade (Float := Z) (DateTime := Z) <$> [100; 250; 300];
         queue_after := [] |} ] ≠ [])
    by discriminate.
  split; [exact Hmax | ]. split; [exact Hsleeps | ]. split; [exact Hne | ].
  exact (tick_monitor_exact_on_unbounded_queue whole "PLTR" "Last" _ []
           {| maxsize := 0; items := [] |} [] Hmax Hsleeps Hne).
Defined.

(** A run with backpressure and a quiet feed: the queue is full when the
    poll finds the first trade, the [put] parks, and during the wait a
    consumer empties the queue while the feed appends nothing. *)
Lemma tick_monitor_exact_when_parked_puts_are_quiet_witness :
  full (Float := Z) (DateTime := Z) sample_full_queue = true ∧
  Forall grows_only (sample_sleeps (Float := Z) (DateTime := Z) Some (trade 1)) ∧
  Forall quiet (sample_parked (Float := Z) (DateTime := Z) []) ∧
  sample_sleeps (Float := Z) (DateTime := Z) Some (trade 1) ≠ [] ∧
  monitor_ticks_from (Float := Z) (DateTime := Z) Some "PLTR" "Last"
    (sample_sleeps Some (trade 1)) (sample_parked [])
    (monitor_ticks_start sample_full_queue []) =
  Some ({| last_processed_count := 1;
           ticks := [trade 1];
           out_queue :=
             {| maxsize := 1;
                items := [MsgTickByTick
                            (trade_message "PLTR" "tick_by_tick_last" 1)] |};
           sent := [trade_message "PLTR" "tick_by_tick_last" 1];
           ended := None |}, []) ∧
  tick_messages (Float := Z) (DateTime := Z) Some "PLTR" "Last" [trade 1] =
    ([trade_message "PLTR" "tick_by_tick_last" 1], None).
Proof.
  assert (Hfull : full (Float := Z) (DateTime := Z) sample_full_queue = true)
    by (vm_compute; reflexivity).
  assert (Hsleeps : Forall grows_only
                      (sample_sleeps (Float := Z) (DateTime := Z) Some (trade 1)))
    by (repeat constructor).
  assert (Hquiet : Forall quiet (sample_parked (Float := Z) (DateTime := Z) []))
    by (repeat constructor).
  assert (Hne : sample_sleeps (Float := Z) (DateTime := Z) Some (trade 1) ≠ [])
    by discriminate.
  assert (Hrun :
    monitor_ticks_from (Float := Z) (DateTime := Z) Some "PLTR" "Last"
      (sample_sleeps Some (trade 1)) (sample_parked [])
      (monitor_ticks_start sample_full_queue []) =
    Some ({| last_processed_count := 1;
             ticks := [trade 1];
             out_queue :=
               {| maxsize := 1;
                  items := [MsgTickByTick
                              (trade_message "PLTR" "tick_by_tick_last" 1)] |};
             sent := [trade_message "PLTR" "tick_by_tick_last" 1];
             ended := None |}, []))
    by (vm_compute; reflexivity).
  split; [exact Hfull | ]. split; [exact Hsleeps | ]. split; [exact Hquiet | ].
  split; [exact Hne | ]. split; [exact Hrun | ].
  exact (proj1 (tick_monitor_exact_when_parked_puts_are_quiet Some "PLTR"
                  "Last" (sample_sleeps Some (trade 1)) (sample_parked [])
                  sample_full_queue [] _ [] Hsleeps Hquiet Hne Hrun)).
Defined.

Lemma only_requests_touch_the_queue_witness :
  is_request (SubscribeTopOfBook "PLTR") = false ∧
  queue (self (call Some plain (SubscribeTopOfBook "PLTR") connected).2) =
    queue (self connected) ∧
  current_queue_size (call Some plain (SubscribeTopOfBook "PLTR") connected).2 =
    current_queue_size connected.
Proof.
  split; [reflexivity | ].
  exact (only_requests_touch_the_queue Some plain (SubscribeTopOfBook "PLTR")
           connected eq_refl).
Defined.

Lemma session_only_appends_to_queue_witness :
  within_capacity (queue (self connected)) ∧
  maxsize (queue (self (session Some plain
                          [RequestFundamentalRatios "PLTR";
                           SubscribeTopOfBook "PLTR"] connected))) =
    maxsize (queue (self connected)) ∧
  items (queue (self connected)) `prefix_of`
    items (queue (self (session Some plain
                          [RequestFundamentalRatios "PLTR";
                           SubscribeTopOfBook "PLTR"] connected))) ∧
  within_capacity
    (queue (self (session Some plain
                    [RequestFundamentalRatios "PLTR";
                     SubscribeTopOfBook "PLTR"] connected))).
Proof.
  assert (Hcap : within_capacity (queue (self connected))).
  { replace (queue (self connected))
      with ({| maxsize := 10000; items := [] |} : Queue (Float := Z) (DateTime := Z))
      by (vm_compute; reflexivity).
    unfold within_capacity, qsize. simpl. lia. }
  split; [exact Hcap | ].
  exact (session_only_appends_to_queue Some plain
           [RequestFundamentalRatios "PLTR"; SubscribeTopOfBook "PLTR"]
           connected Hcap).
Defined.

Lemma contracts_are_never_removed_witness :
  is_Some (contracts (self connected) !! "PLTR") ∧
  is_Some (contracts (self (session Some plain [Disconnect; Connect] connected))
             !! "PLTR").
Proof.
  assert (Hsome : is_Some (contracts (self connected) !! "PLTR")).
  { replace (contracts (self connected) !! "PLTR") with (Some pltr)
      by (vm_compute; reflexivity).
    by eexists. }
  split; [exact Hsome | ].
  exact (proj1 (contracts_are_never_removed Some plain [Disconnect; Connect]
                  connected "PLTR" Hsome)).
Defined.

Abbreviation defined_only :=
  (define_contracts (Float := Z) (DateTime := Z) ["PLTR"] "SMART" "USD"
     (new_World (new_MarketDataAdapter "127.0.0.1" 7497 1 10000))).2
  (only parsing).

Lemma unconnected_adapter_raises_attribute_error_witness :
  ib (self defined_only) = None ∧
  contracts (self defined_only) !! "PLTR" = Some pltr ∧
  subscribe_top_of_book plain "PLTR" defined_only =
    (Raise (AttributeError "'NoneType' object has no such attribute"),
     defined_only).
Proof.
  assert (Hib : ib (self defined_only) = None) by (vm_compute; reflexivity).
  assert (Hc : contracts (self defined_only) !! "PLTR" = Some pltr)
    by (vm_compute; reflexivity).
  split; [exact Hib | ]. split; [exact Hc | ].
  exact (proj1 (unconnected_adapter_raises_attribute_error Some plain "PLTR" pltr
                  defined_only Hib Hc)).
Defined.

Abbreviation connected_depthless := (sample_connected depthless) (only parsing).

Lemma refused_subscription_leaves_nothing_witness :
  contracts (self connected_depthless) !! "PLTR" = Some pltr ∧
  ib (self connected_depthless) = Some {| calls := [first_call] |} ∧
  answer_ticker depthless [first_call] (reqMktDepth pltr 5 false) =
    inl (FeedError "no market depth") ∧
  subscribe_order_book depthless "PLTR" 5 connected_depthless =
    (Raise (FeedError "no market depth"),
     called [reqMktDepth pltr 5 false] [] connected_depthless).
Proof.
  assert (Hc : contracts (self connected_depthless) !! "PLTR" = Some pltr)
    by (vm_compute; reflexivity).
  assert (Hib : ib (self connected_depthless) =
                Some {| calls := [first_call] |})
    by (vm_compute; reflexivity).
  split; [exact Hc | ]. split; [exact Hib | ]. split; [reflexivity | ].
  exact (proj2 (proj2 (refused_subscription_leaves_nothing depthless "PLTR"
                         pltr {| calls := [first_call] |}
                         connected_depthless Hc Hib))
           5 (FeedError "no market depth") eq_refl).
Defined.

Lemma subscriptions_of_one_symbol_coexist_witness :
  contracts (self connected) !! "PLTR" = Some pltr ∧
  ib (self connected) = Some {| calls := [first_call] |} ∧
  dict_get "PLTR"
    (ticker_subs (self (session Some plain
                          [SubscribeTopOfBook "PLTR";
                           SubscribeTickByTick "PLTR" "Last";
                           SubscribeOrderBook "PLTR" 5;
                           SubscribeSmartDepth "PLTR" 10] connected))) =
    Some (silent pltr) ∧
  dict_get ("PLTR" +:+ "_tick_" +:+ "Last")
    (ticker_subs (self (session Some plain
                          [SubscribeTopOfBook "PLTR";
                           SubscribeTickByTick "PLTR" "Last";
                           SubscribeOrderBook "PLTR" 5;
                           SubscribeSmartDepth "PLTR" 10] connected))) =
    Some (silent pltr).
Proof.
  assert (Hc : contracts (self connected) !! "PLTR" = Some pltr)
    by (vm_compute; reflexivity).
  assert (Hib : ib (self connected) = Some {| calls := [first_call] |})
    by (vm_compute; reflexivity).
  split; [exact Hc | ]. split; [exact Hib | ].
  pose proof (subscriptions_of_one_symbol_coexist Some plain "PLTR" "Last" 5 10
                connected pltr {| calls := [first_call] |}
                (silent pltr) (silent pltr) (silent pltr) (silent pltr)
                Hc Hib eq_refl eq_refl eq_refl eq_refl) as Hall.
  exact (conj (proj1 Hall) (proj1 (proj2 Hall))).
Defined.

Abbreviation subscribed := (sample_subscribed plain) (only parsing).

Lemma disconnect_twice_disconnects_twice_witness :
  ib (self subscribed) = Some {| calls := [first_call; reqMktData pltr] |} ∧
  calls_of (disconnect plain (disconnect plain subscribed).2).2 =
    [first_call; reqMktData pltr] ++ sweep_calls (self subscribed) ++
    [ib_disconnect; ib_disconnect].
Proof.
  assert (Hib : ib (self subscribed) =
                Some {| calls := [first_call; reqMktData pltr] |})
    by (vm_compute; reflexivity).
  split; [exact Hib | ].
  exact (proj1 (proj2 (disconnect_twice_disconnects_twice plain subscribed
                         {| calls := [first_call; reqMktData pltr] |} Hib))).
Defined.

(** Two bars of one minute, with volumes of 1200 and 450 shares. *)
Abbreviation two_bars :=
  [flat_bar (Float := Z) (DateTime := Z) 1700000000 15025 120000;
   flat_bar (Float := Z) (DateTime := Z) 1700000060 15030 45000]
  (only parsing).
Abbreviation connected_with_bars :=
  (sample_connected (feed_with_bars two_bars)) (only parsing).

Lemma request_historical_data_outcomes_witness :
  contracts (self connected_with_bars) !! "PLTR" = Some pltr ∧
  ib (self connected_with_bars) = Some {| calls := [first_call] |} ∧
  historical_bars whole two_bars =
    inr [ {| bar_date := 1700000000; bar_open := 15025; bar_high := 15025;
             bar_low := 15025; bar_close := 15025; bar_volume := 1200;
             barCount := None; average := None |};
          {| bar_date := 1700000060; bar_open := 15030; bar_high := 15030;
             bar_low := 15030; bar_close := 15030; bar_volume := 450;
             barCount := None; average := None |} ] ∧
  (request_historical_data whole (feed_with_bars two_bars) "PLTR" "1 D"
     "1 min" "TRADES" true connected_with_bars).1 = Ok () ∧
  items (queue (self (request_historical_data whole (feed_with_bars two_bars)
                        "PLTR" "1 D" "1 min" "TRADES" true
                        connected_with_bars).2)) =
    items (queue (self connected_with_bars)) ++
    [MsgHistoricalData
       {| hist_event_type := "historical_data";
          hist_symbol := "PLTR";
          hist_bars :=
            [ {| bar_date := 1700000000; bar_open := 15025; bar_high := 15025;
                 bar_low := 15025; bar_close := 15025; bar_volume := 1200;
                 barCount := None; average := None |};
              {| bar_date := 1700000060; bar_open := 15030; bar_high := 15030;
                 bar_low := 15030; bar_close := 15030; bar_volume := 450;
                 barCount := None; average := None |} ] |}].
Proof.
  assert (Hc : contracts (self connected_with_bars) !! "PLTR" = Some pltr)
    by (vm_compute; reflexivity).
  assert (Hib : ib (self connected_with_bars)
                = Some {| calls := [first_call] |})
    by (vm_compute; reflexivity).
  assert (Hanswer :
    answer_bars (feed_with_bars two_bars) (calls {| calls := [first_call] |})
      (reqHistoricalDataAsync pltr "1 D" "1 min" "TRADES" true) = inr two_bars)
    by reflexivity.
  assert (Hbars :
    historical_bars whole two_bars =
      inr [ {| bar_date := 1700000000; bar_open := 15025; bar_high := 15025;
               bar_low := 15025; bar_close := 15025; bar_volume := 1200;
               barCount := None; average := None |};
            {| bar_date := 1700000060; bar_open := 15030; bar_high := 15030;
               bar_low := 15030; bar_close := 15030; bar_volume := 450;
               barCount := None; average := None |} ])
    by (vm_compute; reflexivity).
  assert (Hfull : full (queue (self connected_with_bars)) = false)
    by (vm_compute; reflexivity).
  split; [exact Hc | ]. split; [exact Hib | ]. split; [exact Hbars | ].
  pose proof (request_historical_data_outcomes whole (feed_with_bars two_bars)
                "PLTR" "1 D" "1 min" "TRADES" true pltr
                {| calls := [first_call] |} connected_with_bars Hc Hib)
    as Hout.
  cbv zeta in Hout. destruct Hout as (_ & _ & _ & _ & _ & Hout).
  rewrite Hanswer, Hbars, Hfull in Hout.
  destruct Hout as (_ & Hok & _ & Hitems).
  exact (conj Hok Hitems).
Defined.

(** The fourth outcome: the second bar has a volume of 45.5 shares. The
    request is made, the call raises the validation error, and the queue
    holds nothing. *)
Example request_historical_data_refuses_fractional_volume :
  (request_historical_data (Float := Z) (DateTime := Z) whole
     (feed_with_bars [flat_bar 1700000000 15025 120000;
                      flat_bar 1700000060 15030 4550])
     "PLTR" "1 D" "1 min" "TRADES" true
     (sample_connected
        (feed_with_bars [flat_bar 1700000000 15025 120000;
                         flat_bar 1700000060 15030 4550]))).1
    = Raise (ValidationError "volume") ∧
  items (queue (self
    (request_historical_data (Float := Z) (DateTime := Z) whole
       (feed_with_bars [flat_bar 1700000000 15025 120000;
                        flat_bar 1700000060 15030 4550])
       "PLTR" "1 D" "1 min" "TRADES" true
       (sample_connected
          (feed_with_bars [flat_bar 1700000000 15025 120000;
                           flat_bar 1700000060 15030 4550]))).2)) = [].
Proof. vm_compute. by split. Qed.

Lemma request_fundamental_ratios_is_finratios_report_witness :
  contracts (self connected) !! "PLTR" = Some pltr ∧
  ib (self connected) = Some {| calls := [first_call] |} ∧
  (request_fundamental_ratios plain "PLTR" connected).1 =
    (request_fundamental_data plain "PLTR" "FinRatios" connected).1.
Proof.
  assert (Hc : contracts (self connected) !! "PLTR" = Some pltr)
    by (vm_compute; reflexivity).
  assert (Hib : ib (self connected) = Some {| calls := [first_call] |})
    by (vm_compute; reflexivity).
  split; [exact Hc | ]. split; [exact Hib | ].
  exact (proj1 (request_fundamental_ratios_is_finratios_report plain "PLTR"
                  pltr {| calls := [first_call] |} connected Hc Hib)).
Defined.

(** ** Event loop *)

(** A session on a feed of bid and ask ticks: a quote subscription and a
    tick subscription of one symbol, then the event loop runs the tick
    monitor for one poll, which ends it. *)
Abbreviation bid_ask_feed :=
  (feed_with_ticks (Float := Z) (DateTime := Z) [bid_ask_tick]) (only parsing).
Abbreviation bid_ask_ticker :=
  {| contract := Some pltr; bid := RawNaN; ask := RawNaN; last := RawNaN;
     volume := RawNaN; time := None;
     tickByTicks := [bid_ask_tick (Float := Z) (DateTime := Z)];
     domBids := []; domAsks := [] |} (only parsing).
Abbreviation two_monitors :=
  (session Some bid_ask_feed
     [Connect; DefineContracts ["PLTR"] "SMART" "USD";
      SubscribeTopOfBook "PLTR"; SubscribeTickByTick "PLTR" "BidAsk"]
     (new_World (new_MarketDataAdapter "127.0.0.1" 7497 1 10000)))
  (only parsing).
Abbreviation tick_monitor_gone :=
  {| self := set_queue
               (out_queue
                  {| last_processed_count := 0;
                     ticks := [bid_ask_tick (Float := Z) (DateTime := Z)];
                     out_queue := {| maxsize := 10000; items := [] |};
                     sent := [];
                     ended := Some (AttributeError "price") |})
               (self two_monitors);
     log := log two_monitors;
     tasks := [monitor_task "PLTR" bid_ask_ticker] ++ [];
     updateEvent := updateEvent two_monitors |} (only parsing).

